(** * Failure and buckling evaluation of a blade-stiffened shell with
      Gaussian-process surrogates

    A shallow embedding of [src/constitutive/TACSGaussianProcessModel.cpp]
    (classes [TACSGaussianProcessModel], [TACSAxialGaussianProcessModel] and
    [TACSGPBladeStiffenedShellConstitutive]) and the properties of its
    failure evaluation, sensitivities and design-variable accessors.

    Conventions of the embedding.
    - [TacsScalar] is the real build's [double]; it is embedded as a real
      number [R].  Rounding is not modelled.  Where the control flow of the
      source depends on a value that can leave the reals (the Newton loop of
      [nondimShearParams], whose test is false on a NaN), the value is an
      [fp.t]: a real number, an infinity or NaN.  Elsewhere the arithmetic
      is that of [R], which is total by convention ([x / 0 = 0], [ln x = 0]
      for [x <= 0]): there the embedding agrees with the source where the
      operands of the source are inside the domain of the operation, and
      a theorem about the source states that they are.  The routines of
      the transverse shear parameter are also given on [fp.t]
      ([OnDoubles]), for what they do at a zero divisor.
    - A C array is a [list R]; [a !!! i] reads [a[i]] and [<[i:=v]> a]
      writes it.  A read or a write out of range is undefined behaviour in
      C; here the read gives [0] and the write leaves the array unchanged.
    - A function that writes through pointers takes the pointed-to values
      and returns the new ones; output pointers of one call are taken to
      be distinct locations, as they are at every call site of the file.
    - [int] values that can be negative (design-variable numbers, [-1] for
      "not a design variable") are [Z]; sizes and loop bounds are [nat]. *)

From Stdlib Require Import Reals Lra Lia ZArith.
From stdpp Require Import base decidable option list.

Open Scope R_scope.

#[global] Instance R_inhabited : Inhabited R := populate 0.
#[global] Instance R_eq_dec : EqDecision R := Req_dec_T.
#[global] Instance Rlt_decision (x y : R) : Decision (x < y) := Rlt_dec x y.
#[global] Instance Rle_decision (x y : R) : Decision (x <= y) := Rle_dec x y.
#[global] Instance Rgt_decision (x y : R) : Decision (x > y) := Rgt_dec x y.

(** ** The C math library on the reals *)

Module libm.

(** [M_PI]. *)
Definition M_PI : R := PI.

(** [log] is the natural logarithm of a positive argument.  The C
    function gives minus infinity at [0] and NaN below it; [ln] is [0]
    there, so a statement through [log] speaks of the source only where
    the argument is positive. *)
Definition log (x : R) : R := ln x.

(** [abs] on a [double]. *)
Definition abs (x : R) : R := Rabs x.

Definition is_integer (y : R) : Prop := IZR (Int_part y) = y.

(** [pow(x, y)]: [exp(y log x)] for a positive base, the integer power
    for an integer exponent, [0] for [0] raised to a positive exponent.
    The remaining cases (a negative base with a fractional exponent, [0]
    raised to a negative fractional exponent) are not real numbers; the
    total function gives [0] there and [pow_is_real] tells them apart. *)
Definition pow (x y : R) : R :=
  if decide (0 < x) then Rpower x y
  else if decide (is_integer y) then powerRZ x (Int_part y)
  else 0.

Definition pow_is_real (x y : R) : Prop :=
  0 < x \/ (x = 0 /\ 0 <= y) \/ (x < 0 /\ is_integer y).

#[global] Instance pow_is_real_dec x y : Decision (pow_is_real x y).
Proof. unfold pow_is_real, is_integer. apply _. Defined.

End libm.

(** ** Doubles with their special values *)

(** A [double] where the special values matter: a real number, an
    infinity or NaN.  The operations follow IEEE 754 on the special
    values and are exact on the reals; zero has no sign, and a division
    of a non-zero number by zero gives the infinity with the sign of the
    numerator. *)
Module fp.

Inductive t : Type :=
| Fin (r : R)
| PInf
| NInf
| NaN.

Definition neg (x : t) : t :=
  match x with
  | Fin r => Fin (- r)
  | PInf => NInf
  | NInf => PInf
  | NaN => NaN
  end.

Definition add (x y : t) : t :=
  match x, y with
  | NaN, _ | _, NaN => NaN
  | Fin a, Fin b => Fin (a + b)
  | PInf, NInf | NInf, PInf => NaN
  | PInf, _ | _, PInf => PInf
  | NInf, _ | _, NInf => NInf
  end.

Definition sub (x y : t) : t := add x (neg y).

(** The product of the real [r] with an infinity. *)
Definition inf_times (r : R) (positive : bool) : t :=
  if decide (0 < r) then (if positive then PInf else NInf)
  else if decide (r < 0) then (if positive then NInf else PInf)
  else NaN.

Definition mul (x y : t) : t :=
  match x, y with
  | NaN, _ | _, NaN => NaN
  | Fin a, Fin b => Fin (a * b)
  | Fin a, PInf | PInf, Fin a => inf_times a true
  | Fin a, NInf | NInf, Fin a => inf_times a false
  | PInf, PInf | NInf, NInf => PInf
  | PInf, NInf | NInf, PInf => NInf
  end.

Definition div (x y : t) : t :=
  match x, y with
  | NaN, _ | _, NaN => NaN
  | Fin a, Fin b => if decide (b = 0) then inf_times a true else Fin (a / b)
  | Fin _, PInf | Fin _, NInf => Fin 0
  | PInf, Fin b => if decide (b < 0) then NInf else PInf
  | NInf, Fin b => if decide (b < 0) then PInf else NInf
  | PInf, PInf | PInf, NInf | NInf, PInf | NInf, NInf => NaN
  end.

Definition sqrt (x : t) : t :=
  match x with
  | Fin r => if decide (0 <= r) then Fin (R_sqrt.sqrt r) else NaN
  | PInf => PInf
  | NInf => NaN
  | NaN => NaN
  end.

Definition odd_integer (y : R) : Prop :=
  libm.is_integer y /\ Z.odd (Int_part y) = true.

(** [pow(x, y)] for a finite exponent [y]. *)
Definition pow (x : t) (y : R) : t :=
  match x with
  | Fin r =>
      if decide (libm.pow_is_real r y) then Fin (libm.pow r y)
      else if decide (r = 0) then PInf
      else NaN
  | PInf =>
      if decide (0 < y) then PInf
      else if decide (y = 0) then Fin 1
      else Fin 0
  | NInf =>
      if decide (y = 0) then Fin 1
      else if decide (0 < y)
           then (if decide (odd_integer y) then NInf else PInf)
           else Fin 0
  | NaN => if decide (y = 0) then Fin 1 else NaN
  end.

Definition abs (x : t) : t :=
  match x with
  | Fin r => Fin (Rabs r)
  | PInf | NInf => PInf
  | NaN => NaN
  end.

(** [x > y]: false when [x] is NaN. *)
Definition gt (x : t) (y : R) : bool :=
  match x with
  | Fin r => bool_decide (r > y)
  | PInf => true
  | NInf => false
  | NaN => false
  end.

End fp.

Declare Scope fp_scope.
Delimit Scope fp_scope with fp.
Bind Scope fp_scope with fp.t.
Coercion fp.Fin : R >-> fp.t.
Infix "+" := fp.add : fp_scope.
Infix "-" := fp.sub : fp_scope.
Infix "*" := fp.mul : fp_scope.
Infix "/" := fp.div : fp_scope.
Notation "- x" := (fp.neg x) : fp_scope.

(** ** Arrays *)

(** [a[i] += v]. *)
Definition add_to (i : nat) (v : R) (a : list R) : list R :=
  <[i := a !!! i + v]> a.

(** [memset(a, 0, n * sizeof(TacsScalar))]. *)
Definition memset0 (n : nat) (a : list R) : list R :=
  replicate (n `min` length a) 0 ++ drop n a.

(** A callee that is handed [&a[k]] works on the part of [a] from index
    [k] on. *)
Definition at_offset (k : nat) (callee : list R -> list R) (a : list R)
  : list R :=
  take k a ++ callee (drop k a).

Definition sum_list (l : list R) : R := foldr Rplus 0 l.

(** ** The KS aggregator *)

Module KS.

Definition maxval (v : list R) : R := foldr Rmax (default 0 (head v)) v.

Definition terms (rho : R) (v : list R) : list R :=
  (fun x => exp (rho * (x - maxval v))) <$> v.

(** Modelled from the spec: [ksAggregation] is defined in the base
    constitutive class, which is not part of the sources at hand.
    [aggregate(values[1..n], rho) = max(values)
      + (1/rho) log(sum_i exp(rho (v_i - max(values))))]. *)
Definition ksAggregation (f : list R) (n : nat) (ksWeight : R) : R :=
  let v := take n f in
  maxval v + 1 / ksWeight * ln (sum_list (terms ksWeight v)).

(** Modelled from the spec: [ksAggregationSens] of the base constitutive
    class returns the aggregate and fills the weights
    [w_i = exp(rho (v_i - max)) / sum_j exp(rho (v_j - max))]. *)
Definition ksAggregationSens (f : list R) (n : nat) (ksWeight : R)
  : R * list R :=
  let v := take n f in
  let t := terms ksWeight v in
  (ksAggregation f n ksWeight, (fun e => e / sum_list t) <$> t).

End KS.

(** ** The trained regression model *)

Module TACSGaussianProcessModel.

(** The two virtual methods of the class. *)
Record Kernel := {
  kernel : list R -> list R -> R;
  kernelSens : R -> list R -> list R -> list R -> list R
}.

Record t := {
  n_train : nat;
  n_param : nat;
  Xtrain : list R;
  alpha : list R;
  methods : Kernel
}.

(** [&Xtrain[n_param * itrain]]. *)
Definition loc_Xtrain (gp : t) (itrain : nat) : list R :=
  drop (n_param gp * itrain) (Xtrain gp).

Definition predictMeanTestData (gp : t) (Xtest : list R) : R :=
  foldl
    (fun Ytest itrain =>
       Ytest
       + kernel (methods gp) Xtest (loc_Xtrain gp itrain)
         * (alpha gp !!! itrain))
    0 (seq 0 (n_train gp)).

(** Returns [Ytest] and the contents of [Xtestsens] after the call. *)
Definition predictMeanTestDataSens (gp : t) (Ysens : R) (Xtest : list R)
    (Xtestsens : list R) : R * list R :=
  foldl
    (fun '(Ytest, Xtestsens) itrain =>
       (Ytest
        + kernel (methods gp) Xtest (loc_Xtrain gp itrain)
          * (alpha gp !!! itrain),
        kernelSens (methods gp) (Ysens * (alpha gp !!! itrain)) Xtest
          (loc_Xtrain gp itrain) Xtestsens))
    (0, memset0 (n_param gp) Xtestsens)
    (seq 0 (n_train gp)).

End TACSGaussianProcessModel.

Module TACSAxialGaussianProcessModel.

Section Kernel.

(** The smooth relu and abs approximations of the class header and the
    sharpness [this->ks] they are called with. *)
Variables soft_relu soft_abs soft_relu_sens soft_abs_sens : R -> R -> R.
Variable ks : R.

Definition kernel (Xtest Xtrain : list R) : R :=
  let kernel0 := 1.0 + Xtest !!! 0%nat * Xtrain !!! 0%nat in
  let kernel1_1 :=
    0.1 + soft_relu (- Xtest !!! 1%nat) ks
          * soft_relu (- Xtrain !!! 1%nat) ks in
  let d1 := Xtest !!! 1%nat - Xtrain !!! 1%nat in
  let one := 1.0 in
  let fact1 := soft_relu (one - soft_abs (Xtest !!! 1%nat) ks) ks in
  let fact2 := soft_relu (one - soft_abs (Xtrain !!! 1%nat) ks) ks in
  let kernel1_2 :=
    1.0 + 0.02 * exp (-0.5 * (d1 * d1) / 0.2 / 0.2) * fact1 * fact2 in
  let d2 := Xtest !!! 2%nat - Xtrain !!! 2%nat in
  let kernel2 :=
    1.0 + 0.5 * Xtest !!! 2%nat * Xtrain !!! 2%nat
    + 0.1 * exp (-0.5 * d2 * d2 / 3.0 / 3.0) in
  let d3 := Xtest !!! 3%nat - Xtrain !!! 3%nat in
  let linearTerm := 1.0 + 0.2 * Xtest !!! 3%nat * Xtrain !!! 3%nat in
  let kernel3 :=
    linearTerm * linearTerm + 0.1 * exp (-0.5 * d3 * d3 / 3.0 / 3.0) in
  kernel1_1 * (kernel0 + kernel2 + kernel3)
  + kernel1_2 * kernel0 * kernel2 * kernel3.

(** The four entries of the local [jacobian] array. *)
Definition jacobian (Xtest Xtrain : list R) : list R :=
  let kernel0 := 1.0 + Xtest !!! 0%nat * Xtrain !!! 0%nat in
  let kernel1_1 :=
    0.1 + soft_relu (- Xtest !!! 1%nat) ks
          * soft_relu (- Xtrain !!! 1%nat) ks in
  let d1 := Xtest !!! 1%nat - Xtrain !!! 1%nat in
  let one := 1.0 in
  let fact1 := soft_relu (one - soft_abs (Xtest !!! 1%nat) ks) ks in
  let fact2 := soft_relu (one - soft_abs (Xtrain !!! 1%nat) ks) ks in
  let SE_term1 :=
    0.02 * exp (-0.5 * (d1 * d1) / 0.2 / 0.2) * fact1 * fact2 in
  let kernel1_2 := 1.0 + SE_term1 in
  let d2 := Xtest !!! 2%nat - Xtrain !!! 2%nat in
  let SEterm2 := 0.1 * exp (-0.5 * d2 * d2 / 3.0 / 3.0) in
  let kernel2 := 1.0 + 0.5 * Xtest !!! 2%nat * Xtrain !!! 2%nat + SEterm2 in
  let d3 := Xtest !!! 3%nat - Xtrain !!! 3%nat in
  let linearTerm := 1.0 + 0.2 * Xtest !!! 3%nat * Xtrain !!! 3%nat in
  let SEterm3 := 0.1 * exp (-0.5 * d3 * d3 / 3.0 / 3.0) in
  let kernel3 := linearTerm * linearTerm + SEterm3 in
  let kernel0sens := Xtrain !!! 0%nat in
  let jacobian0 := kernel0sens * (kernel1_1 + kernel1_2 * kernel2 * kernel3) in
  let k1_1sens :=
    soft_relu_sens (- Xtest !!! 1%nat) ks * -1.0
    * soft_relu (- Xtrain !!! 1%nat) ks in
  let k1_2sens := SE_term1 * - d1 / 0.2 / 0.2 in
  let k1_2sens :=
    k1_2sens
    + SE_term1 / soft_relu (one - soft_abs (Xtest !!! 1%nat) ks) ks
      * soft_relu_sens (one - soft_abs (Xtest !!! 1%nat) ks) ks
      * - soft_abs_sens (Xtest !!! 1%nat) ks in
  let jacobian1 :=
    k1_1sens * (kernel0 + kernel2 + kernel3)
    + k1_2sens * kernel0 * kernel2 * kernel3 in
  let kernel2sens := 0.5 * Xtrain !!! 2%nat + SEterm2 * - d2 / 3.0 / 3.0 in
  let jacobian2 := kernel2sens * (kernel1_1 + kernel1_2 * kernel0 * kernel3) in
  let kernel3sens :=
    0.2 * Xtrain !!! 3%nat * linearTerm * 2.0
    + SEterm3 * - d3 / 3.0 / 3.0 in
  let jacobian3 := kernel3sens * (kernel1_1 + kernel1_2 * kernel0 * kernel2) in
  [jacobian0; jacobian1; jacobian2; jacobian3].

(** [for (ii = 0; ii < 4; ii++) Xtestsens[ii] += ksens * jacobian[ii];] *)
Definition kernelSens (ksens : R) (Xtest Xtrain Xtestsens : list R)
  : list R :=
  let jacobian := jacobian Xtest Xtrain in
  foldl (fun Xtestsens ii => add_to ii (ksens * jacobian !!! ii) Xtestsens)
    Xtestsens (seq 0 4).

Definition methods : TACSGaussianProcessModel.Kernel :=
  {| TACSGaussianProcessModel.kernel := kernel;
     TACSGaussianProcessModel.kernelSens := kernelSens |}.

End Kernel.

End TACSAxialGaussianProcessModel.

(** ** The base class: the blade-stiffened shell without surrogates *)

Module TACSBladeStiffenedShellConstitutive.

(** The fields of the base class that the derived class reads. *)
Record t := {
  numDesignVars : Z;
  numGeneralDV : Z;
  panelDVStartNum : nat;
  stiffenerDVStartNum : nat;
  panelLength : R;
  stiffenerPitch : R;
  panelThick : R;
  panelThickNum : Z;
  panelThickLocalNum : Z;
  numPanelPlies : nat;
  panelQMats : list R;
  panelPlyFracs : list R;
  stiffenerHeight : R;
  stiffenerThick : R;
  stiffenerThickLocalNum : Z;
  numStiffenerPlies : nat;
  stiffenerQMats : list R;
  stiffenerPlyFracs : list R;
  ksWeight : R
}.

(** [this->numDesignVars++; this->numGeneralDV++;] *)
Definition add_general_DV (b : t) : t :=
  {| numDesignVars := numDesignVars b + 1;
     numGeneralDV := numGeneralDV b + 1;
     panelDVStartNum := panelDVStartNum b;
     stiffenerDVStartNum := stiffenerDVStartNum b;
     panelLength := panelLength b;
     stiffenerPitch := stiffenerPitch b;
     panelThick := panelThick b;
     panelThickNum := panelThickNum b;
     panelThickLocalNum := panelThickLocalNum b;
     numPanelPlies := numPanelPlies b;
     panelQMats := panelQMats b;
     panelPlyFracs := panelPlyFracs b;
     stiffenerHeight := stiffenerHeight b;
     stiffenerThick := stiffenerThick b;
     stiffenerThickLocalNum := stiffenerThickLocalNum b;
     numStiffenerPlies := numStiffenerPlies b;
     stiffenerQMats := stiffenerQMats b;
     stiffenerPlyFracs := stiffenerPlyFracs b;
     ksWeight := ksWeight b |}.

(** The methods of the base class (and of the shell constitutive class
    above it) that the derived class calls.  Their code is not part of
    the sources at hand: they are the external collaborators of the
    failure evaluator.  A method that fills an array returns it; a
    method that adds into a design-variable buffer maps the buffer it
    is handed to the buffer it leaves. *)
Class Methods := {
  computePanelFailure : t -> list R -> R;
  evalPanelFailureStrainSens : t -> list R -> R * list R;
  computeStiffenerFailure : t -> list R -> R;
  evalStiffenerFailureStrainSens : t -> list R -> R * list R;
  transformStrain : t -> list R -> list R;
  transformStrainSens : t -> list R -> list R;
  computePanelStiffness : t -> list R;
  computeStiffenerStiffness : t -> list R;
  (** [extractTangentStiffness(C, &A, NULL, &D, NULL, NULL)]. *)
  extractTangentStiffness : list R -> list R * list R;
  computePanelStress : t -> list R -> list R;
  computeStiffenerStress : t -> list R -> list R;
  bucklingEnvelope : t -> R -> R -> R -> R -> R;
  (** The value and the sensitivities to [N1], [N1Crit], [N12] and
      [N12Crit], in this order. *)
  bucklingEnvelopeSens : t -> R -> R -> R -> R -> R * (R * R * R * R);
  computeEffectiveModulii : t -> nat -> list R -> list R -> R * R;
  computeStiffenerArea : t -> R;
  computeStiffenerIzz : t -> R;
  computeStiffenerIzzSens : t -> R * R;
  addPanelFailureDVSens : t -> list R -> R -> list R -> list R;
  addStiffenerFailureDVSens : t -> list R -> R -> list R -> list R;
  addStrainTransformProductDVsens :
    t -> list R -> list R -> R -> list R -> list R;
  addPanelStressDVSens : t -> R -> list R -> list R -> list R -> list R;
  addStiffenerStressDVSens : t -> R -> list R -> list R -> list R -> list R;
  setDesignVars : t -> Z -> Z -> list R -> t;
  getDesignVars : t -> Z -> Z -> list R -> list R
}.

End TACSBladeStiffenedShellConstitutive.

(** ** The blade-stiffened shell with Gaussian-process buckling loads *)

Module TACSGPBladeStiffenedShellConstitutive.

Module Base := TACSBladeStiffenedShellConstitutive.
Module GP := TACSGaussianProcessModel.

(** The object: the base-class part and the fields the class adds.  A
    null surrogate pointer is [None]. *)
Record t := {
  base : Base.t;
  panelWidth : R;
  panelWidthNum : Z;
  panelWidthLocalNum : Z;
  panelWidthLowerBound : R;
  panelWidthUpperBound : R;
  axialGP : option GP.t;
  shearGP : option GP.t;
  cripplingGP : option GP.t
}.

Definition getAxialGP (this : t) : option GP.t := axialGP this.
Definition getShearGP (this : t) : option GP.t := shearGP this.
Definition getCripplingGP (this : t) : option GP.t := cripplingGP this.

(** The number of failure modes, [0] to [4]. *)
Definition NUM_FAILURES : nat := 5.

(** The body of the constructor, run on the object the base-class
    constructor leaves. *)
Definition constructor (b : Base.t) (panelWidth : R) (panelWidthNum : Z)
    (axialGP shearGP cripplingGP : option GP.t) : t :=
  {| base := if decide (0 <= panelWidthNum)%Z then Base.add_general_DV b
             else b;
     panelWidth := panelWidth;
     panelWidthNum := panelWidthNum;
     panelWidthLocalNum :=
       if decide (0 <= panelWidthNum)%Z then Base.numDesignVars b
       else (-1)%Z;
     panelWidthLowerBound := 0.000;
     panelWidthUpperBound := 1e20;
     axialGP := axialGP;
     shearGP := shearGP;
     cripplingGP := cripplingGP |}.

Definition with_base (this : t) (b : Base.t) : t :=
  {| base := b;
     panelWidth := panelWidth this;
     panelWidthNum := panelWidthNum this;
     panelWidthLocalNum := panelWidthLocalNum this;
     panelWidthLowerBound := panelWidthLowerBound this;
     panelWidthUpperBound := panelWidthUpperBound this;
     axialGP := axialGP this;
     shearGP := shearGP this;
     cripplingGP := cripplingGP this |}.

Definition with_panelWidth (this : t) (w : R) : t :=
  {| base := base this;
     panelWidth := w;
     panelWidthNum := panelWidthNum this;
     panelWidthLocalNum := panelWidthLocalNum this;
     panelWidthLowerBound := panelWidthLowerBound this;
     panelWidthUpperBound := panelWidthUpperBound this;
     axialGP := axialGP this;
     shearGP := shearGP this;
     cripplingGP := cripplingGP this |}.

(** *** The coupled shear-mode solver *)

Definition lam2Constraint (lam2sq : fp.t) (xi gamma : R) : fp.t :=
  (let lam1bar :=
     fp.pow (1.0 + 2.0 * lam2sq * xi + lam2sq * lam2sq + gamma) 0.25 in
   let lam1sq := lam1bar * lam1bar in
   let lam14 := lam1sq * lam1sq in
   lam2sq + lam1sq + xi / 3.0
   - fp.sqrt ((3.0 + xi) / 9.0 + 4.0 / 3.0 * lam1sq * xi
              + 4.0 / 3.0 * lam14))%fp.

Definition lam2ConstraintDeriv (lam2sq : fp.t) (xi gamma : R) : fp.t :=
  (let dfdlam2sq : fp.t := 1.0 in
   let temp := 1.0 + 2.0 * lam2sq * xi + lam2sq * lam2sq + gamma in
   let lam1 := fp.pow temp 0.25 in
   let lam1sq := lam1 * lam1 in
   let lam14 := lam1sq * lam1sq in
   let term2 :=
     fp.sqrt ((3.0 + xi) / 9.0 + 4.0 / 3.0 * lam1sq * xi
              + 4.0 / 3.0 * lam14) in
   let dlam1_dlam2sq := lam1 * 0.25 / temp * (2.0 + 2.0 * lam2sq) in
   let dfdlam1 :=
     2 * lam1
     - 0.5 / term2 * 4.0 / 3.0 * (2.0 * lam1 * xi + 4.0 * lam1 * lam1sq) in
   dfdlam2sq + dfdlam1 * dlam1_dlam2sq)%fp.

(** [lam2bar_sq -= lam2Constraint(..) / lam2ConstraintDeriv(..)]. *)
Definition newton_update (lam2bar_sq : fp.t) (xi gamma : R) : fp.t :=
  (lam2bar_sq
   - lam2Constraint lam2bar_sq xi gamma
     / lam2ConstraintDeriv lam2bar_sq xi gamma)%fp.

(** The loop test [abs(lam2Constraint(lam2bar_sq, xi, gamma)) > 1e-10]. *)
Definition newton_continues (lam2bar_sq : fp.t) (xi gamma : R) : bool :=
  fp.gt (fp.abs (lam2Constraint lam2bar_sq xi gamma)) 1e-10.

(** The [while] loop, cut off after [fuel] tests; [None] when the cut-off
    is reached before the loop stops. *)
Fixpoint newton_loop (fuel : nat) (lam2bar_sq : fp.t) (xi gamma : R)
  : option fp.t :=
  match fuel with
  | O => None
  | S fuel =>
      if newton_continues lam2bar_sq xi gamma
      then newton_loop fuel (newton_update lam2bar_sq xi gamma) xi gamma
      else Some lam2bar_sq
  end.

(** The values left in [*lam1bar] and [*lam2bar]. *)
Definition nondimShearParams (fuel : nat) (xi gamma : R)
  : option (fp.t * fp.t) :=
  lam2bar_sq ← newton_loop fuel (fp.Fin 0.0) xi gamma;
  Some (fp.pow (1.0 + 2.0 * lam2bar_sq * xi + lam2bar_sq * lam2bar_sq
                + gamma)%fp 0.25,
        fp.pow lam2bar_sq 0.5).

(** *** The nondimensional parameters *)

(** Modelled from the spec: the forward function is declared in the
    class header, which is not part of the sources at hand.
    [rho_0 = (a/b) (D22/D11)^0.25]. *)
Definition computeAffineAspectRatio (D11 D22 a b : R) : R :=
  a / b * libm.pow (D22 / D11) 0.25.

(** Modelled from the spec: the forward function is declared in the
    class header.  [xi = (D12 + 2 D66) / sqrt(D11 D22)]. *)
Definition computeGeneralizedRigidity (D11 D22 D12 D66 : R) : R :=
  (D12 + 2.0 * D66) / sqrt (D11 * D22).

(** Modelled from the spec: the forward function is declared in the
    class header.  [(D12 + 2 D66) / D12].  The quotient is that of the
    code for [D12 <> 0]; at [D12 = 0] the code divides by zero, and the
    value here ([0]) is not the code's. *)
Definition computeGeneralizedPoissonsRatio (D12 D66 : R) : R :=
  (D12 + 2.0 * D66) / D12.

(** The value of the code for [A11 <> 0] and [h <> 0]; [OnDoubles] below
    has the routine with its divisions by zero. *)
Definition computeTransverseShearParameter (A66 A11 b h : R) : R :=
  A66 / A11 * (b / h) * (b / h).

(** The returned [zeta] and the new values of [*A66sens], [*A11sens],
    [*bsens] and [*hsens].  They are those of the code where [A66], [A11],
    [b] and [h] are non-zero: each slot divides by its own argument. *)
Definition computeTransverseShearParameterSens (zetasens A66 A11 b h : R)
    (A66sens A11sens bsens hsens : R) : R * (R * R * R * R) :=
  let zeta := A66 / A11 * (b / h) * (b / h) in
  let dzeta := zetasens * zeta in
  (zeta,
   (A66sens + dzeta / A66,
    A11sens + dzeta * -1.0 / A11,
    bsens + dzeta * 2.0 / b,
    hsens + dzeta * -2.0 / h)).

(** The two routines of the transverse shear parameter on doubles with
    their special values: what they return and leave also where a divisor
    is zero.  On non-zero real arguments they agree with the two
    definitions above, which the evaluator uses. *)
Module OnDoubles.

Definition computeTransverseShearParameter (A66 A11 b h : fp.t) : fp.t :=
  (A66 / A11 * (b / h) * (b / h))%fp.

Definition computeTransverseShearParameterSens
    (zetasens A66 A11 b h : fp.t) (A66sens A11sens bsens hsens : fp.t)
  : fp.t * (fp.t * fp.t * fp.t * fp.t) :=
  (let zeta := A66 / A11 * (b / h) * (b / h) in
   let dzeta := zetasens * zeta in
   (zeta,
    (A66sens + dzeta / A66,
     A11sens + dzeta * -1.0 / A11,
     bsens + dzeta * 2.0 / b,
     hsens + dzeta * -2.0 / h)))%fp.

End OnDoubles.

(** [*asens], [*bsens], [*D11sens] and [*D22sens] are assigned, not
    added to. *)
Definition computeAffineAspectRatioSens (rho0sens D11 D22 a b : R)
    (D11sens D22sens asens bsens : R) : R * (R * R * R * R) :=
  let rho_0 := computeAffineAspectRatio D11 D22 a b in
  (rho_0,
   (rho0sens * -0.25 * rho_0 / D11,
    rho0sens * 0.25 * rho_0 / D22,
    rho0sens * rho_0 / a,
    rho0sens * -1.0 * rho_0 / b)).

Definition computeGeneralizedRigiditySens (xisens D11 D22 D12 D66 : R)
    (D11sens D22sens D12sens D66sens : R) : R * (R * R * R * R) :=
  let denominator := sqrt (D11 * D22) in
  let xi := computeGeneralizedRigidity D11 D22 D12 D66 in
  (xi,
   (D11sens + xisens * -0.5 * xi / D11,
    D22sens + xisens * -0.5 * xi / D22,
    D12sens + xisens * 1.0 / denominator,
    D66sens + xisens * 2.0 / denominator)).

Definition computeGeneralizedPoissonsRatioSens (epssens D12 D66 : R)
    (D12sens D66sens : R) : R * (R * R) :=
  let eps := computeGeneralizedPoissonsRatio D12 D66 in
  (eps,
   (D12sens + epssens * -2.0 * D66 / D12 / D12,
    D66sens + epssens * 2.0 / D12)).

Section Methods.

Context `{!Base.Methods}.

(** Constants of the class headers: the length of a shell strain or
    stress vector and the number of closed-form buckling modes. *)
Variables NUM_STRESSES NUM_CF_MODES : nat.

Definition computeStiffenerAreaRatio (this : t) : R :=
  let b := base this in
  let '(E1p, _) :=
    Base.computeEffectiveModulii b (Base.numPanelPlies b)
      (Base.panelQMats b) (Base.panelPlyFracs b) in
  let '(E1s, _) :=
    Base.computeEffectiveModulii b (Base.numStiffenerPlies b)
      (Base.stiffenerQMats b) (Base.stiffenerPlyFracs b) in
  let As := Base.computeStiffenerArea b in
  E1s * As / (E1p * Base.stiffenerPitch b * Base.panelThick b).

Definition computeStiffenerAreaRatioSens (this : t) (deltasens : R)
    (sthickSens sheightSens spitchSens pthickSens : R)
  : R * (R * R * R * R) :=
  let b := base this in
  let delta := computeStiffenerAreaRatio this in
  (delta,
   (sthickSens + deltasens * delta / Base.stiffenerThick b,
    sheightSens + deltasens * delta / Base.stiffenerHeight b,
    spitchSens + deltasens * -1.0 * delta / Base.stiffenerPitch b,
    pthickSens + deltasens * -1.0 * delta / Base.panelThick b)).

Definition computeStiffenerStiffnessRatio (this : t) (D11 : R) : R :=
  let b := base this in
  let '(E1p, _) :=
    Base.computeEffectiveModulii b (Base.numPanelPlies b)
      (Base.panelQMats b) (Base.panelPlyFracs b) in
  let '(E1s, _) :=
    Base.computeEffectiveModulii b (Base.numStiffenerPlies b)
      (Base.stiffenerQMats b) (Base.stiffenerPlyFracs b) in
  let Is := Base.computeStiffenerIzz b in
  E1s * Is / D11 / Base.stiffenerThick b.

Definition computeStiffenerStiffnessRatioSens (this : t)
    (gammasens D11 : R) (D11sens sthickSens sheightSens spitchSens : R)
  : R * (R * R * R * R) :=
  let b := base this in
  let gamma := computeStiffenerStiffnessRatio this D11 in
  let Is := Base.computeStiffenerIzz b in
  let '(dI_dsthick, dI_dsheight) := Base.computeStiffenerIzzSens b in
  (gamma,
   (D11sens + gammasens * -1.0 * gamma / D11,
    sthickSens + gammasens * gamma / Is * dI_dsthick,
    sheightSens + gammasens * gamma / Is * dI_dsheight,
    spitchSens + gammasens * -1.0 * gamma / Base.stiffenerPitch b)).

(** *** Critical loads *)

(** The log-transformed inputs written to [Xtest[0..3]]. *)
Definition log_inputs (x0 x1 x2 x3 : R) : list R := [x0; x1; x2; x3].

(** The array [neg_N11crits] of the closed-form global axial load. *)
Definition global_axial_modes (this : t)
    (D11 D22 b delta rho_0 xi gamma : R) : list R :=
  (fun m1 : nat =>
     let dim_factor :=
       libm.M_PI * libm.M_PI * sqrt (D11 * D22) / b / b / (1.0 + delta) in
     let nondim_factor :=
       (1.0 + gamma) * libm.pow (INR m1 / rho_0) 2.0
       + libm.pow (INR m1 / rho_0) (-2.0) + 2.0 * xi in
     -1.0 * dim_factor * nondim_factor)
  <$> seq 1 NUM_CF_MODES.

Definition computeCriticalGlobalAxialLoad (this : t)
    (D11 D22 b delta rho_0 xi gamma zeta : R) : R :=
  match getAxialGP this with
  | Some gp =>
      let dim_factor :=
        libm.M_PI * libm.M_PI * sqrt (D11 * D22) / b / b / (1.0 + delta) in
      let Xtest :=
        log_inputs (libm.log xi) (libm.log rho_0) (libm.log (1 + gamma))
          (libm.log zeta) in
      dim_factor * exp (GP.predictMeanTestData gp Xtest)
  | None =>
      let neg_N11crits :=
        global_axial_modes this D11 D22 b delta rho_0 xi gamma in
      let neg_N11crit :=
        KS.ksAggregation neg_N11crits NUM_CF_MODES
          (Base.ksWeight (base this)) in
      -1.0 * neg_N11crit
  end.

(** The returned load and the new values of [*D11sens], [*D22sens],
    [*bsens], [*deltasens], [*rho_0sens], [*xisens], [*gammasens] and
    [*zetasens]. *)
Definition computeCriticalGlobalAxialLoadSens (this : t)
    (N1sens D11 D22 b delta rho_0 xi gamma zeta : R)
    (D11sens D22sens bsens deltasens rho_0sens xisens gammasens
       zetasens : R)
  : R * (R * R * R * R * R * R * R * R) :=
  match getAxialGP this with
  | Some gp =>
      let dim_factor :=
        libm.M_PI * libm.M_PI * sqrt (D11 * D22) / b / b / (1.0 + delta) in
      let Xtest :=
        log_inputs (libm.log xi) (libm.log rho_0) (libm.log (1 + gamma))
          (libm.log zeta) in
      let arg := GP.predictMeanTestData gp Xtest in
      let nondim_factor := exp arg in
      let output := dim_factor * nondim_factor in
      let Ysens := N1sens * output in
      let Xtestsens :=
        (GP.predictMeanTestDataSens gp Ysens Xtest
           (replicate (GP.n_param gp) 0)).2 in
      (output,
       (D11sens + Ysens * 0.5 / D11,
        D22sens + Ysens * 0.5 / D22,
        bsens + Ysens * -2.0 / b,
        deltasens + Ysens * -1.0 / (1.0 + delta),
        rho_0sens + Xtestsens !!! 1%nat / rho_0,
        xisens + Xtestsens !!! 0%nat / xi,
        gammasens + Xtestsens !!! 2%nat / (1.0 + gamma),
        zetasens + Xtestsens !!! 3%nat / zeta))
  | None =>
      let neg_N11crits :=
        global_axial_modes this D11 D22 b delta rho_0 xi gamma in
      let '(neg_N11crit, neg_N11crits_sens) :=
        KS.ksAggregationSens neg_N11crits NUM_CF_MODES
          (Base.ksWeight (base this)) in
      let slots :=
        foldl
          (fun '(D11sens, D22sens, bsens, deltasens, rho_0sens, xisens,
                 gammasens) (m1 : nat) =>
             let sens_m1 := neg_N11crits_sens !!! (m1 - 1)%nat * N1sens in
             let dim_factor :=
               libm.M_PI * libm.M_PI * sqrt (D11 * D22) / b / b
               / (1.0 + delta) in
             let nondim_factor :=
               (1.0 + gamma) * libm.pow (INR m1 / rho_0) 2.0
               + libm.pow (INR m1 / rho_0) (-2.0) + 2.0 * xi in
             let neg_m1 := -1.0 * dim_factor * nondim_factor in
             (D11sens + sens_m1 * (0.5 * neg_m1 / D11),
              D22sens + sens_m1 * (0.5 * neg_m1 / D22),
              bsens + sens_m1 * (-2.0 * neg_m1 / b),
              deltasens + sens_m1 * (-1.0 * neg_m1 / (1.0 + delta)),
              rho_0sens
              + sens_m1 * - dim_factor
                * ((1.0 + gamma) * -2.0 * libm.pow (INR m1 / rho_0) 2.0
                   / rho_0
                   + libm.pow (INR m1 / rho_0) (-2.0) * 2.0 / rho_0),
              xisens + sens_m1 * - dim_factor * 2.0,
              gammasens
              + sens_m1 * - dim_factor * libm.pow (INR m1 / rho_0) 2.0))
          (D11sens, D22sens, bsens, deltasens, rho_0sens, xisens,
           gammasens)
          (seq 1 NUM_CF_MODES) in
      let '(D11sens, D22sens, bsens, deltasens, rho_0sens, xisens,
            gammasens) := slots in
      (-1.0 * neg_N11crit,
       (D11sens, D22sens, bsens, deltasens, rho_0sens, xisens, gammasens,
        zetasens))
  end.

(** The array [neg_N11crits] of the closed-form local axial load. *)
Definition local_axial_modes (this : t) (D11 D22 rho_0 xi : R) : list R :=
  (fun m1 : nat =>
     let dim_factor :=
       libm.M_PI * libm.M_PI * sqrt (D11 * D22)
       / Base.stiffenerPitch (base this)
       / Base.stiffenerPitch (base this) in
     let nondim_factor :=
       libm.pow (INR m1 / rho_0) 2.0 + libm.pow (INR m1 / rho_0) (-2.0)
       + 2.0 * xi in
     -1.0 * dim_factor * nondim_factor)
  <$> seq 1 NUM_CF_MODES.

Definition computeCriticalLocalAxialLoad (this : t)
    (D11 D22 rho_0 xi zeta : R) : R :=
  match getAxialGP this with
  | Some gp =>
      let dim_factor :=
        libm.M_PI * libm.M_PI * sqrt (D11 * D22)
        / Base.stiffenerPitch (base this)
        / Base.stiffenerPitch (base this) in
      let Xtest :=
        log_inputs (libm.log xi) (libm.log rho_0) 0.0 (libm.log zeta) in
      dim_factor * exp (GP.predictMeanTestData gp Xtest)
  | None =>
      let neg_N11crits := local_axial_modes this D11 D22 rho_0 xi in
      let neg_N11crit :=
        KS.ksAggregation neg_N11crits NUM_CF_MODES
          (Base.ksWeight (base this)) in
      -1.0 * neg_N11crit
  end.

(** The returned load and the new values of [*D11sens], [*D22sens],
    [*rho_0sens], [*xisens], [*spitchsens] and [*zetasens].  The
    closed-form branch sets the first five to [0.0] before its loop. *)
Definition computeCriticalLocalAxialLoadSens (this : t)
    (N1sens D11 D22 rho_0 xi zeta : R)
    (D11sens D22sens rho_0sens xisens spitchsens zetasens : R)
  : R * (R * R * R * R * R * R) :=
  match getAxialGP this with
  | Some gp =>
      let dim_factor :=
        libm.M_PI * libm.M_PI * sqrt (D11 * D22)
        / Base.stiffenerPitch (base this)
        / Base.stiffenerPitch (base this) in
      let Xtest :=
        log_inputs (libm.log xi) (libm.log rho_0) 0.0 (libm.log zeta) in
      let arg := GP.predictMeanTestData gp Xtest in
      let nondim_factor := exp arg in
      let output := dim_factor * nondim_factor in
      let Ysens := N1sens * output in
      let Xtestsens :=
        (GP.predictMeanTestDataSens gp Ysens Xtest
           (replicate (GP.n_param gp) 0)).2 in
      (output,
       (D11sens + Ysens * 0.5 / D11,
        D22sens + Ysens * 0.5 / D22,
        rho_0sens + Xtestsens !!! 1%nat / rho_0,
        xisens + Xtestsens !!! 0%nat / xi,
        spitchsens + Ysens * -2.0 / Base.stiffenerPitch (base this),
        zetasens + Xtestsens !!! 3%nat / zeta))
  | None =>
      let neg_N11crits := local_axial_modes this D11 D22 rho_0 xi in
      let '(neg_N11crit, neg_N11crits_sens) :=
        KS.ksAggregationSens neg_N11crits NUM_CF_MODES
          (Base.ksWeight (base this)) in
      let slots :=
        foldl
          (fun '(D11sens, D22sens, rho_0sens, xisens, spitchsens)
               (m1 : nat) =>
             let sens_m1 := neg_N11crits_sens !!! (m1 - 1)%nat * N1sens in
             let dim_factor :=
               libm.M_PI * libm.M_PI * sqrt (D11 * D22)
               / Base.stiffenerPitch (base this)
               / Base.stiffenerPitch (base this) in
             let nondim_factor :=
               libm.pow (INR m1 / rho_0) 2.0
               + libm.pow (INR m1 / rho_0) (-2.0) + 2.0 * xi in
             let neg_m1 := -1.0 * dim_factor * nondim_factor in
             (D11sens + sens_m1 * (0.5 * neg_m1 / D11),
              D22sens + sens_m1 * (0.5 * neg_m1 / D22),
              rho_0sens
              + sens_m1 * - dim_factor
                * (-2.0 * libm.pow (INR m1 / rho_0) 2.0 / rho_0
                   + libm.pow (INR m1 / rho_0) (-2.0) * 2.0 / rho_0),
              xisens + sens_m1 * - dim_factor * 2.0,
              spitchsens
              + sens_m1
                * (-2.0 * neg_m1 / Base.stiffenerPitch (base this))))
          (0.0, 0.0, 0.0, 0.0, 0.0)
          (seq 1 NUM_CF_MODES) in
      let '(D11sens, D22sens, rho_0sens, xisens, spitchsens) := slots in
      (-1.0 * neg_N11crit,
       (D11sens, D22sens, rho_0sens, xisens, spitchsens, zetasens))
  end.

(** The mode parameters the solver delivers when both are real numbers;
    [None] when the loop is cut off or a parameter is not a real number,
    after which the callers below compute on NaN or infinities. *)
Definition real_shear_params (fuel : nat) (xi gamma : R) : option (R * R) :=
  '(lam1, lam2) ← nondimShearParams fuel xi gamma;
  match lam1, lam2 with
  | fp.Fin lam1, fp.Fin lam2 => Some (lam1, lam2)
  | _, _ => None
  end.

Definition computeCriticalGlobalShearLoad (fuel : nat) (this : t)
    (D11 D22 b xi rho_0 gamma zeta : R) : option R :=
  match getShearGP this with
  | Some gp =>
      let dim_factor :=
        libm.M_PI * libm.M_PI * libm.pow (D11 * D22 * D22 * D22) 0.25
        / b / b in
      let Xtest :=
        log_inputs (libm.log xi) (libm.log rho_0) (libm.log (1.0 + gamma))
          (libm.log zeta) in
      Some (dim_factor * exp (GP.predictMeanTestData gp Xtest))
  | None =>
      '(lam1, lam2) ← real_shear_params fuel xi gamma;
      let dim_factor :=
        libm.M_PI * libm.M_PI * libm.pow (D11 * D22 * D22 * D22) 0.25
        / b / b in
      let nondim_factor :=
        (1.0 + libm.pow lam1 4.0 + 6.0 * libm.pow (lam1 * lam2) 2.0
         + libm.pow lam2 4.0 + 2.0 * xi)
        / (2.0 * lam1 * lam1 * lam2) in
      Some (dim_factor * nondim_factor)
  end.

(** The values left in [*lam1bar], [*lam2bar], [*dl1xi], [*dl1gamma],
    [*dl2xi] and [*dl2gamma]. *)
Definition nondimShearParamsSens (fuel : nat) (xi gamma : R)
  : option (R * R * R * R * R * R) :=
  '(lam1, lam2) ← real_shear_params fuel xi gamma;
  let exp1 := 1.0 + 2.0 * lam2 * lam2 * xi + libm.pow lam2 4.0 + gamma in
  let dexp1lam2 := 4.0 * lam2 * xi + 4.0 * lam2 * lam2 * lam2 in
  let dexp1xi := 2.0 * lam2 * lam2 in
  let dexp1gamma := 1.0 in
  let exp2 :=
    (3.0 + xi) / 9.0
    + 4.0 / 3.0 * (lam1 * lam1 * xi + libm.pow lam1 4.0) in
  let dexp2lam1 :=
    4.0 / 3.0 * (2.0 * lam1 * xi + 4.0 * lam1 * lam1 * lam1) in
  let dexp2xi := 1.0 / 9.0 in
  let dexp2gamma := 0.0 in
  let A1 := 1.0 in
  let B1 := -0.25 * lam1 / exp1 * dexp1lam2 in
  let E1 := 0.25 * lam1 / exp1 * dexp1xi in
  let C1 := 2.0 * lam1 - 0.5 * libm.pow exp2 (-0.5) * dexp2lam1 in
  let D1 := 2.0 * lam2 in
  let F1 := -1.0 / 3.0 + 0.5 * libm.pow exp2 (-0.5) * dexp2xi in
  let dl1xi := (D1 * E1 - B1 * F1) / (A1 * D1 - B1 * C1) in
  let dl2xi := (A1 * F1 - C1 * E1) / (A1 * D1 - B1 * C1) in
  let A2 := A1 in
  let B2 := B1 in
  let E2 := 0.25 * lam1 / exp1 * dexp1gamma in
  let C2 := C1 in
  let D2 := D1 in
  let F2 := -1.0 / 3.0 + 0.5 * libm.pow exp2 (-0.5) * dexp2gamma in
  let dl1gamma := (D2 * E2 - B2 * F2) / (A2 * D2 - B2 * C2) in
  let dl2gamma := (A2 * F2 - C2 * E2) / (A2 * D2 - B2 * C2) in
  Some (lam1, lam2, dl1xi, dl1gamma, dl2xi, dl2gamma).

(** The returned load and the new values of [*D11sens], [*D22sens],
    [*bsens], [*xisens], [*rho_0sens], [*gammasens] and [*zetasens]. *)
Definition computeCriticalGlobalShearLoadSens (fuel : nat) (this : t)
    (N12sens D11 D22 b xi rho_0 gamma zeta : R)
    (D11sens D22sens bsens xisens rho_0sens gammasens zetasens : R)
  : option (R * (R * R * R * R * R * R * R)) :=
  match getShearGP this with
  | Some gp =>
      let dim_factor :=
        libm.M_PI * libm.M_PI * libm.pow (D11 * D22 * D22 * D22) 0.25
        / b / b in
      let Xtest :=
        log_inputs (libm.log xi) (libm.log rho_0) (libm.log (1.0 + gamma))
          (libm.log zeta) in
      let arg := GP.predictMeanTestData gp Xtest in
      let nondim_factor := exp arg in
      let output := dim_factor * nondim_factor in
      let Ysens := N12sens * output in
      let Xtestsens :=
        (GP.predictMeanTestDataSens gp Ysens Xtest
           (replicate (GP.n_param gp) 0)).2 in
      Some (output,
            (D11sens + Ysens * 0.25 / D11,
             D22sens + Ysens * 0.75 / D22,
             bsens + Ysens * -2.0 / b,
             xisens + Xtestsens !!! 0%nat / xi,
             rho_0sens + Xtestsens !!! 1%nat / rho_0,
             gammasens + Xtestsens !!! 2%nat / (1.0 + gamma),
             zetasens + Xtestsens !!! 3%nat / zeta))
  | None =>
      '(lam1, lam2, dl1xi, dl1gamma, dl2xi, dl2gamma) ←
        nondimShearParamsSens fuel xi gamma;
      let dim_factor :=
        libm.M_PI * libm.M_PI * libm.pow (D11 * D22 * D22 * D22) 0.25
        / b / b in
      let num :=
        1.0 + libm.pow lam1 4.0 + 6.0 * libm.pow (lam1 * lam2) 2.0
        + libm.pow lam2 4.0 + 2.0 * xi in
      let den := 2.0 * lam1 * lam1 * lam2 in
      let nondim_factor := num / den in
      let N12crit := dim_factor * nondim_factor in
      let dNDlam1 :=
        (4.0 * libm.pow lam1 3.0 + 12.0 * lam1 * lam2 * lam2) / den
        - num * 4.0 * lam1 * lam2 / den / den in
      let dNDlam2 :=
        (4.0 * libm.pow lam2 3.0 + 12.0 * lam2 * lam1 * lam1) / den
        - num * 2.0 * lam1 * lam1 / den / den in
      Some (N12crit,
            (D11sens + N12sens * N12crit * 0.25 / D11,
             D22sens + N12sens * N12crit * 0.75 / D22,
             bsens + N12sens * N12crit * -2.0 / b,
             xisens
             + N12sens * dim_factor
               * (dNDlam1 * dl1xi + dNDlam2 * dl2xi + 2.0 / den),
             rho_0sens,
             gammasens
             + N12sens * dim_factor
               * (dNDlam1 * dl1gamma + dNDlam2 * dl2gamma),
             zetasens))
  end.

Definition computeCriticalLocalShearLoad (fuel : nat) (this : t)
    (D11 D22 xi rho_0 zeta : R) : option R :=
  match getShearGP this with
  | Some gp =>
      let s_p := Base.stiffenerPitch (base this) in
      let dim_factor :=
        libm.M_PI * libm.M_PI * libm.pow (D11 * D22 * D22 * D22) 0.25
        / s_p / s_p in
      let Xtest :=
        log_inputs (libm.log xi) (libm.log rho_0) 0.0 (libm.log zeta) in
      Some (dim_factor * exp (GP.predictMeanTestData gp Xtest))
  | None =>
      '(lam1, lam2) ← real_shear_params fuel xi 0.0;
      let dim_factor :=
        libm.M_PI * libm.M_PI * libm.pow (D11 * D22 * D22 * D22) 0.25
        / Base.stiffenerPitch (base this)
        / Base.stiffenerPitch (base this) in
      let nondim_factor :=
        (1.0 + libm.pow lam1 4.0 + 6.0 * libm.pow (lam1 * lam2) 2.0
         + libm.pow lam2 4.0 + 2.0 * xi)
        / (2.0 * lam1 * lam1 * lam2) in
      Some (dim_factor * nondim_factor)
  end.

(** The returned load and the new values of [*D11sens], [*D22sens],
    [*spitchsens], [*xisens], [*rho_0sens] and [*zetasens]. *)
Definition computeCriticalLocalShearLoadSens (fuel : nat) (this : t)
    (N12sens D11 D22 xi rho_0 zeta : R)
    (D11sens D22sens spitchsens xisens rho_0sens zetasens : R)
  : option (R * (R * R * R * R * R * R)) :=
  match getShearGP this with
  | Some gp =>
      let s_p := Base.stiffenerPitch (base this) in
      let dim_factor :=
        libm.M_PI * libm.M_PI * libm.pow (D11 * D22 * D22 * D22) 0.25
        / s_p / s_p in
      let Xtest :=
        log_inputs (libm.log xi) (libm.log rho_0) 0.0 (libm.log zeta) in
      let arg := GP.predictMeanTestData gp Xtest in
      let nondim_factor := exp arg in
      let output := dim_factor * nondim_factor in
      let Ysens := N12sens * output in
      let Xtestsens :=
        (GP.predictMeanTestDataSens gp Ysens Xtest
           (replicate (GP.n_param gp) 0)).2 in
      Some (output,
            (D11sens + Ysens * 0.25 / D11,
             D22sens + Ysens * 0.75 / D22,
             spitchsens + Ysens * -2.0 / s_p,
             xisens + Xtestsens !!! 0%nat / xi,
             rho_0sens + Xtestsens !!! 1%nat / rho_0,
             zetasens + Xtestsens !!! 3%nat / zeta))
  | None =>
      '(lam1, lam2, dl1xi, _dl1gamma, dl2xi, _dl2gamma) ←
        nondimShearParamsSens fuel xi 0.0;
      let dim_factor :=
        libm.M_PI * libm.M_PI * libm.pow (D11 * D22 * D22 * D22) 0.25
        / Base.stiffenerPitch (base this)
        / Base.stiffenerPitch (base this) in
      let num :=
        1.0 + libm.pow lam1 4.0 + 6.0 * libm.pow (lam1 * lam2) 2.0
        + libm.pow lam2 4.0 + 2.0 * xi in
      let den := 2.0 * lam1 * lam1 * lam2 in
      let nondim_factor := num / den in
      let N12crit := dim_factor * nondim_factor in
      let dNDlam1 :=
        (4.0 * libm.pow lam1 3.0 + 12.0 * lam1 * lam2 * lam2) / den
        - num * 4.0 * lam1 * lam2 / den / den in
      let dNDlam2 :=
        (4.0 * libm.pow lam2 3.0 + 12.0 * lam2 * lam1 * lam1) / den
        - num * 2.0 * lam1 * lam1 / den / den in
      Some (N12crit,
            (D11sens + N12sens * N12crit * 0.25 / D11,
             D22sens + N12sens * N12crit * 0.75 / D22,
             spitchsens
             + N12sens * N12crit * -2.0 / Base.stiffenerPitch (base this),
             xisens
             + N12sens * dim_factor
               * (dNDlam1 * dl1xi + dNDlam2 * dl2xi + 2.0 / den),
             rho_0sens,
             zetasens))
  end.

Definition computeStiffenerCripplingLoad (this : t)
    (D11 D22 xi rho_0 genPoiss zeta : R) : R :=
  match getCripplingGP this with
  | Some gp =>
      let dim_factor :=
        libm.M_PI * libm.M_PI * sqrt (D11 * D22)
        / Base.stiffenerHeight (base this)
        / Base.stiffenerHeight (base this) in
      let Xtest :=
        log_inputs (libm.log xi) (libm.log rho_0) (libm.log genPoiss)
          (libm.log zeta) in
      dim_factor * exp (GP.predictMeanTestData gp Xtest)
  | None =>
      let dim_factor :=
        libm.M_PI * libm.M_PI * sqrt (D11 * D22)
        / Base.stiffenerHeight (base this)
        / Base.stiffenerHeight (base this) in
      let nondim_factor := (0.476 - 0.56 * (genPoiss - 0.2)) * xi in
      dim_factor * nondim_factor
  end.

(** The returned load and the new values of [*D11sens], [*D22sens],
    [*sheightsens], [*xisens], [*rho_0sens], [*genPoiss_sens] and
    [*zetasens]. *)
Definition computeStiffenerCripplingLoadSens (this : t)
    (N1sens D11 D22 xi rho_0 genPoiss zeta : R)
    (D11sens D22sens sheightsens xisens rho_0sens genPoiss_sens
       zetasens : R)
  : R * (R * R * R * R * R * R * R) :=
  match getCripplingGP this with
  | Some gp =>
      let dim_factor :=
        libm.M_PI * libm.M_PI * sqrt (D11 * D22)
        / Base.stiffenerHeight (base this)
        / Base.stiffenerHeight (base this) in
      let Xtest :=
        log_inputs (libm.log xi) (libm.log rho_0) (libm.log genPoiss)
          (libm.log zeta) in
      let arg := GP.predictMeanTestData gp Xtest in
      let nondim_factor := exp arg in
      let output := dim_factor * nondim_factor in
      let Ysens := N1sens * output in
      let Xtestsens :=
        (GP.predictMeanTestDataSens gp Ysens Xtest
           (replicate (GP.n_param gp) 0)).2 in
      (output,
       (D11sens + Ysens * 0.5 / D11,
        D22sens + Ysens * 0.5 / D22,
        sheightsens + Ysens * -2.0 / Base.stiffenerHeight (base this),
        xisens + Xtestsens !!! 0%nat / xi,
        rho_0sens + Xtestsens !!! 1%nat / rho_0,
        genPoiss_sens + Xtestsens !!! 2%nat / genPoiss,
        zetasens + Xtestsens !!! 3%nat / zeta))
  | None =>
      let dim_factor :=
        libm.M_PI * libm.M_PI * sqrt (D11 * D22)
        / Base.stiffenerHeight (base this)
        / Base.stiffenerHeight (base this) in
      let nondim_factor := (0.476 - 0.56 * (genPoiss - 0.2)) * xi in
      let N11crit := dim_factor * nondim_factor in
      let outputsens := N1sens * N11crit in
      (N11crit,
       (D11sens + outputsens * 0.5 / D11,
        D22sens + outputsens * 0.5 / D22,
        sheightsens
        + outputsens * -2.0 / Base.stiffenerHeight (base this),
        xisens + outputsens / xi,
        rho_0sens,
        genPoiss_sens + outputsens / nondim_factor * -0.56 * xi,
        zetasens))
  end.

(** *** The failure evaluator *)

(** The five entries written to [fails] and the returned aggregate.
    [fuel] bounds the Newton loops of the closed-form shear loads;
    the result is [None] when one of them delivers no real number. *)
Definition computeFailureValues (fuel : nat) (this : t) (e : list R)
  : option (list R * R) :=
  let fails0 := Base.computePanelFailure (base this) e in
  let stiffenerStrain := Base.transformStrain (base this) e in
  let fails1 :=
    Base.computeStiffenerFailure (base this) stiffenerStrain in
  let panelStiffness := Base.computePanelStiffness (base this) in
  let '(Ap, Dp) := Base.extractTangentStiffness panelStiffness in
  let panelStress := Base.computePanelStress (base this) e in
  let D11p := Dp !!! 0%nat in
  let D12p := Dp !!! 1%nat in
  let D22p := Dp !!! 3%nat in
  let D66p := Dp !!! 5%nat in
  let A11p := Ap !!! 0%nat in
  let A66p := Ap !!! 5%nat in
  let a := Base.panelLength (base this) in
  let b := panelWidth this in
  let delta := computeStiffenerAreaRatio this in
  let rho0Panel := computeAffineAspectRatio D11p D22p a b in
  let xiPanel := computeGeneralizedRigidity D11p D22p D12p D66p in
  let gamma := computeStiffenerStiffnessRatio this D11p in
  let zetaPanel :=
    computeTransverseShearParameter A66p A11p b
      (Base.panelThick (base this)) in
  let N1CritGlobal :=
    computeCriticalGlobalAxialLoad this D11p D22p b delta rho0Panel
      xiPanel gamma zetaPanel in
  N12CritGlobal ←
    computeCriticalGlobalShearLoad fuel this D11p D22p b xiPanel
      rho0Panel gamma zetaPanel;
  let fails2 :=
    Base.bucklingEnvelope (base this) (- panelStress !!! 0%nat)
      N1CritGlobal (panelStress !!! 2%nat) N12CritGlobal in
  let N1CritLocal :=
    computeCriticalLocalAxialLoad this D11p D22p rho0Panel xiPanel
      zetaPanel in
  N12CritLocal ←
    computeCriticalLocalShearLoad fuel this D11p D22p xiPanel rho0Panel
      zetaPanel;
  let fails3 :=
    Base.bucklingEnvelope (base this) (- panelStress !!! 0%nat)
      N1CritLocal (panelStress !!! 2%nat) N12CritLocal in
  let stiffenerStiffness := Base.computeStiffenerStiffness (base this) in
  let '(As, Ds) := Base.extractTangentStiffness stiffenerStiffness in
  let stiffenerStress :=
    Base.computeStiffenerStress (base this) stiffenerStrain in
  let D11s := Ds !!! 0%nat in
  let D12s := Ds !!! 1%nat in
  let D22s := Ds !!! 3%nat in
  let D66s := Ds !!! 5%nat in
  let A11s := As !!! 0%nat in
  let A66s := As !!! 5%nat in
  let bStiff := Base.stiffenerHeight (base this) in
  let hStiff := Base.stiffenerThick (base this) in
  let rho0Stiff := computeAffineAspectRatio D11s D22s a bStiff in
  let xiStiff := computeGeneralizedRigidity D11s D22s D12s D66s in
  let genPoiss := computeGeneralizedPoissonsRatio D12s D66s in
  let zetaStiff :=
    computeTransverseShearParameter A66s A11s bStiff hStiff in
  let N1CritCrippling :=
    computeStiffenerCripplingLoad this D11s D22s xiStiff rho0Stiff
      genPoiss zetaStiff in
  let N1 := - stiffenerStress !!! 0%nat in
  let fails4 := N1 / N1CritCrippling in
  let fails := [fails0; fails1; fails2; fails3; fails4] in
  Some (fails,
        KS.ksAggregation fails NUM_FAILURES (Base.ksWeight (base this))).

(** The returned aggregate and the contents of [sens] after the call.
    [elemIndex], [pt] and [X] are not used by the body. *)
Definition evalFailureStrainSens (fuel : nat) (this : t) (e : list R)
    (sens : list R) : option (R * list R) :=
  let sens := memset0 NUM_STRESSES sens in
  let '(fails0, panelFailSens) :=
    Base.evalPanelFailureStrainSens (base this) e in
  let stiffenerStrain := Base.transformStrain (base this) e in
  let '(fails1, stiffenerStrainSens) :=
    Base.evalStiffenerFailureStrainSens (base this) stiffenerStrain in
  let stiffenerFailSens :=
    Base.transformStrainSens (base this) stiffenerStrainSens in
  let panelStiffness := Base.computePanelStiffness (base this) in
  let '(Ap, Dp) := Base.extractTangentStiffness panelStiffness in
  let panelStress := Base.computePanelStress (base this) e in
  let D11p := Dp !!! 0%nat in
  let D12p := Dp !!! 1%nat in
  let D22p := Dp !!! 3%nat in
  let D66p := Dp !!! 5%nat in
  let A11p := Ap !!! 0%nat in
  let A66p := Ap !!! 5%nat in
  let a := Base.panelLength (base this) in
  let b := panelWidth this in
  let delta := computeStiffenerAreaRatio this in
  let rho0Panel := computeAffineAspectRatio D11p D22p a b in
  let xiPanel := computeGeneralizedRigidity D11p D22p D12p D66p in
  let gamma := computeStiffenerStiffnessRatio this D11p in
  let zetaPanel :=
    computeTransverseShearParameter A66p A11p b
      (Base.panelThick (base this)) in
  let N1CritGlobal :=
    computeCriticalGlobalAxialLoad this D11p D22p b delta rho0Panel
      xiPanel gamma zetaPanel in
  N12CritGlobal ←
    computeCriticalGlobalShearLoad fuel this D11p D22p b xiPanel
      rho0Panel gamma zetaPanel;
  let '(fails2,
        (N1GlobalSens, N1CritGlobalSens, N12GlobalSens,
         N12CritGlobalSens)) :=
    Base.bucklingEnvelopeSens (base this) (- panelStress !!! 0%nat)
      N1CritGlobal (panelStress !!! 2%nat) N12CritGlobal in
  let N1CritLocal :=
    computeCriticalLocalAxialLoad this D11p D22p rho0Panel xiPanel
      zetaPanel in
  N12CritLocal ←
    computeCriticalLocalShearLoad fuel this D11p D22p xiPanel rho0Panel
      zetaPanel;
  let '(fails3,
        (N1LocalSens, N1CritLocalSens, N12LocalSens, N12CritLocalSens)) :=
    Base.bucklingEnvelopeSens (base this) (- panelStress !!! 0%nat)
      N1CritLocal (panelStress !!! 2%nat) N12CritLocal in
  let stiffenerStiffness := Base.computeStiffenerStiffness (base this) in
  let '(As, Ds) := Base.extractTangentStiffness stiffenerStiffness in
  let stiffenerStress :=
    Base.computeStiffenerStress (base this) stiffenerStrain in
  let D11s := Ds !!! 0%nat in
  let D12s := Ds !!! 1%nat in
  let D22s := Ds !!! 3%nat in
  let D66s := Ds !!! 5%nat in
  let A11s := As !!! 0%nat in
  let A66s := As !!! 5%nat in
  let bStiff := Base.stiffenerHeight (base this) in
  let hStiff := Base.stiffenerThick (base this) in
  let rho0Stiff := computeAffineAspectRatio D11s D22s a bStiff in
  let xiStiff := computeGeneralizedRigidity D11s D22s D12s D66s in
  let genPoiss := computeGeneralizedPoissonsRatio D12s D66s in
  let zetaStiff :=
    computeTransverseShearParameter A66s A11s bStiff hStiff in
  let N1CritCrippling :=
    computeStiffenerCripplingLoad this D11s D22s xiStiff rho0Stiff
      genPoiss zetaStiff in
  let N1 := - stiffenerStress !!! 0%nat in
  let fails4 := N1 / N1CritCrippling in
  let fails := [fails0; fails1; fails2; fails3; fails4] in
  let '(fail, dKSdf) :=
    KS.ksAggregationSens fails NUM_FAILURES (Base.ksWeight (base this)) in
  let sens := memset0 NUM_STRESSES sens in
  let sens :=
    foldl
      (fun sens ii =>
         <[ii := dKSdf !!! 0%nat * panelFailSens !!! ii
                 + dKSdf !!! 1%nat * stiffenerFailSens !!! ii]> sens)
      sens (seq 0 NUM_STRESSES) in
  let N1LocalSens := N1LocalSens * dKSdf !!! 2%nat in
  let N12LocalSens := N12LocalSens * dKSdf !!! 2%nat in
  let sens :=
    add_to 0 (N1LocalSens * - Ap !!! 0%nat + N12LocalSens * Ap !!! 2%nat)
      sens in
  let sens :=
    add_to 1 (N1LocalSens * - Ap !!! 1%nat + N12LocalSens * Ap !!! 4%nat)
      sens in
  let sens :=
    add_to 2 (N1LocalSens * - Ap !!! 2%nat + N12LocalSens * Ap !!! 5%nat)
      sens in
  let N1GlobalSens := N1GlobalSens * dKSdf !!! 3%nat in
  let N12GlobalSens := N12GlobalSens * dKSdf !!! 3%nat in
  let sens :=
    add_to 0
      (N1GlobalSens * - Ap !!! 0%nat + N12GlobalSens * Ap !!! 2%nat)
      sens in
  let sens :=
    add_to 1
      (N1GlobalSens * - Ap !!! 1%nat + N12GlobalSens * Ap !!! 4%nat)
      sens in
  let sens :=
    add_to 2
      (N1GlobalSens * - Ap !!! 2%nat + N12GlobalSens * Ap !!! 5%nat)
      sens in
  let N1stiffSens := dKSdf !!! 4%nat / N1CritCrippling in
  let sens := add_to 0 (N1stiffSens * - As !!! 0%nat) sens in
  let sens := add_to 1 (N1stiffSens * - As !!! 1%nat) sens in
  let sens := add_to 2 (N1stiffSens * - As !!! 2%nat) sens in
  Some (fail, sens).

(** The length of one ply's block in [panelQMats] and
    [stiffenerQMats], a constant of the base-class header. *)
Variable NUM_Q_ENTRIES : nat.

(** The back-propagation of the crippling ratio to the stiffener
    in-plane load in [addFailureDVSens]:
    [dfdStiffStress] is zeroed, [dfdStiffStress[0] = -stiffN1sens], and
    [addStiffenerStressDVSens] is handed [&dfdx[this->panelDVStartNum]]. *)
Definition addFailureDVSens_stiffenerStress (this : t) (scale : R)
    (strain : list R) (stiffN1sens : R) (dfdx : list R) : list R :=
  let dfdStiffStress := replicate NUM_STRESSES 0 in
  let dfdStiffStress := <[0%nat := - stiffN1sens]> dfdStiffStress in
  at_offset (Base.panelDVStartNum (base this))
    (Base.addStiffenerStressDVSens (base this) scale strain dfdStiffStress)
    dfdx.

(** The contents of [dfdx] after the call.  The cells of the local
    arrays [DVsens], [Dpsens], [Apsens], [NDsens], [stiffNDsens],
    [Dssens] and [Assens] are the variables [DVsens0] and so on; each
    starts at zero ([memset]).  [elemIndex], [pt], [X] and [dvLen] are
    not used by the body. *)
Definition addFailureDVSens (fuel : nat) (this : t) (scale : R)
    (strain : list R) (dfdx : list R) : option (list R) :=
  '(fails, fail) ← computeFailureValues fuel this strain;
  let '(_, dKSdf) :=
    KS.ksAggregationSens fails NUM_FAILURES (Base.ksWeight (base this)) in
  let dfdx :=
    at_offset (Base.panelDVStartNum (base this))
      (Base.addPanelFailureDVSens (base this) strain
         (scale * dKSdf !!! 0%nat))
      dfdx in
  let stiffenerStrain := Base.transformStrain (base this) strain in
  let dfdx :=
    at_offset (Base.stiffenerDVStartNum (base this))
      (Base.addStiffenerFailureDVSens (base this) stiffenerStrain
         (scale * dKSdf !!! 1%nat))
      dfdx in
  let '(_, stiffenerFailStrainSens) :=
    Base.evalStiffenerFailureStrainSens (base this) stiffenerStrain in
  let dfdx :=
    Base.addStrainTransformProductDVsens (base this)
      stiffenerFailStrainSens strain (scale * dKSdf !!! 1%nat) dfdx in
  let panelStiffness := Base.computePanelStiffness (base this) in
  let '(Ap, Dp) := Base.extractTangentStiffness panelStiffness in
  let panelStress := Base.computePanelStress (base this) strain in
  let D11p := Dp !!! 0%nat in
  let D12p := Dp !!! 1%nat in
  let D22p := Dp !!! 3%nat in
  let D66p := Dp !!! 5%nat in
  let A11p := Ap !!! 0%nat in
  let A66p := Ap !!! 5%nat in
  let a := Base.panelLength (base this) in
  let b := panelWidth this in
  let delta := computeStiffenerAreaRatio this in
  let rho0Panel := computeAffineAspectRatio D11p D22p a b in
  let xiPanel := computeGeneralizedRigidity D11p D22p D12p D66p in
  let gamma := computeStiffenerStiffnessRatio this D11p in
  let zetaPanel :=
    computeTransverseShearParameter A66p A11p b
      (Base.panelThick (base this)) in
  let '(DVsens0, DVsens1, DVsens2, DVsens3, DVsens4, DVsens5) :=
    (0, 0, 0, 0, 0, 0) in
  let '(Dpsens0, Dpsens1, Dpsens2, Dpsens3) := (0, 0, 0, 0) in
  let '(Apsens0, Apsens1, Apsens2, Apsens3) := (0, 0, 0, 0) in
  let '(NDsens0, NDsens1, NDsens2, NDsens3, NDsens4) := (0, 0, 0, 0, 0) in
  let N1CritGlobal :=
    computeCriticalGlobalAxialLoad this D11p D22p b delta rho0Panel
      xiPanel gamma zetaPanel in
  N12CritGlobal ←
    computeCriticalGlobalShearLoad fuel this D11p D22p b xiPanel
      rho0Panel gamma zetaPanel;
  let '(fails2,
        (N1GlobalSens, N1CritGlobalSens, N12GlobalSens,
         N12CritGlobalSens)) :=
    Base.bucklingEnvelopeSens (base this) (- panelStress !!! 0%nat)
      N1CritGlobal (panelStress !!! 2%nat) N12CritGlobal in
  let N1GlobalSens := N1GlobalSens * dKSdf !!! 2%nat in
  let N1CritGlobalSens := N1CritGlobalSens * dKSdf !!! 2%nat in
  let N12GlobalSens := N12GlobalSens * dKSdf !!! 2%nat in
  let N12CritGlobalSens := N12CritGlobalSens * dKSdf !!! 2%nat in
  let dfdPanelStress := replicate NUM_STRESSES 0 in
  let dfdPanelStress := <[0%nat := - N1GlobalSens]> dfdPanelStress in
  let dfdPanelStress := <[2%nat := N12GlobalSens]> dfdPanelStress in
  let dfdx :=
    at_offset (Base.panelDVStartNum (base this))
      (Base.addPanelStressDVSens (base this) scale strain dfdPanelStress)
      dfdx in
  let '(_,
        (Dpsens0, Dpsens2, DVsens5, NDsens2, NDsens1, NDsens0, NDsens3,
         NDsens4)) :=
    computeCriticalGlobalAxialLoadSens this N1CritGlobalSens D11p D22p b
      delta rho0Panel xiPanel gamma zetaPanel
      Dpsens0 Dpsens2 DVsens5 NDsens2 NDsens1 NDsens0 NDsens3 NDsens4 in
  '(_, (Dpsens0, Dpsens2, DVsens5, NDsens0, NDsens1, NDsens3, NDsens4)) ←
    computeCriticalGlobalShearLoadSens fuel this N12CritGlobalSens D11p
      D22p b xiPanel rho0Panel gamma zetaPanel
      Dpsens0 Dpsens2 DVsens5 NDsens0 NDsens1 NDsens3 NDsens4;
  let N1CritLocal :=
    computeCriticalLocalAxialLoad this D11p D22p rho0Panel xiPanel
      zetaPanel in
  N12CritLocal ←
    computeCriticalLocalShearLoad fuel this D11p D22p xiPanel rho0Panel
      zetaPanel;
  let '(fails3,
        (N1LocalSens, N1CritLocalSens, N12LocalSens, N12CritLocalSens)) :=
    Base.bucklingEnvelopeSens (base this) (- panelStress !!! 0%nat)
      N1CritLocal (panelStress !!! 2%nat) N12CritLocal in
  let N1LocalSens := N1LocalSens * dKSdf !!! 3%nat in
  let N1CritLocalSens := N1CritLocalSens * dKSdf !!! 3%nat in
  let N12LocalSens := N12LocalSens * dKSdf !!! 3%nat in
  let N12CritLocalSens := N12CritLocalSens * dKSdf !!! 3%nat in
  let dfdPanelStress := replicate NUM_STRESSES 0 in
  let dfdPanelStress := <[0%nat := - N1LocalSens]> dfdPanelStress in
  let dfdPanelStress := <[2%nat := N12LocalSens]> dfdPanelStress in
  let dfdx :=
    at_offset (Base.panelDVStartNum (base this))
      (Base.addPanelStressDVSens (base this) scale strain dfdPanelStress)
      dfdx in
  let '(_, (Dpsens0, Dpsens2, NDsens1, NDsens0, DVsens1, NDsens4)) :=
    computeCriticalLocalAxialLoadSens this N1CritLocalSens D11p D22p
      rho0Panel xiPanel zetaPanel
      Dpsens0 Dpsens2 NDsens1 NDsens0 DVsens1 NDsens4 in
  '(_, (Dpsens0, Dpsens2, DVsens1, NDsens0, NDsens1, NDsens4)) ←
    computeCriticalLocalShearLoadSens fuel this N12CritLocalSens D11p D22p
      xiPanel rho0Panel zetaPanel
      Dpsens0 Dpsens2 DVsens1 NDsens0 NDsens1 NDsens4;
  let '(_, (Dpsens0, Dpsens2, Dpsens1, Dpsens3)) :=
    computeGeneralizedRigiditySens NDsens0 D11p D22p D12p D66p
      Dpsens0 Dpsens2 Dpsens1 Dpsens3 in
  let '(_, (Dpsens0, Dpsens2, DVsens0, DVsens5)) :=
    computeAffineAspectRatioSens NDsens1 D11p D22p a b
      Dpsens0 Dpsens2 DVsens0 DVsens5 in
  let '(_, (DVsens4, DVsens3, DVsens1, DVsens2)) :=
    computeStiffenerAreaRatioSens this NDsens2
      DVsens4 DVsens3 DVsens1 DVsens2 in
  let '(_, (Dpsens0, DVsens4, DVsens3, DVsens1)) :=
    computeStiffenerStiffnessRatioSens this NDsens3 D11p
      Dpsens0 DVsens4 DVsens3 DVsens1 in
  let '(_, (Apsens3, Apsens0, DVsens5, DVsens2)) :=
    computeTransverseShearParameterSens NDsens4 A66p A11p b
      (Base.panelThick (base this)) Apsens3 Apsens0 DVsens5 DVsens2 in
  let dfdx :=
    if decide (0 <= Base.panelThickNum (base this))%Z then
      let dvNum := Z.to_nat (Base.panelThickLocalNum (base this)) in
      let t := Base.panelThick (base this) in
      let dMatdt := 0.25 * t * t in
      let dfdx :=
        foldl
          (fun dfdx ii =>
             let Q := drop (ii * NUM_Q_ENTRIES)
                        (Base.panelQMats (base this)) in
             add_to dvNum
               (scale * dMatdt * Base.panelPlyFracs (base this) !!! ii
                * (Dpsens0 * Q !!! 0%nat + Dpsens2 * Q !!! 3%nat
                   + Dpsens1 * Q !!! 1%nat + Dpsens3 * Q !!! 5%nat))
               dfdx)
          dfdx (seq 0 (Base.numPanelPlies (base this))) in
      foldl
        (fun dfdx ii =>
           let Q := drop (ii * NUM_Q_ENTRIES)
                      (Base.panelQMats (base this)) in
           add_to dvNum
             (scale * Base.panelPlyFracs (base this) !!! ii
              * (Apsens0 * Q !!! 0%nat + Apsens2 * Q !!! 3%nat
                 + Apsens1 * Q !!! 1%nat + Apsens3 * Q !!! 5%nat))
             dfdx)
        dfdx (seq 0 (Base.numPanelPlies (base this)))
    else dfdx in
  let '(stiffNDsens0, stiffNDsens1, stiffNDsens2, stiffNDsens3) :=
    (0, 0, 0, 0) in
  let '(Dssens0, Dssens1, Dssens2, Dssens3) := (0, 0, 0, 0) in
  let '(Assens0, Assens1, Assens2, Assens3) := (0, 0, 0, 0) in
  let stiffenerStiffness := Base.computeStiffenerStiffness (base this) in
  let '(As, Ds) := Base.extractTangentStiffness stiffenerStiffness in
  let stiffenerStress :=
    Base.computeStiffenerStress (base this) stiffenerStrain in
  let D11s := Ds !!! 0%nat in
  let D12s := Ds !!! 1%nat in
  let D22s := Ds !!! 3%nat in
  let D66s := Ds !!! 5%nat in
  let A11s := As !!! 0%nat in
  let A66s := As !!! 5%nat in
  let bStiff := Base.stiffenerHeight (base this) in
  let hStiff := Base.stiffenerThick (base this) in
  let rho0Stiff := computeAffineAspectRatio D11s D22s a bStiff in
  let xiStiff := computeGeneralizedRigidity D11s D22s D12s D66s in
  let genPoiss := computeGeneralizedPoissonsRatio D12s D66s in
  let zetaStiff :=
    computeTransverseShearParameter A66s A11s bStiff hStiff in
  let N1CritCrippling :=
    computeStiffenerCripplingLoad this D11s D22s xiStiff rho0Stiff
      genPoiss zetaStiff in
  let N1 := - stiffenerStress !!! 0%nat in
  let fails4 := N1 / N1CritCrippling in
  let stiffN1sens := dKSdf !!! 4%nat * fails4 / N1 in
  let stiffN1critsens :=
    dKSdf !!! 4%nat * fails4 * -1.0 / N1CritCrippling in
  let dfdx :=
    addFailureDVSens_stiffenerStress this scale strain stiffN1sens dfdx in
  let '(_,
        (Dssens0, Dssens2, DVsens3, stiffNDsens0, stiffNDsens1,
         stiffNDsens2, stiffNDsens3)) :=
    computeStiffenerCripplingLoadSens this stiffN1critsens D11s D22s
      xiStiff rho0Stiff genPoiss zetaStiff
      Dssens0 Dssens2 DVsens3 stiffNDsens0 stiffNDsens1 stiffNDsens2
      stiffNDsens3 in
  let '(_, (Dssens0, Dssens2, Dssens1, Dssens3)) :=
    computeGeneralizedRigiditySens stiffNDsens0 D11s D22s D12s D66s
      Dssens0 Dssens2 Dssens1 Dssens3 in
  let '(_, (Dssens0, Dssens2, DVsens0, DVsens3)) :=
    computeAffineAspectRatioSens stiffNDsens1 D11s D22s a bStiff
      Dssens0 Dssens2 DVsens0 DVsens3 in
  let '(_, (Dssens1, Dssens3)) :=
    computeGeneralizedPoissonsRatioSens stiffNDsens2 D12s D66s
      Dssens1 Dssens3 in
  let '(_, (Assens3, Assens0, DVsens3, DVsens4)) :=
    computeTransverseShearParameterSens stiffNDsens3 A66s A11s bStiff
      hStiff Assens3 Assens0 DVsens3 DVsens4 in
  let dfdx :=
    if decide (0 <= Base.stiffenerThickLocalNum (base this))%Z then
      let dvNum := Z.to_nat (Base.stiffenerThickLocalNum (base this)) in
      let t := Base.stiffenerThick (base this) in
      let dMatdt := 0.25 * t * t in
      let dfdx :=
        foldl
          (fun dfdx ii =>
             let Q := drop (ii * NUM_Q_ENTRIES)
                        (Base.stiffenerQMats (base this)) in
             add_to dvNum
               (scale * dMatdt * Base.stiffenerPlyFracs (base this) !!! ii
                * (Dssens0 * Q !!! 0%nat + Dssens2 * Q !!! 3%nat
                   + Dssens1 * Q !!! 1%nat + Dssens3 * Q !!! 5%nat))
               dfdx)
          dfdx (seq 0 (Base.numStiffenerPlies (base this))) in
      foldl
        (fun dfdx ii =>
           let Q := drop (ii * NUM_Q_ENTRIES)
                      (Base.stiffenerQMats (base this)) in
           add_to dvNum
             (scale * Base.stiffenerPlyFracs (base this) !!! ii
              * (Assens0 * Q !!! 0%nat + Assens2 * Q !!! 3%nat
                 + Assens1 * Q !!! 1%nat + Assens3 * Q !!! 5%nat))
             dfdx)
        dfdx (seq 0 (Base.numStiffenerPlies (base this)))
    else dfdx in
  Some dfdx.

(** *** Design variables *)

(** The object after the call and the returned count. *)
Definition setDesignVars (this : t) (elemIndex dvLen : Z) (dvs : list R)
  : t * Z :=
  let this :=
    with_base this (Base.setDesignVars (base this) elemIndex dvLen dvs) in
  let this :=
    if decide (Base.numDesignVars (base this) <= dvLen)%Z then
      if decide (0 <= panelWidthNum this)%Z then
        with_panelWidth this (dvs !!! Z.to_nat (panelWidthLocalNum this))
      else this
    else this in
  (this, Base.numDesignVars (base this)).

(** The contents of [dvs] after the call and the returned count. *)
Definition getDesignVars (this : t) (elemIndex dvLen : Z) (dvs : list R)
  : list R * Z :=
  let dvs := Base.getDesignVars (base this) elemIndex dvLen dvs in
  let dvs :=
    if decide (Base.numDesignVars (base this) <= dvLen)%Z then
      if decide (0 <= panelWidthNum this)%Z then
        <[Z.to_nat (panelWidthLocalNum this) := panelWidth this]> dvs
      else dvs
    else dvs in
  (dvs, Base.numDesignVars (base this)).

End Methods.

(** *** Design-variable queries *)

Section DesignQueries.

(** The base-class versions of the queries and the two thickness
    measures of the base class; their code is not part of the sources at
    hand.  A query is handed the arrays and returns them as it leaves
    them. *)
Variable base_getDesignVarNums : Base.t -> Z -> Z -> list Z -> list Z.
Variable base_getDesignVarRange :
  Base.t -> Z -> Z -> list R -> list R -> list R * list R.
Variables computeEffectiveThickness computeEffectiveBendingThickness :
  Base.t -> R.

(** [elemIndex], [pt] and [X] are not used by the body. *)
Definition evalDesignFieldValue (this : t) (index : Z) : R :=
  match index with
  | 0%Z => computeEffectiveThickness (base this)
  | 1%Z => computeEffectiveBendingThickness (base this)
  | 2%Z => Base.panelLength (base this)
  | 3%Z => Base.stiffenerPitch (base this)
  | 4%Z => Base.panelThick (base this)
  | 5%Z => Base.stiffenerHeight (base this)
  | 6%Z => Base.stiffenerThick (base this)
  | 7%Z => panelWidth this
  | _ => 0.0
  end.

(** The contents of [dvNums] after the call and the returned count; a
    null [dvNums] is [None]. *)
Definition getDesignVarNums (this : t) (elemIndex dvLen : Z)
    (dvNums : option (list Z)) : option (list Z) * Z :=
  let dvNums :=
    base_getDesignVarNums (base this) elemIndex dvLen <$> dvNums in
  let dvNums :=
    match dvNums with
    | Some nums =>
        if decide (Base.numDesignVars (base this) <= dvLen)%Z then
          if decide (0 <= panelWidthNum this)%Z then
            Some (<[Z.to_nat (panelWidthLocalNum this)
                    := panelWidthNum this]> nums)
          else Some nums
        else Some nums
    | None => None
    end in
  (dvNums, Base.numDesignVars (base this)).

(** The contents of [lb] and [ub] after the call and the returned
    count. *)
Definition getDesignVarRange (this : t) (elemIndex dvLen : Z)
    (lb ub : list R) : list R * list R * Z :=
  let '(lb, ub) :=
    base_getDesignVarRange (base this) elemIndex dvLen lb ub in
  let '(lb, ub) :=
    if decide (Base.numDesignVars (base this) <= dvLen)%Z then
      if decide (0 <= panelWidthNum this)%Z then
        (<[Z.to_nat (panelWidthLocalNum this)
           := panelWidthLowerBound this]> lb,
         <[Z.to_nat (panelWidthLocalNum this)
           := panelWidthUpperBound this]> ub)
      else (lb, ub)
    else (lb, ub) in
  (lb, ub, Base.numDesignVars (base this)).

End DesignQueries.

(** *** Derivative tests *)

(** The closing loop of [testAllGPTests], [testNondimensionalParameters],
    [testAxialCriticalLoads], [testShearCriticalLoads] and
    [testAllTests]:
    [maxRelError = 0.0; for (i ...) if (relErrors[i] > maxRelError)
    maxRelError = relErrors[i];]. *)
Definition maxRelError (relErrors : list R) : R :=
  foldl (fun maxRelError relError =>
           if decide (relError > maxRelError) then relError
           else maxRelError)
    0.0 relErrors.

(** [testAllTests] on the relative errors that its four sub-tests
    return and on the outcomes of the three calls of [testAllGPTests];
    the sub-tests and each such call draw their perturbations from
    [rand()], so each call has an outcome of its own.  The printing is
    left out. *)
Definition testAllTests (this : t)
    (testNondimensionalParameters testAxialCriticalLoads
       testShearCriticalLoads testStiffenerCripplingLoad : R)
    (axialGPTests shearGPTests cripplingGPTests : GP.t -> R) : R :=
  let relErrors4 :=
    match getAxialGP this with
    | Some gp => axialGPTests gp
    | None => 0.0
    end in
  let relErrors5 :=
    match getShearGP this with
    | Some gp => shearGPTests gp
    | None => 0.0
    end in
  let relErrors6 :=
    match getCripplingGP this with
    | Some gp => cripplingGPTests gp
    | None => 0.0
    end in
  maxRelError
    [testNondimensionalParameters; testAxialCriticalLoads;
     testShearCriticalLoads; testStiffenerCripplingLoad;
     relErrors4; relErrors5; relErrors6].

End TACSGPBladeStiffenedShellConstitutive.

(** * Vocabulary of the properties *)

(** The Newton iterate number [n] of the shear-mode solver, from the
    starting guess [lam2bar_sq = 0.0]. *)
Definition newton_iterate (n : nat) (xi gamma : R) : fp.t :=
  Nat.iter n
    (fun s => TACSGPBladeStiffenedShellConstitutive.newton_update s xi gamma)
    (fp.Fin 0.0).

(** The slot of the panel-width design variable lies inside the design
    vector: the invariant the constructor sets up. *)
Definition panelWidth_slot_ok
    (this : TACSGPBladeStiffenedShellConstitutive.t) : Prop :=
  (0 <= TACSGPBladeStiffenedShellConstitutive.panelWidthNum this)%Z ->
  (0 <= TACSGPBladeStiffenedShellConstitutive.panelWidthLocalNum this
   < TACSBladeStiffenedShellConstitutive.numDesignVars
       (TACSGPBladeStiffenedShellConstitutive.base this))%Z.

(** A transformation of a buffer that leaves entry [i] as it was. *)
Definition keeps_slot (i : nat) (g : list R -> list R) : Prop :=
  forall buf : list R, g buf !!! i = buf !!! i.

(** [Xtest] with entry [j] replaced by [x]. *)
Definition with_entry (j : nat) (x : R) (Xtest : list R) : list R :=
  <[j := x]> Xtest.

(** At the test point [Xtest], what [predictMeanTestDataSens] of the
    surrogate [gp] leaves in a fresh [Xtestsens] is the gradient of
    [Ysens] times the predicted mean, in the four entries of [Xtest]
    that the shell sets. *)
Definition sens_is_gradient (gp : TACSGaussianProcessModel.t)
    (Xtest : list R) : Prop :=
  forall (Ysens : R) (j : nat),
    (j < 4)%nat ->
    derivable_pt_lim
      (fun z =>
         Ysens
         * TACSGaussianProcessModel.predictMeanTestData gp
             (with_entry j z Xtest))
      (Xtest !!! j)
      ((TACSGaussianProcessModel.predictMeanTestDataSens gp Ysens Xtest
          (replicate (TACSGaussianProcessModel.n_param gp) 0)).2 !!! j).

(** The real number that a double holds; [0] for an infinity and for
    NaN. *)
Definition fp_value (x : fp.t) : R :=
  match x with
  | fp.Fin r => r
  | _ => 0
  end.

(** * Sample objects *)

(** Concrete objects on which the statements below are exercised.  The
    collaborators of the base class are not part of the sources at hand;
    the samples stand in for them with the simplest functions of the
    right shape. *)

Module Sample.

Module Base := TACSBladeStiffenedShellConstitutive.
Module GP := TACSGaussianProcessModel.
Module Shell := TACSGPBladeStiffenedShellConstitutive.

(** Smooth approximations of relu and abs, and their derivatives. *)
Definition soft_relu (x rho : R) : R := 1.0 / rho * ln (1 + exp (rho * x)).
Definition soft_relu_sens (x rho : R) : R :=
  exp (rho * x) / (1 + exp (rho * x)).
Definition soft_abs (x rho : R) : R :=
  1.0 / rho * ln (exp (- rho * x) + exp (rho * x)).
Definition soft_abs_sens (x rho : R) : R :=
  (exp (rho * x) - exp (- rho * x)) / (exp (- rho * x) + exp (rho * x)).

Definition axial_methods : GP.Kernel :=
  TACSAxialGaussianProcessModel.methods soft_relu soft_abs soft_relu_sens
    soft_abs_sens 10.

(** An axial model with one training point and coefficient [alpha0]. *)
Definition axialGP (alpha0 : R) : GP.t :=
  {| GP.n_train := 1;
     GP.n_param := 4;
     GP.Xtrain := [1; 0; 0; 0];
     GP.alpha := [alpha0];
     GP.methods := axial_methods |}.

(** Five design variables: panel length, stiffener pitch, panel
    thickness, stiffener height and stiffener thickness; one ply each
    with an identity Q matrix. *)
Definition base : Base.t :=
  {| Base.numDesignVars := 5;
     Base.numGeneralDV := 2;
     Base.panelDVStartNum := 2;
     Base.stiffenerDVStartNum := 3;
     Base.panelLength := 1;
     Base.stiffenerPitch := 1;
     Base.panelThick := 1;
     Base.panelThickNum := 2;
     Base.panelThickLocalNum := 2;
     Base.numPanelPlies := 1;
     Base.panelQMats := [1; 0; 0; 1; 0; 1];
     Base.panelPlyFracs := [1];
     Base.stiffenerHeight := 1;
     Base.stiffenerThick := 1;
     Base.stiffenerThickLocalNum := 4;
     Base.numStiffenerPlies := 1;
     Base.stiffenerQMats := [1; 0; 0; 1; 0; 1];
     Base.stiffenerPlyFracs := [1];
     Base.ksWeight := ln 2 |}.

(** The tangent stiffness of the panel, with identity [A] and [D]
    blocks. *)
Definition stiffness : list R :=
  [1; 0; 0; 1; 0; 1] ++ replicate 6 0 ++ [1; 0; 0; 1; 0; 1] ++ [1; 0; 1; 1].

(** The tangent stiffness of the stiffener: as that of the panel, with
    [D12 = 1], so that the generalized Poisson's ratio
    [(D12 + 2 D66) / D12] is the finite number [3]. *)
Definition stiffener_stiffness : list R :=
  [1; 0; 0; 1; 0; 1] ++ replicate 6 0 ++ [1; 1; 0; 1; 0; 1] ++ [1; 0; 1; 1].

Definition methods : Base.Methods :=
  {| Base.computePanelFailure := fun _ _ => 0;
     Base.evalPanelFailureStrainSens := fun _ _ => (0, replicate 9 0);
     Base.computeStiffenerFailure := fun _ _ => 0;
     Base.evalStiffenerFailureStrainSens := fun _ _ => (0, replicate 6 0);
     Base.transformStrain := fun _ e => take 6 e;
     Base.transformStrainSens := fun _ _ => replicate 9 0;
     Base.computePanelStiffness := fun _ => stiffness;
     Base.computeStiffenerStiffness := fun _ => stiffener_stiffness;
     Base.extractTangentStiffness := fun C => (take 6 C, take 6 (drop 12 C));
     Base.computePanelStress := fun _ e => e;
     Base.computeStiffenerStress := fun _ e => e;
     Base.bucklingEnvelope :=
       fun _ N1 N1Crit N12 N12Crit =>
         N1 / N1Crit + (N12 / N12Crit) * (N12 / N12Crit);
     Base.bucklingEnvelopeSens :=
       fun _ N1 N1Crit N12 N12Crit =>
         (N1 / N1Crit + (N12 / N12Crit) * (N12 / N12Crit),
          (1 / N1Crit,
           - N1 / (N1Crit * N1Crit),
           2 * N12 / (N12Crit * N12Crit),
           -2 * N12 * N12 / (N12Crit * N12Crit * N12Crit)));
     Base.computeEffectiveModulii := fun _ _ _ _ => (1, 1);
     Base.computeStiffenerArea :=
       fun b => Base.stiffenerHeight b * Base.stiffenerThick b;
     Base.computeStiffenerIzz := fun _ => 1;
     Base.computeStiffenerIzzSens := fun _ => (1, 1);
     Base.addPanelFailureDVSens := fun _ _ _ dfdx => dfdx;
     Base.addStiffenerFailureDVSens := fun _ _ _ dfdx => dfdx;
     Base.addStrainTransformProductDVsens := fun _ _ _ _ dfdx => dfdx;
     Base.addPanelStressDVSens := fun _ _ _ _ dfdx => dfdx;
     (** Adds into its slot [0], the stiffener height. *)
     Base.addStiffenerStressDVSens :=
       fun _ scale _ psi dfdx => add_to 0 (scale * psi !!! 0%nat) dfdx;
     Base.setDesignVars := fun b _ _ _ => b;
     Base.getDesignVars := fun _ _ _ dvs => dvs |}.

(** The panel width is the sixth design variable; the three
    surrogates are attached and predict a mean of [0]. *)
Definition shell : Shell.t :=
  Shell.constructor base 1 5 (Some (axialGP 0)) (Some (axialGP 0))
    (Some (axialGP 0)).

(** The same shell without surrogates. *)
Definition closed_form_shell : Shell.t :=
  Shell.constructor base 1 5 None None None.

(** An axial model with two training points, the rows [[1; 0; 0; 0]] and
    [[0; 0; 1; 0]] of [Xtrain], and the coefficients [1] and [2]; a
    shell with this model as its axial surrogate. *)
Definition axialGP2 : GP.t :=
  {| GP.n_train := 2;
     GP.n_param := 4;
     GP.Xtrain := [1; 0; 0; 0; 0; 0; 1; 0];
     GP.alpha := [1; 2];
     GP.methods := axial_methods |}.

Definition two_point_shell : Shell.t :=
  Shell.constructor base 1 5 (Some axialGP2) None None.

(** A strain vector with an axial compression of the mid-plane only. *)
Definition strain : list R := [- (PI * PI); 0; 0; 0; 0; 0; 0; 0; 0].

End Sample.

(** * Properties *)

Import TACSGPBladeStiffenedShellConstitutive.

(** ** The C math library *)

Section LibmFacts.

Lemma Int_part_IZR (z : Z) : Int_part (IZR z) = z.
Proof. symmetry. apply Int_part_spec. lra. Qed.

Lemma is_integer_IZR (z : Z) : libm.is_integer (IZR z).
Proof. unfold libm.is_integer. now rewrite Int_part_IZR. Qed.

Lemma not_integer_between (y : R) (z : Z) :
  IZR z < y < IZR z + 1 -> ~ libm.is_integer y.
Proof.
  intros Hy Hint. unfold libm.is_integer in Hint.
  assert (Int_part y = z) as Hz.
  { symmetry. apply Int_part_spec. lra. }
  rewrite Hz in Hint. lra.
Qed.

(** [pow(x, 2.0)] is the square, whatever the sign of the base. *)
Lemma pow_2 (x : R) : libm.pow x 2 = x ^ 2.
Proof.
  unfold libm.pow.
  destruct (decide (0 < x)) as [Hx|Hx].
  - rewrite <- powerRZ_Rpower by assumption. simpl. reflexivity.
  - destruct (decide (libm.is_integer 2)) as [_|Hn].
    + rewrite Int_part_IZR. simpl. reflexivity.
    + destruct Hn. apply is_integer_IZR.
Qed.

(** [pow(x, -2.0)] is the inverse of the square. *)
Lemma pow_neg2 (x : R) : libm.pow x (-2) = powerRZ x (-2).
Proof.
  unfold libm.pow.
  destruct (decide (0 < x)) as [Hx|Hx].
  - rewrite <- powerRZ_Rpower by assumption. reflexivity.
  - destruct (decide (libm.is_integer (-2))) as [_|Hn].
    + rewrite Int_part_IZR. reflexivity.
    + destruct Hn. apply is_integer_IZR.
Qed.

Lemma fp_pow_neg (x y : R) :
  x < 0 -> ~ libm.is_integer y -> fp.pow (fp.Fin x) y = fp.NaN.
Proof.
  intros Hx Hy. unfold fp.pow.
  destruct (decide (libm.pow_is_real x y)) as [[H|[[H _]|[_ H]]]|_];
    try lra; [contradiction|].
  destruct (decide (x = 0)); [lra | reflexivity].
Qed.

Lemma fp_pow_pos (x y : R) :
  0 < x -> fp.pow (fp.Fin x) y = fp.Fin (Rpower x y).
Proof.
  intros Hx. unfold fp.pow, libm.pow.
  destruct (decide (libm.pow_is_real x y)) as [_|Hn].
  - destruct (decide (0 < x)); [reflexivity | contradiction].
  - destruct Hn. left. exact Hx.
Qed.

Lemma fp_pow_real (x y : R) :
  libm.pow_is_real x y -> fp.pow (fp.Fin x) y = fp.Fin (libm.pow x y).
Proof. intros H. unfold fp.pow. now rewrite decide_True. Qed.

(** [pow] of a real number is a real number only where it is defined. *)
Lemma fp_pow_Fin_inv (x y r : R) :
  fp.pow (fp.Fin x) y = fp.Fin r ->
  libm.pow_is_real x y /\ r = libm.pow x y.
Proof.
  unfold fp.pow.
  destruct (decide (libm.pow_is_real x y)) as [H|_].
  - intros [= <-]. now split.
  - destruct (decide (x = 0)); discriminate.
Qed.

Lemma quarter_not_integer : ~ libm.is_integer 0.25.
Proof. apply (not_integer_between _ 0). lra. Qed.

Lemma half_not_integer : ~ libm.is_integer 0.5.
Proof. apply (not_integer_between _ 0). lra. Qed.

(** On the real numbers [pow(x, 0.5)] and [sqrt(x)] agree, NaN
    included. *)
Lemma fp_pow_half (x : R) :
  fp.pow (fp.Fin x) 0.5 = fp.sqrt (fp.Fin x).
Proof.
  unfold fp.sqrt.
  destruct (decide (0 <= x)) as [Hx|Hx].
  - destruct (decide (0 < x)) as [Hpos|Hnpos].
    + rewrite fp_pow_pos by assumption. f_equal.
      replace 0.5 with (/ 2) by lra. now apply Rpower_sqrt.
    + assert (x = 0) as -> by lra.
      rewrite fp_pow_real by (right; left; split; lra).
      unfold libm.pow.
      destruct (decide (0 < 0)); [lra|].
      destruct (decide (libm.is_integer 0.5)) as [Hi|_].
      * now apply half_not_integer in Hi.
      * now rewrite sqrt_0.
  - apply fp_pow_neg; [lra | apply half_not_integer].
Qed.

Lemma fp_pow_1 (y : R) : fp.pow (fp.Fin 1) y = fp.Fin 1.
Proof.
  rewrite fp_pow_pos by lra. f_equal.
  unfold Rpower. rewrite ln_1, Rmult_0_r. apply exp_0.
Qed.

Lemma fp_sqrt_eq (x y : R) :
  0 <= y -> y * y = x -> fp.sqrt (fp.Fin x) = fp.Fin y.
Proof.
  intros Hy Hx. unfold fp.sqrt.
  destruct (decide (0 <= x)) as [_|Hn].
  - f_equal. now apply sqrt_lem_1; [nra| |].
  - destruct Hn. nra.
Qed.

Lemma fp_div_eq (x y : R) :
  y <> 0 -> fp.div (fp.Fin x) (fp.Fin y) = fp.Fin (x / y).
Proof.
  intros Hy. unfold fp.div.
  destruct (decide (y = 0)); [contradiction | reflexivity].
Qed.

(** A sum is a real number only when both terms are. *)
Lemma fp_add_Fin_inv (x y : fp.t) (r : R) :
  fp.add x y = fp.Fin r ->
  exists a b : R, x = fp.Fin a /\ y = fp.Fin b /\ r = a + b.
Proof.
  destruct x as [a| | |], y as [b| | |]; try discriminate.
  intros [= <-]. eauto.
Qed.

Lemma fp_sub_Fin_inv (x y : fp.t) (r : R) :
  fp.sub x y = fp.Fin r ->
  exists a b : R, x = fp.Fin a /\ y = fp.Fin b /\ r = a - b.
Proof.
  unfold fp.sub. intros H.
  destruct (fp_add_Fin_inv _ _ _ H) as (a & b & -> & Hy & ->).
  destruct y as [c| | |]; try discriminate.
  injection Hy as <-. exists a, c. split; [reflexivity|]. split; [reflexivity | lra].
Qed.

End LibmFacts.

(** ** Arrays and sums *)

Section ArrayFacts.

Lemma length_add_to (i : nat) (v : R) (a : list R) :
  length (add_to i v a) = length a.
Proof. apply length_insert. Qed.

Lemma add_to_lookup (i : nat) (v : R) (a : list R) :
  (i < length a)%nat -> add_to i v a !!! i = a !!! i + v.
Proof. intros. unfold add_to. now rewrite list_lookup_total_insert_eq. Qed.

Lemma add_to_lookup_ne (i j : nat) (v : R) (a : list R) :
  i <> j -> add_to i v a !!! j = a !!! j.
Proof. intros. unfold add_to. now rewrite list_lookup_total_insert_ne. Qed.

Lemma length_memset0 (n : nat) (a : list R) :
  length (memset0 n a) = length a.
Proof.
  unfold memset0. rewrite length_app, length_replicate, length_drop. lia.
Qed.

(** On an array of [n] entries [memset] leaves nothing of the old
    contents. *)
Lemma memset0_all (n : nat) (a : list R) :
  length a = n -> memset0 n a = replicate n 0.
Proof.
  intros <-. unfold memset0.
  rewrite Nat.min_id, drop_all. apply app_nil_r.
Qed.

Lemma length_at_offset (k : nat) (callee : list R -> list R) (a : list R) :
  (forall l, length (callee l) = length l) ->
  length (at_offset k callee a) = length a.
Proof.
  intros Hlen. unfold at_offset.
  rewrite length_app, Hlen, length_take, length_drop. lia.
Qed.

(** What the caller sees below the offset is untouched. *)
Lemma at_offset_below (k i : nat) (callee : list R -> list R) (a : list R) :
  (i < k)%nat -> (k <= length a)%nat -> at_offset k callee a !!! i = a !!! i.
Proof.
  intros Hi Hk. unfold at_offset.
  rewrite lookup_total_app_l by (rewrite length_take; lia).
  rewrite lookup_total_take. now rewrite decide_True.
Qed.

(** What the callee does to its index [j] the caller sees at [k + j]. *)
Lemma at_offset_above (k j : nat) (callee : list R -> list R) (a : list R) :
  (k <= length a)%nat ->
  at_offset k callee a !!! (k + j)%nat = callee (drop k a) !!! j.
Proof.
  intros Hk. unfold at_offset.
  rewrite lookup_total_app_r by (rewrite length_take; lia).
  rewrite length_take.
  assert ((k + j - Nat.min k (length a))%nat = j) as -> by (clear - Hk; lia).
  reflexivity.
Qed.

(** A loop that adds one term per index computes the start value plus
    the sum of the terms. *)
Lemma foldl_add_sum {A} (f : A -> R) (l : list A) (a : R) :
  foldl (fun acc i => acc + f i) a l = a + sum_list (f <$> l).
Proof.
  revert a. induction l as [|x l IH]; intros a.
  - cbn. lra.
  - cbn. rewrite IH. fold (sum_list (f <$> l)). lra.
Qed.

End ArrayFacts.

(** ** Decimal literals *)

Lemma lit_0_0 : 0.0 = 0. Proof. lra. Qed.
Lemma lit_1_0 : 1.0 = 1. Proof. lra. Qed.
Lemma lit_2_0 : 2.0 = 2. Proof. lra. Qed.
Lemma lit_3_0 : 3.0 = 3. Proof. lra. Qed.
Lemma lit_4_0 : 4.0 = 4. Proof. lra. Qed.
Lemma lit_9_0 : 9.0 = 9. Proof. lra. Qed.
Lemma lit_m1_0 : -1.0 = -1. Proof. lra. Qed.
Lemma lit_m2_0 : -2.0 = -2. Proof. lra. Qed.
Lemma lit_0_5 : 0.5 = / 2. Proof. lra. Qed.
Lemma lit_0_25 : 0.25 = / 4. Proof. lra. Qed.

Create Rewrite HintDb literals.
#[local] Hint Rewrite lit_0_0 lit_1_0 lit_2_0 lit_3_0 lit_4_0 lit_9_0
  lit_m1_0 lit_m2_0 lit_0_5 lit_0_25 : literals.

Ltac literals := autorewrite with literals in *.

(** ** The critical global axial load *)

Lemma dim_factor_global (D11 D22 b delta : R) :
  libm.M_PI * libm.M_PI * sqrt (D11 * D22) / b / b / (1 + delta)
  = PI ^ 2 * sqrt (D11 * D22) / b ^ 2 / (1 + delta).
Proof.
  unfold libm.M_PI, Rdiv. simpl. rewrite Rmult_1_r, Rmult_1_r, Rinv_mult. ring.
Qed.

(** The surrogate mean is the sum over the training points of
    [alpha[i] * kernel(x, row i)]; the kernel is handed the address of
    row [i] of [Xtrain]. *)
Lemma predictMeanTestData_sum (gp : GP.t) (x : list R) :
  GP.predictMeanTestData gp x
  = sum_list
      ((fun i => GP.alpha gp !!! i
                 * GP.kernel (GP.methods gp) x (GP.loc_Xtrain gp i))
       <$> seq 0 (GP.n_train gp)).
Proof.
  unfold GP.predictMeanTestData.
  rewrite (foldl_add_sum
             (fun i => GP.kernel (GP.methods gp) x (GP.loc_Xtrain gp i)
                       * GP.alpha gp !!! i)).
  rewrite Rplus_0_l. f_equal. apply list_fmap_ext. intros _ i _. ring.
Qed.

(** The axial kernel reads the first four entries of the training row
    it is handed. *)
Lemma axial_kernel_row
    (soft_relu soft_abs : R -> R -> R) (ks : R) (x Xtrain : list R)
    (n : nat) :
  TACSAxialGaussianProcessModel.kernel soft_relu soft_abs ks x
    (drop n Xtrain)
  = TACSAxialGaussianProcessModel.kernel soft_relu soft_abs ks x
      [Xtrain !!! n; Xtrain !!! (n + 1)%nat; Xtrain !!! (n + 2)%nat;
       Xtrain !!! (n + 3)%nat].
Proof.
  unfold TACSAxialGaussianProcessModel.kernel.
  rewrite !lookup_total_drop.
  cbn [lookup_total list_lookup_total].
  now rewrite Nat.add_0_r.
Qed.

(** C6. With an axial surrogate attached, [computeCriticalGlobalAxialLoad]
    returns [pi^2 sqrt(D11 D22) / b^2 / (1 + delta)] times [exp(m)], where
    [m] is [predictMeanTestData] at
    [[log xi; log rho_0; log(1 + gamma); log zeta]], and
    [predictMeanTestData(x)] is the sum over the training points [i] of
    [alpha[i] * kernel(x, Xtrain row i)]: the kernel is handed [Xtrain]
    from entry [n_param * i] on, and for the axial kernel with four
    parameters row [i] is the four entries [Xtrain[4 i .. 4 i + 3]]. *)
Theorem computeCriticalGlobalAxialLoad_surrogate
    (NUM_CF_MODES : nat) (this : t) (gp : GP.t)
    (D11 D22 b delta rho_0 xi gamma zeta : R) :
  getAxialGP this = Some gp ->
  computeCriticalGlobalAxialLoad NUM_CF_MODES this D11 D22 b delta rho_0 xi
    gamma zeta
  = PI ^ 2 * sqrt (D11 * D22) / b ^ 2 / (1 + delta)
    * exp (GP.predictMeanTestData gp
             [ln xi; ln rho_0; ln (1 + gamma); ln zeta])
  /\ (forall x : list R,
        GP.predictMeanTestData gp x
        = sum_list
            ((fun i =>
                GP.alpha gp !!! i
                * GP.kernel (GP.methods gp) x
                    (drop (GP.n_param gp * i) (GP.Xtrain gp)))
             <$> seq 0 (GP.n_train gp)))
  /\ (forall (soft_relu soft_abs soft_relu_sens soft_abs_sens : R -> R -> R)
             (ks : R),
        GP.methods gp
        = TACSAxialGaussianProcessModel.methods soft_relu soft_abs
            soft_relu_sens soft_abs_sens ks ->
        GP.n_param gp = 4%nat ->
        forall x : list R,
          GP.predictMeanTestData gp x
          = sum_list
              ((fun i =>
                  GP.alpha gp !!! i
                  * TACSAxialGaussianProcessModel.kernel soft_relu soft_abs
                      ks x
                      [GP.Xtrain gp !!! (4 * i)%nat;
                       GP.Xtrain gp !!! (4 * i + 1)%nat;
                       GP.Xtrain gp !!! (4 * i + 2)%nat;
                       GP.Xtrain gp !!! (4 * i + 3)%nat])
               <$> seq 0 (GP.n_train gp))).
Proof.
  intros Hgp. split; [|split].
  - unfold computeCriticalGlobalAxialLoad. rewrite Hgp.
    unfold log_inputs, libm.log. literals.
    now rewrite dim_factor_global.
  - apply predictMeanTestData_sum.
  - intros soft_relu soft_abs soft_relu_sens soft_abs_sens ks Hm Hparam x.
    rewrite predictMeanTestData_sum. f_equal.
    apply list_fmap_ext. intros _ i _.
    unfold GP.loc_Xtrain. rewrite Hm, Hparam.
    cbn [GP.kernel TACSAxialGaussianProcessModel.methods].
    now rewrite axial_kernel_row.
Qed.

(** C7. Without an axial surrogate, [computeCriticalGlobalAxialLoad]
    returns the negated KS aggregate, with sharpness [ksWeight], of the
    [NUM_CF_MODES] negated mode loads; the load of mode [m] is
    [pi^2 sqrt(D11 D22) / b^2 / (1 + delta)] times
    [(1 + gamma) (m/rho_0)^2 + (m/rho_0)^-2 + 2 xi], for
    [m = 1 .. NUM_CF_MODES]. *)
Theorem computeCriticalGlobalAxialLoad_closed_form
    (NUM_CF_MODES : nat) (this : t)
    (D11 D22 b delta rho_0 xi gamma zeta : R) :
  getAxialGP this = None ->
  computeCriticalGlobalAxialLoad NUM_CF_MODES this D11 D22 b delta rho_0 xi
    gamma zeta
  = - KS.ksAggregation
        ((fun m : nat =>
            - (PI ^ 2 * sqrt (D11 * D22) / b ^ 2 / (1 + delta)
               * ((1 + gamma) * (INR m / rho_0) ^ 2
                  + powerRZ (INR m / rho_0) (-2) + 2 * xi)))
         <$> seq 1 NUM_CF_MODES)
        NUM_CF_MODES (Base.ksWeight (base this)).
Proof.
  intros Hgp. unfold computeCriticalGlobalAxialLoad. rewrite Hgp.
  unfold global_axial_modes. literals.
  match goal with
  | |- -1 * ?a = _ => transitivity (- a); [ring|]
  end.
  do 2 f_equal.
  apply list_fmap_ext. intros _ m _.
  rewrite pow_2, pow_neg2, dim_factor_global. ring.
Qed.

(** On a shell whose axial surrogate has two training points: the mean
    is [1] times the kernel at the row [[1; 0; 0; 0]] plus [2] times the
    kernel at the row [[0; 0; 1; 0]]. *)
Lemma computeCriticalGlobalAxialLoad_surrogate_witness :
  let x := [ln 2; ln 1; ln (1 + 1); ln 1] in
  let K :=
    TACSAxialGaussianProcessModel.kernel Sample.soft_relu Sample.soft_abs
      10 in
  getAxialGP Sample.two_point_shell = Some Sample.axialGP2
  /\ computeCriticalGlobalAxialLoad 3 Sample.two_point_shell 1 1 1 1 1 2 1 1
     = PI ^ 2 * sqrt (1 * 1) / 1 ^ 2 / (1 + 1)
       * exp (GP.predictMeanTestData Sample.axialGP2 x)
  /\ GP.predictMeanTestData Sample.axialGP2 x
     = 1 * K x [1; 0; 0; 0] + (2 * K x [0; 0; 1; 0] + 0).
Proof.
  intros x K.
  destruct (computeCriticalGlobalAxialLoad_surrogate 3 Sample.two_point_shell
              Sample.axialGP2 1 1 1 1 1 2 1 1 eq_refl)
    as (Hload & _ & Hrows).
  split; [reflexivity|]. split; [exact Hload|].
  exact (Hrows Sample.soft_relu Sample.soft_abs Sample.soft_relu_sens
           Sample.soft_abs_sens 10 eq_refl eq_refl x).
Defined.

Lemma computeCriticalGlobalAxialLoad_closed_form_witness :
  getAxialGP Sample.closed_form_shell = None
  /\ computeCriticalGlobalAxialLoad 3 Sample.closed_form_shell 1 1 1 0 1 0 0 0
     = - KS.ksAggregation
           ((fun m : nat =>
               - (PI ^ 2 * sqrt (1 * 1) / 1 ^ 2 / (1 + 0)
                  * ((1 + 0) * (INR m / 1) ^ 2
                     + powerRZ (INR m / 1) (-2) + 2 * 0)))
            <$> seq 1 3)
           3 (Base.ksWeight (base Sample.closed_form_shell)).
Proof.
  split.
  - reflexivity.
  - apply (computeCriticalGlobalAxialLoad_closed_form 3
             Sample.closed_form_shell 1 1 1 0 1 0 0 0).
    reflexivity.
Defined.

(** ** The coupled shear-mode solver *)

Section NewtonFacts.

(** The loop test fails exactly on a NaN residual or on a real residual
    within the tolerance. *)
Lemma newton_continues_false (s : fp.t) (xi gamma : R) :
  newton_continues s xi gamma = false
  <-> lam2Constraint s xi gamma = fp.NaN
      \/ exists g : R,
           lam2Constraint s xi gamma = fp.Fin g /\ Rabs g <= 1e-10.
Proof.
  unfold newton_continues.
  destruct (lam2Constraint s xi gamma) as [g| | |]; cbn [fp.abs fp.gt].
  - rewrite bool_decide_eq_false. split.
    + intros Hg. right. exists g. split; [reflexivity | lra].
    + intros [Hg|[g' [Hg Hle]]]; [discriminate|].
      injection Hg as <-. lra.
  - split; [discriminate | intros [H|(g & H & _)]; discriminate].
  - split; [discriminate | intros [H|(g & H & _)]; discriminate].
  - split; [now left | reflexivity].
Qed.

(** A real residual comes from a real [lam2sq] and a real [lam1bar]. *)
Lemma lam2Constraint_Fin_inv (s : fp.t) (xi gamma g : R) :
  lam2Constraint s xi gamma = fp.Fin g ->
  exists lam2sq : R,
    s = fp.Fin lam2sq
    /\ libm.pow_is_real
         (1.0 + 2.0 * lam2sq * xi + lam2sq * lam2sq + gamma) 0.25.
Proof.
  unfold lam2Constraint. cbv zeta. intros H.
  apply fp_sub_Fin_inv in H as (a & b & H & _ & _).
  apply fp_add_Fin_inv in H as (a1 & b1 & H & _ & _).
  apply fp_add_Fin_inv in H as (lam2sq & lam1sq & -> & H & _).
  exists lam2sq. split; [reflexivity|].
  cbn [fp.mul fp.add] in H.
  destruct (decide (libm.pow_is_real
              (1.0 + 2.0 * lam2sq * xi + lam2sq * lam2sq + gamma) 0.25))
    as [Hreal|Hn]; [exact Hreal|].
  exfalso. unfold fp.pow in H. rewrite decide_False in H by exact Hn.
  destruct (decide (_ = 0)); discriminate.
Qed.

(** The loop from an arbitrary start, in terms of the iterates of the
    update: it stops at the first iterate that fails the test. *)
Lemma newton_loop_from (fuel : nat) (s0 r : fp.t) (xi gamma : R) :
  newton_loop fuel s0 xi gamma = Some r ->
  exists n : nat,
    (n < fuel)%nat
    /\ r = Nat.iter n (fun s => newton_update s xi gamma) s0
    /\ (forall k : nat, (k < n)%nat ->
          newton_continues
            (Nat.iter k (fun s => newton_update s xi gamma) s0) xi gamma
          = true)
    /\ newton_continues r xi gamma = false.
Proof.
  revert s0. induction fuel as [|fuel IH]; intros s0; simpl.
  - discriminate.
  - destruct (newton_continues s0 xi gamma) eqn:Hc.
    + intros Hloop. destruct (IH _ Hloop) as (n & Hn & Hr & Hk & Hstop).
      exists (S n). split; [lia|]. split; [|split].
      * rewrite Nat.iter_succ_r. exact Hr.
      * intros [|k] Hlt; [exact Hc|].
        rewrite Nat.iter_succ_r. apply Hk. lia.
      * exact Hstop.
    + intros [= <-]. exists 0%nat. split; [lia|]. split; [reflexivity|].
      split; [intros k Hk; lia | exact Hc].
Qed.

(** The first Newton step at [xi = 106/13], [gamma = 0]. *)

Lemma lam2Constraint_start :
  lam2Constraint (fp.Fin 0) (106 / 13) 0 = fp.Fin (2 / 39).
Proof.
  unfold lam2Constraint. cbn [fp.add fp.mul]. literals.
  replace (1 + 2 * 0 * (106 / 13) + 0 * 0 + 0) with 1 by lra.
  rewrite fp_pow_1. cbn [fp.add fp.mul].
  rewrite fp_div_eq by lra. rewrite fp_div_eq by lra.
  rewrite fp_div_eq by lra. cbn [fp.add fp.mul].
  rewrite (fp_sqrt_eq _ (11 / 3)) by lra.
  cbn [fp.sub fp.add fp.neg]. f_equal. lra.
Qed.

Lemma lam2ConstraintDeriv_start :
  lam2ConstraintDeriv (fp.Fin 0) (106 / 13) 0 = fp.Fin (2 / 13).
Proof.
  unfold lam2ConstraintDeriv. cbn [fp.add fp.mul]. literals.
  replace (1 + 2 * 0 * (106 / 13) + 0 * 0 + 0) with 1 by lra.
  rewrite fp_pow_1. cbn [fp.add fp.mul].
  rewrite !fp_div_eq by lra. cbn [fp.add fp.mul].
  rewrite (fp_sqrt_eq _ (11 / 3)) by lra.
  rewrite !fp_div_eq by lra. cbn [fp.add fp.mul].
  rewrite !fp_div_eq by lra.
  cbn [fp.sub fp.add fp.mul fp.neg]. f_equal. lra.
Qed.

Lemma newton_update_start :
  newton_update (fp.Fin 0.0) (106 / 13) 0 = fp.Fin (- 1 / 3).
Proof.
  unfold newton_update. literals.
  rewrite lam2Constraint_start, lam2ConstraintDeriv_start.
  rewrite fp_div_eq by lra.
  cbn [fp.sub fp.add fp.neg]. f_equal. lra.
Qed.

(** After that step the radicand [1 + 2 lam2sq xi + lam2sq^2 + gamma] is
    [-506/117]: the residual is NaN. *)
Lemma lam2Constraint_after_step :
  lam2Constraint (fp.Fin (- 1 / 3)) (106 / 13) 0 = fp.NaN.
Proof.
  unfold lam2Constraint. cbn [fp.add fp.mul]. literals.
  rewrite fp_pow_neg; [reflexivity | lra |].
  apply (not_integer_between _ 0). lra.
Qed.

Lemma newton_continues_start :
  newton_continues (fp.Fin 0.0) (106 / 13) 0 = true.
Proof.
  unfold newton_continues. literals.
  rewrite lam2Constraint_start. apply bool_decide_eq_true.
  rewrite Rabs_right; lra.
Qed.

Lemma newton_continues_after_step :
  newton_continues (fp.Fin (- 1 / 3)) (106 / 13) 0 = false.
Proof.
  unfold newton_continues. now rewrite lam2Constraint_after_step.
Qed.

(** The loop at that input, for every cut-off. *)
Lemma newton_loop_NaN_exit (fuel : nat) :
  newton_loop fuel (fp.Fin 0.0) (106 / 13) 0
  = if decide (fuel < 2)%nat then None else Some (fp.Fin (- 1 / 3)).
Proof.
  destruct fuel as [|[|fuel]]; [reflexivity| |].
  - cbn [newton_loop]. now rewrite newton_continues_start.
  - rewrite decide_False by lia. cbn [newton_loop].
    rewrite newton_continues_start, newton_update_start.
    now rewrite newton_continues_after_step.
Qed.

End NewtonFacts.

Section NewtonClaims.

(** An input at which the starting guess is already a root:
    [xi^2 = 7 xi + 6], [gamma = 0]. *)
Lemma lam2Constraint_root_at_start :
  lam2Constraint (fp.Fin 0) ((7 + sqrt 73) / 2) 0 = fp.Fin 0.
Proof.
  assert (0 <= sqrt 73) as Hpos by apply sqrt_pos.
  assert (sqrt 73 * sqrt 73 = 73) as Hsq by (apply sqrt_sqrt; lra).
  unfold lam2Constraint. cbn [fp.add fp.mul]. literals.
  replace (1 + 2 * 0 * ((7 + sqrt 73) / 2) + 0 * 0 + 0) with 1 by lra.
  rewrite fp_pow_1. cbn [fp.add fp.mul].
  rewrite !fp_div_eq by lra. cbn [fp.add fp.mul].
  rewrite (fp_sqrt_eq _ ((3 + (7 + sqrt 73) / 2) / 3)) by nra.
  cbn [fp.sub fp.add fp.neg]. f_equal. lra.
Qed.

Lemma newton_stops_at_start :
  newton_continues (newton_iterate 0 ((7 + sqrt 73) / 2) 0)
    ((7 + sqrt 73) / 2) 0 = false.
Proof.
  change (newton_iterate 0 ((7 + sqrt 73) / 2) 0) with (fp.Fin 0.0).
  unfold newton_continues. literals.
  rewrite lam2Constraint_root_at_start.
  apply bool_decide_eq_false. rewrite Rabs_R0. lra.
Qed.

Lemma nondimShearParams_root_at_start :
  nondimShearParams 1 ((7 + sqrt 73) / 2) 0 = Some (fp.Fin 1, fp.Fin 0).
Proof.
  unfold nondimShearParams. cbn [newton_loop].
  pose proof newton_stops_at_start as Hstop.
  change (newton_iterate 0 ((7 + sqrt 73) / 2) 0) with (fp.Fin 0.0) in Hstop.
  rewrite Hstop.
  cbn [mbind option_bind fp.add fp.mul]. literals. do 2 f_equal.
  - replace (1 + 2 * 0 * ((7 + sqrt 73) / 2) + 0 * 0 + 0) with 1 by lra.
    apply fp_pow_1.
  - replace (/ 2) with 0.5 by lra. rewrite fp_pow_half.
    apply fp_sqrt_eq; lra.
Qed.

(** C4 (as amended).  Whenever [nondimShearParams] returns, the Newton
    iteration started from [lam2sq = 0] has stopped at the first iterate
    at which the test [abs(lam2Constraint) > 1e-10] is false.  The
    returned values are [lam1bar = pow(1 + 2 lam2sq xi + lam2sq^2 + gamma,
    0.25)] and [lam2bar = pow(lam2sq, 0.5)] evaluated there.  At that
    iterate either the residual is NaN, or [lam2sq] is a real number, the
    residual is a real number with [|lam2Constraint| <= 1e-10], [lam1bar]
    is the real number [(1 + 2 lam2sq xi + lam2sq^2 + gamma)^0.25], and
    [lam2bar = sqrt(lam2sq)] when [lam2sq >= 0]. *)
Theorem nondimShearParams_postcondition
    (fuel : nat) (xi gamma : R) (lam1bar lam2bar : fp.t) :
  nondimShearParams fuel xi gamma = Some (lam1bar, lam2bar) ->
  exists n : nat,
    let lam2sq := newton_iterate n xi gamma in
    (n < fuel)%nat
    /\ (forall k : nat, (k < n)%nat ->
          newton_continues (newton_iterate k xi gamma) xi gamma = true)
    /\ lam1bar
       = fp.pow (1.0 + 2.0 * lam2sq * xi + lam2sq * lam2sq + gamma)%fp 0.25
    /\ lam2bar = fp.pow lam2sq 0.5
    /\ (lam2Constraint lam2sq xi gamma = fp.NaN
        \/ exists s g : R,
             lam2sq = fp.Fin s
             /\ lam2Constraint lam2sq xi gamma = fp.Fin g
             /\ Rabs g <= 1e-10
             /\ libm.pow_is_real (1 + 2 * s * xi + s * s + gamma) 0.25
             /\ lam1bar
                = fp.Fin (libm.pow (1 + 2 * s * xi + s * s + gamma) 0.25)
             /\ (0 <= s -> lam2bar = fp.Fin (sqrt s))).
Proof.
  unfold nondimShearParams. intros Hret.
  destruct (newton_loop fuel (fp.Fin 0.0) xi gamma) as [r|] eqn:Hloop;
    [|discriminate].
  cbn [mbind option_bind] in Hret. injection Hret as <- <-.
  destruct (newton_loop_from _ _ _ _ _ Hloop) as (n & Hn & Hr & Hk & Hstop).
  exists n. fold (newton_iterate n xi gamma) in Hr. cbv zeta. rewrite <- Hr.
  split; [exact Hn|]. split; [exact Hk|].
  split; [reflexivity|]. split; [reflexivity|].
  apply newton_continues_false in Hstop as [Hnan|(g & Hg & Hle)];
    [now left | right].
  destruct (lam2Constraint_Fin_inv _ _ _ _ Hg) as (s & -> & Hreal).
  literals. exists s, g.
  split; [reflexivity|]. split; [exact Hg|]. split; [exact Hle|].
  split; [exact Hreal|]. split.
  - cbn [fp.add fp.mul]. literals. now apply fp_pow_real.
  - intros Hs. replace (/ 2) with 0.5 by lra. rewrite fp_pow_half.
    unfold fp.sqrt. now rewrite decide_True.
Qed.

Lemma nondimShearParams_postcondition_witness :
  nondimShearParams 1 ((7 + sqrt 73) / 2) 0 = Some (fp.Fin 1, fp.Fin 0)
  /\ exists n : nat,
       let xi := (7 + sqrt 73) / 2 in
       let lam2sq := newton_iterate n xi 0 in
       (n < 1)%nat
       /\ (forall k : nat, (k < n)%nat ->
             newton_continues (newton_iterate k xi 0) xi 0 = true)
       /\ fp.Fin 1
          = fp.pow (1.0 + 2.0 * lam2sq * xi + lam2sq * lam2sq + 0)%fp 0.25
       /\ fp.Fin 0 = fp.pow lam2sq 0.5
       /\ (lam2Constraint lam2sq xi 0 = fp.NaN
           \/ exists s g : R,
                lam2sq = fp.Fin s
                /\ lam2Constraint lam2sq xi 0 = fp.Fin g
                /\ Rabs g <= 1e-10
                /\ libm.pow_is_real (1 + 2 * s * xi + s * s + 0) 0.25
                /\ fp.Fin 1
                   = fp.Fin (libm.pow (1 + 2 * s * xi + s * s + 0) 0.25)
                /\ (0 <= s -> fp.Fin 0 = fp.Fin (sqrt s))).
Proof.
  split.
  - exact nondimShearParams_root_at_start.
  - apply (nondimShearParams_postcondition 1 ((7 + sqrt 73) / 2) 0).
    exact nondimShearParams_root_at_start.
Defined.

(** The claim C4 as it was stated fails at [xi = 106/13], [gamma = 0]:
    the function returns after one Newton step, at [lam2sq = -1/3],
    where the residual is NaN and not within the tolerance, and it
    returns NaN for both parameters. *)
Lemma nondimShearParams_postcondition_counterexample :
  nondimShearParams 2 (106 / 13) 0 = Some (fp.NaN, fp.NaN)
  /\ newton_loop 2 (fp.Fin 0.0) (106 / 13) 0 = Some (fp.Fin (- 1 / 3))
  /\ ~ (exists (lam2sq : fp.t) (g : R),
          newton_loop 2 (fp.Fin 0.0) (106 / 13) 0 = Some lam2sq
          /\ lam2Constraint lam2sq (106 / 13) 0 = fp.Fin g
          /\ Rabs g <= 1e-10).
Proof.
  pose proof (newton_loop_NaN_exit 2) as Hloop.
  rewrite decide_False in Hloop by lia.
  split; [|split].
  - unfold nondimShearParams. rewrite Hloop.
    cbn [mbind option_bind fp.add fp.mul].
    f_equal. f_equal.
    + apply fp_pow_neg; [literals; lra|].
      apply (not_integer_between _ 0). lra.
    + rewrite fp_pow_half. unfold fp.sqrt.
      rewrite decide_False by lra. reflexivity.
  - exact Hloop.
  - intros (lam2sq & g & Hl & Hg & _). rewrite Hloop in Hl.
    injection Hl as <-. rewrite lam2Constraint_after_step in Hg.
    discriminate.
Qed.

End NewtonClaims.

(** ** Design variables *)

Section DesignVariables.

Context {M : Base.Methods}.

(** The base class neither adds nor removes design variables when they
    are set, and [getDesignVars] writes into the caller's array in
    place. *)
Hypothesis base_set_keeps_count :
  forall (b : Base.t) (elemIndex dvLen : Z) (dvs : list R),
    Base.numDesignVars (Base.setDesignVars b elemIndex dvLen dvs)
    = Base.numDesignVars b.
Hypothesis base_get_in_place :
  forall (b : Base.t) (elemIndex dvLen : Z) (dvs : list R),
    length (Base.getDesignVars b elemIndex dvLen dvs) = length dvs.

Lemma constructor_slot_ok (b : Base.t) (w : R) (num : Z)
    (axial shear crippling : option GP.t) :
  (0 <= Base.numDesignVars b)%Z ->
  panelWidth_slot_ok (constructor b w num axial shear crippling).
Proof.
  intros Hb Hnum. simpl in *.
  destruct (decide (0 <= num)%Z); [simpl; lia | contradiction].
Qed.

Lemma setDesignVars_slot_ok (this : t) (elemIndex dvLen : Z) (dvs : list R) :
  panelWidth_slot_ok this ->
  panelWidth_slot_ok (setDesignVars this elemIndex dvLen dvs).1.
Proof.
  unfold panelWidth_slot_ok, setDesignVars. intros Hok.
  cbn [fst]. repeat case_decide; simpl; rewrite base_set_keeps_count; exact Hok.
Qed.

(** C10. If [panelWidthNum >= 0] and [dvLen >= numDesignVars], then after
    [setDesignVars(elemIndex, dvLen, dvs)] a subsequent
    [getDesignVars(elemIndex, dvLen, out)] writes
    [out[panelWidthLocalNum] = dvs[panelWidthLocalNum]], and both calls
    return [numDesignVars]. *)
Theorem panelWidth_set_get_roundtrip
    (this : t) (elemIndex dvLen : Z) (dvs out : list R) :
  panelWidth_slot_ok this ->
  length out = Z.to_nat dvLen ->
  (0 <= panelWidthNum this)%Z ->
  (Base.numDesignVars (base this) <= dvLen)%Z ->
  let (this', returned_by_set) := setDesignVars this elemIndex dvLen dvs in
  let (out', returned_by_get) := getDesignVars this' elemIndex dvLen out in
  out' !!! Z.to_nat (panelWidthLocalNum this)
  = dvs !!! Z.to_nat (panelWidthLocalNum this)
  /\ returned_by_set = Base.numDesignVars (base this)
  /\ returned_by_get = Base.numDesignVars (base this).
Proof.
  intros Hok Hlen Hnum Hdv. specialize (Hok Hnum).
  unfold setDesignVars, getDesignVars. cbn [base with_base panelWidthNum].
  rewrite !base_set_keeps_count.
  destruct (decide (Base.numDesignVars (base this) <= dvLen)%Z);
    [|contradiction].
  destruct (decide (0 <= panelWidthNum this)%Z); [|contradiction].
  cbn [base with_base with_panelWidth panelWidthNum panelWidthLocalNum
       panelWidth].
  rewrite !base_set_keeps_count.
  destruct (decide (Base.numDesignVars (base this) <= dvLen)%Z);
    [|contradiction].
  destruct (decide (0 <= panelWidthNum this)%Z); [|contradiction].
  split; [|split; reflexivity].
  apply list_lookup_total_insert_eq.
  rewrite base_get_in_place, Hlen. lia.
Qed.

End DesignVariables.

Lemma panelWidth_set_get_roundtrip_witness :
  panelWidth_slot_ok Sample.shell
  /\ length [0; 0; 0; 0; 0; 0] = Z.to_nat 6
  /\ (0 <= panelWidthNum Sample.shell)%Z
  /\ (Base.numDesignVars (base Sample.shell) <= 6)%Z
  /\ let (this', returned_by_set) :=
       setDesignVars (H := Sample.methods) Sample.shell 0 6
         [10; 20; 30; 40; 50; 60] in
     let (out', returned_by_get) :=
       getDesignVars (H := Sample.methods) this' 0 6 [0; 0; 0; 0; 0; 0] in
     out' !!! Z.to_nat (panelWidthLocalNum Sample.shell)
     = [10; 20; 30; 40; 50; 60] !!! Z.to_nat (panelWidthLocalNum Sample.shell)
     /\ returned_by_set = Base.numDesignVars (base Sample.shell)
     /\ returned_by_get = Base.numDesignVars (base Sample.shell).
Proof.
  assert (panelWidth_slot_ok Sample.shell) as Hok.
  { apply constructor_slot_ok. simpl. lia. }
  split; [exact Hok|]. split; [reflexivity|].
  split; [simpl; lia|]. split; [simpl; lia|].
  apply (panelWidth_set_get_roundtrip (M := Sample.methods)).
  - reflexivity.
  - reflexivity.
  - exact Hok.
  - reflexivity.
  - simpl. lia.
  - simpl. lia.
Defined.

(** ** The failure evaluator: forward values *)

Section ForwardValue.

Context {M : Base.Methods}.

(** The sensitivity variants of the collaborators return the value of
    their forward variants. *)
Hypothesis panel_failure_value :
  forall (b : Base.t) (e : list R),
    (Base.evalPanelFailureStrainSens b e).1 = Base.computePanelFailure b e.
Hypothesis stiffener_failure_value :
  forall (b : Base.t) (e : list R),
    (Base.evalStiffenerFailureStrainSens b e).1
    = Base.computeStiffenerFailure b e.
Hypothesis envelope_value :
  forall (b : Base.t) (N1 N1Crit N12 N12Crit : R),
    (Base.bucklingEnvelopeSens b N1 N1Crit N12 N12Crit).1
    = Base.bucklingEnvelope b N1 N1Crit N12 N12Crit.

(** C9. For every strain vector and object, the aggregate returned by
    [evalFailureStrainSens] is the aggregate returned by
    [computeFailureValues] on the same strain: the same five failure
    ratios, KS-aggregated with the same [ksWeight]. *)
Theorem evalFailureStrainSens_returns_failure_value
    (NUM_STRESSES NUM_CF_MODES fuel : nat) (this : t) (e sens : list R) :
  fst <$> evalFailureStrainSens NUM_STRESSES NUM_CF_MODES fuel this e sens
  = snd <$> computeFailureValues NUM_CF_MODES fuel this e.
Proof.
  unfold evalFailureStrainSens, computeFailureValues.
  pose proof (panel_failure_value (base this) e) as H0.
  destruct (Base.evalPanelFailureStrainSens (base this) e)
    as [fails0 panelFailSens]. cbn [fst] in H0. subst fails0.
  pose proof (stiffener_failure_value (base this)
                (Base.transformStrain (base this) e)) as H1.
  destruct (Base.evalStiffenerFailureStrainSens (base this)
              (Base.transformStrain (base this) e))
    as [fails1 stiffenerStrainSens]. cbn [fst] in H1. subst fails1.
  destruct (Base.extractTangentStiffness
              (Base.computePanelStiffness (base this))) as [Ap Dp].
  destruct (computeCriticalGlobalShearLoad fuel this _ _ _ _ _ _ _)
    as [N12CritGlobal|]; [|reflexivity].
  cbn [mbind option_bind].
  match goal with
  | |- context [Base.bucklingEnvelopeSens ?b ?n1 ?n1c ?n12 ?n12c] =>
      pose proof (envelope_value b n1 n1c n12 n12c) as H2;
      destruct (Base.bucklingEnvelopeSens b n1 n1c n12 n12c)
        as [fails2 [[[N1GlobalSens N1CritGlobalSens] N12GlobalSens]
                      N12CritGlobalSens]]
  end.
  cbn [fst] in H2. subst fails2.
  destruct (computeCriticalLocalShearLoad fuel this _ _ _ _ _)
    as [N12CritLocal|]; [|reflexivity].
  cbn [mbind option_bind].
  match goal with
  | |- context [Base.bucklingEnvelopeSens ?b ?n1 ?n1c ?n12 ?n12c] =>
      pose proof (envelope_value b n1 n1c n12 n12c) as H3;
      destruct (Base.bucklingEnvelopeSens b n1 n1c n12 n12c)
        as [fails3 [[[N1LocalSens N1CritLocalSens] N12LocalSens]
                      N12CritLocalSens]]
  end.
  cbn [fst] in H3. subst fails3.
  destruct (Base.extractTangentStiffness
              (Base.computeStiffenerStiffness (base this))) as [As Ds].
  reflexivity.
Qed.

End ForwardValue.

(** ** The failure evaluator on the sample shell *)

Section SampleEvaluation.

Lemma sample_predictMean (X : list R) :
  GP.predictMeanTestData (Sample.axialGP 0) X = 0.
Proof.
  unfold GP.predictMeanTestData.
  cbn [Sample.axialGP GP.n_train seq foldl GP.alpha].
  change ([0] !!! 0%nat) with 0. ring.
Qed.

Lemma exp_ln2_m1 : exp (ln 2 * (1 - 2)) = / 2.
Proof.
  replace (ln 2 * (1 - 2)) with (- ln 2) by ring.
  rewrite exp_Ropp, exp_ln by lra. reflexivity.
Qed.

Lemma exp_ln2_m2 : exp (ln 2 * (0 - 2)) = / 4.
Proof.
  replace (ln 2 * (0 - 2)) with (- (ln 2 + ln 2)) by ring.
  rewrite exp_Ropp, exp_plus, exp_ln by lra. f_equal; lra.
Qed.

Lemma exp_ln2_0 : exp (ln 2 * (2 - 2)) = 1.
Proof. replace (ln 2 * (2 - 2)) with 0 by ring. apply exp_0. Qed.

Lemma sample_maxval : KS.maxval [0; 0; 2; 1; 1] = 2.
Proof.
  unfold KS.maxval. cbn [head default foldr].
  unfold Datatypes.id, Rmax. repeat destruct (Rle_dec _ _); lra.
Qed.

(** The KS weights of the failure ratios [0, 0, 2, 1, 1] at sharpness
    [ln 2]. *)
Lemma sample_ks_sens :
  KS.ksAggregationSens [0; 0; 2; 1; 1] 5 (ln 2)
  = (KS.ksAggregation [0; 0; 2; 1; 1] 5 (ln 2),
     [/ 10; / 10; 2 / 5; / 5; / 5]).
Proof.
  unfold KS.ksAggregationSens. f_equal.
  change (take 5 [0; 0; 2; 1; 1]) with [0; 0; 2; 1; 1].
  unfold KS.terms. rewrite sample_maxval.
  cbn [fmap list_fmap]. rewrite exp_ln2_m2, exp_ln2_0, exp_ln2_m1.
  unfold sum_list. cbn [foldr].
  repeat (apply (f_equal2 cons); [lra|]). reflexivity.
Qed.

Lemma sample_pow_quarter : libm.pow (1 * 1 * 1 * 1) 0.25 = 1.
Proof.
  unfold libm.pow. rewrite decide_True by lra.
  unfold Rpower. replace (1 * 1 * 1 * 1) with 1 by lra.
  rewrite ln_1, Rmult_0_r. apply exp_0.
Qed.

Lemma sample_A : take 6 Sample.stiffness = [1; 0; 0; 1; 0; 1].
Proof. reflexivity. Qed.

Lemma sample_D : take 6 (drop 12 Sample.stiffness) = [1; 0; 0; 1; 0; 1].
Proof. reflexivity. Qed.

Lemma sample_As : take 6 Sample.stiffener_stiffness = [1; 0; 0; 1; 0; 1].
Proof. reflexivity. Qed.

Lemma sample_Ds :
  take 6 (drop 12 Sample.stiffener_stiffness) = [1; 1; 0; 1; 0; 1].
Proof. reflexivity. Qed.

Lemma sample_delta :
  computeStiffenerAreaRatio (H := Sample.methods) Sample.shell = 1.
Proof. unfold computeStiffenerAreaRatio. simpl. lra. Qed.

Lemma sample_N1CritGlobal (rho_0 xi gamma zeta : R) :
  computeCriticalGlobalAxialLoad 3 Sample.shell 1 1 1 1 rho_0 xi gamma zeta
  = PI * PI / 2.
Proof.
  unfold computeCriticalGlobalAxialLoad.
  change (getAxialGP Sample.shell) with (Some (Sample.axialGP 0)).
  cbv iota beta zeta.
  rewrite sample_predictMean, exp_0. literals. unfold libm.M_PI.
  replace (1 * 1) with 1 by lra. rewrite sqrt_1. lra.
Qed.

Lemma sample_N12CritGlobal (fuel : nat) (xi rho_0 gamma zeta : R) :
  computeCriticalGlobalShearLoad fuel Sample.shell 1 1 1 xi rho_0 gamma zeta
  = Some (PI * PI).
Proof.
  unfold computeCriticalGlobalShearLoad.
  change (getShearGP Sample.shell) with (Some (Sample.axialGP 0)).
  cbv iota beta zeta.
  rewrite sample_predictMean, exp_0, sample_pow_quarter. unfold libm.M_PI.
  f_equal. lra.
Qed.

Lemma sample_N1CritLocal (rho_0 xi zeta : R) :
  computeCriticalLocalAxialLoad 3 Sample.shell 1 1 rho_0 xi zeta = PI * PI.
Proof.
  unfold computeCriticalLocalAxialLoad.
  change (getAxialGP Sample.shell) with (Some (Sample.axialGP 0)).
  cbv iota beta zeta.
  rewrite sample_predictMean, exp_0. unfold libm.M_PI.
  change (Base.stiffenerPitch (base Sample.shell)) with 1.
  replace (1 * 1) with 1 by lra. rewrite sqrt_1. lra.
Qed.

Lemma sample_N12CritLocal (fuel : nat) (xi rho_0 zeta : R) :
  computeCriticalLocalShearLoad fuel Sample.shell 1 1 xi rho_0 zeta
  = Some (PI * PI).
Proof.
  unfold computeCriticalLocalShearLoad.
  change (getShearGP Sample.shell) with (Some (Sample.axialGP 0)).
  cbv iota beta zeta.
  rewrite sample_predictMean, exp_0, sample_pow_quarter. unfold libm.M_PI.
  change (Base.stiffenerPitch (base Sample.shell)) with 1.
  f_equal. lra.
Qed.

Lemma sample_N1CritCrippling (xi rho_0 genPoiss zeta : R) :
  computeStiffenerCripplingLoad Sample.shell 1 1 xi rho_0 genPoiss zeta
  = PI * PI.
Proof.
  unfold computeStiffenerCripplingLoad.
  change (getCripplingGP Sample.shell) with (Some (Sample.axialGP 0)).
  cbv iota beta zeta.
  rewrite sample_predictMean, exp_0. unfold libm.M_PI.
  change (Base.stiffenerHeight (base Sample.shell)) with 1.
  replace (1 * 1) with 1 by lra. rewrite sqrt_1. lra.
Qed.

(** The nondimensional parameters of the sample shell: every argument
    of a logarithm is positive and every divisor is non-zero.  The panel
    has [D11 = D22 = D66 = 1] and [D12 = 0], the stiffener [D12 = 1]. *)
Lemma sample_parameters :
  computeAffineAspectRatio 1 1 1 1 = 1
  /\ computeGeneralizedRigidity 1 1 0 1 = 2
  /\ computeStiffenerStiffnessRatio (H := Sample.methods) Sample.shell 1 = 1
  /\ computeTransverseShearParameter 1 1 1 1 = 1
  /\ computeGeneralizedRigidity 1 1 1 1 = 3
  /\ computeGeneralizedPoissonsRatio 1 1 = 3.
Proof.
  unfold computeAffineAspectRatio, computeGeneralizedRigidity,
    computeStiffenerStiffnessRatio, computeTransverseShearParameter,
    computeGeneralizedPoissonsRatio.
  assert (libm.pow (1 / 1) 0.25 = 1) as Hpow.
  { unfold libm.pow. rewrite decide_True by lra.
    unfold Rpower. replace (1 / 1) with 1 by lra.
    rewrite ln_1, Rmult_0_r. apply exp_0. }
  replace (1 * 1) with 1 by lra. rewrite sqrt_1, Hpow. simpl.
  repeat split; lra.
Qed.

(** The forward part of the evaluation on the sample shell: the
    collaborators, the stiffness entries, the geometry and the critical
    loads. *)
Ltac sample_forward :=
  cbn [Base.computePanelFailure Base.computeStiffenerFailure
       Base.evalPanelFailureStrainSens Base.transformStrain
       Base.evalStiffenerFailureStrainSens Base.transformStrainSens
       Base.computePanelStiffness Base.extractTangentStiffness
       Base.computePanelStress Base.computeStiffenerStiffness
       Base.computeStiffenerStress Base.bucklingEnvelope
       Base.bucklingEnvelopeSens Sample.methods];
  rewrite sample_A, sample_D, ?sample_As, ?sample_Ds;
  change (Base.panelLength (base Sample.shell)) with 1;
  change (Base.panelThick (base Sample.shell)) with 1;
  change (Base.stiffenerHeight (base Sample.shell)) with 1;
  change (Base.stiffenerThick (base Sample.shell)) with 1;
  change (Base.ksWeight (base Sample.shell)) with (ln 2);
  change (panelWidth Sample.shell) with 1;
  change ([1; 0; 0; 1; 0; 1] !!! 0%nat) with 1;
  change ([1; 0; 0; 1; 0; 1] !!! 1%nat) with 0;
  change ([1; 0; 0; 1; 0; 1] !!! 2%nat) with 0;
  change ([1; 0; 0; 1; 0; 1] !!! 3%nat) with 1;
  change ([1; 0; 0; 1; 0; 1] !!! 4%nat) with 0;
  change ([1; 0; 0; 1; 0; 1] !!! 5%nat) with 1;
  change ([1; 1; 0; 1; 0; 1] !!! 0%nat) with 1;
  change ([1; 1; 0; 1; 0; 1] !!! 1%nat) with 1;
  change ([1; 1; 0; 1; 0; 1] !!! 3%nat) with 1;
  change ([1; 1; 0; 1; 0; 1] !!! 5%nat) with 1;
  rewrite sample_delta;
  rewrite sample_N12CritGlobal; cbn [mbind option_bind];
  rewrite sample_N12CritLocal; cbn [mbind option_bind];
  rewrite ?sample_N1CritGlobal, ?sample_N1CritLocal, ?sample_N1CritCrippling;
  change (take 6 Sample.strain !!! 0%nat) with (- (PI * PI));
  change (Sample.strain !!! 0%nat) with (- (PI * PI));
  change (Sample.strain !!! 2%nat) with 0;
  replace (- - (PI * PI) / (PI * PI / 2) + 0 / (PI * PI) * (0 / (PI * PI)))
    with 2 by (field; pose proof PI_RGT_0; lra);
  replace (- - (PI * PI) / (PI * PI) + 0 / (PI * PI) * (0 / (PI * PI)))
    with 1 by (field; pose proof PI_RGT_0; lra);
  replace (- - (PI * PI) / (PI * PI)) with 1
    by (field; pose proof PI_RGT_0; lra);
  change NUM_FAILURES with 5%nat.

(** The five failure ratios of the sample shell under the sample strain:
    the global-buckling ratio is [fails[2] = 2], the local-buckling
    ratio is [fails[3] = 1]. *)
Lemma sample_computeFailureValues (fuel : nat) :
  computeFailureValues (H := Sample.methods) 3 fuel Sample.shell Sample.strain
  = Some ([0; 0; 2; 1; 1], KS.ksAggregation [0; 0; 2; 1; 1] 5 (ln 2)).
Proof. unfold computeFailureValues. sample_forward. reflexivity. Qed.

Lemma sample_evalFailureStrainSens (fuel : nat) :
  evalFailureStrainSens (H := Sample.methods) 9 3 fuel Sample.shell
    Sample.strain (replicate 9 0)
  = Some (KS.ksAggregation [0; 0; 2; 1; 1] 5 (ln 2),
          [/ 10 * 0 + / 10 * 0
           + (1 / (PI * PI) * (2 / 5) * - (1)
              + 2 * 0 / (PI * PI * (PI * PI)) * (2 / 5) * 0)
           + (1 / (PI * PI / 2) * / 5 * - (1)
              + 2 * 0 / (PI * PI * (PI * PI)) * / 5 * 0)
           + / 5 / (PI * PI) * - (1);
           / 10 * 0 + / 10 * 0
           + (1 / (PI * PI) * (2 / 5) * - 0
              + 2 * 0 / (PI * PI * (PI * PI)) * (2 / 5) * 0)
           + (1 / (PI * PI / 2) * / 5 * - 0
              + 2 * 0 / (PI * PI * (PI * PI)) * / 5 * 0)
           + / 5 / (PI * PI) * - 0;
           / 10 * 0 + / 10 * 0
           + (1 / (PI * PI) * (2 / 5) * - 0
              + 2 * 0 / (PI * PI * (PI * PI)) * (2 / 5) * 1)
           + (1 / (PI * PI / 2) * / 5 * - 0
              + 2 * 0 / (PI * PI * (PI * PI)) * / 5 * 1)
           + / 5 / (PI * PI) * - 0;
           / 10 * 0 + / 10 * 0; / 10 * 0 + / 10 * 0; / 10 * 0 + / 10 * 0;
           / 10 * 0 + / 10 * 0; / 10 * 0 + / 10 * 0; / 10 * 0 + / 10 * 0]).
Proof.
  unfold evalFailureStrainSens. sample_forward.
  rewrite sample_ks_sens. cbv beta iota zeta.
  change ([/ 10; / 10; 2 / 5; / 5; / 5] !!! 0%nat) with (/ 10).
  change ([/ 10; / 10; 2 / 5; / 5; / 5] !!! 1%nat) with (/ 10).
  change ([/ 10; / 10; 2 / 5; / 5; / 5] !!! 2%nat) with (2 / 5).
  change ([/ 10; / 10; 2 / 5; / 5; / 5] !!! 3%nat) with (/ 5).
  change ([/ 10; / 10; 2 / 5; / 5; / 5] !!! 4%nat) with (/ 5).
  reflexivity.
Qed.

End SampleEvaluation.

(** ** The failure evaluator: strain sensitivities *)

(** C1 fails on the source.  On the sample shell every nondimensional
    parameter is a positive real number (the logarithms are taken at
    [xi = 2], [rho_0 = 1], [1 + gamma = 2], [zeta = 1] for the panel and
    at [xi = 3], [rho_0 = 1], [genPoiss = 3], [zeta = 1] for the
    stiffener), the global-buckling ratio is [fails[2] = 2] with KS
    weight [2/5] and the local-buckling ratio is [fails[3] = 1] with KS
    weight [1/5]; the buckling envelope gives
    [N1GlobalSens = 1/(pi^2/2)] and [N1LocalSens = 1/pi^2], and
    [Ap[0] = 1].  [evalFailureStrainSens] scales the local sensitivity by
    [dKSdf[2]] and the global one by [dKSdf[3]], so [sens[0]] is
    [-(N1LocalSens 2/5 + N1GlobalSens 1/5)] plus the crippling term, and
    not [-(N1GlobalSens 2/5 + N1LocalSens 1/5)] plus that term. *)
Theorem evalFailureStrainSens_exchanges_buckling_weights :
  exists (fail : R) (sens : list R),
    (computeGeneralizedRigidity 1 1 0 1 = 2
     /\ computeAffineAspectRatio 1 1 1 1 = 1
     /\ computeStiffenerStiffnessRatio (H := Sample.methods) Sample.shell 1
        = 1
     /\ computeTransverseShearParameter 1 1 1 1 = 1
     /\ computeGeneralizedRigidity 1 1 1 1 = 3
     /\ computeGeneralizedPoissonsRatio 1 1 = 3)
    /\ computeFailureValues (H := Sample.methods) 3 0 Sample.shell
         Sample.strain
       = Some ([0; 0; 2; 1; 1], fail)
    /\ KS.ksAggregationSens [0; 0; 2; 1; 1] NUM_FAILURES (ln 2)
       = (fail, [/ 10; / 10; 2 / 5; / 5; / 5])
    /\ evalFailureStrainSens (H := Sample.methods) 9 3 0 Sample.shell
         Sample.strain (replicate 9 0)
       = Some (fail, sens)
    /\ sens !!! 0%nat
       = (1 / (PI * PI) * (2 / 5) + 1 / (PI * PI / 2) * (/ 5)) * - (1)
         + / 5 / (PI * PI) * - (1)
    /\ sens !!! 0%nat
       <> (1 / (PI * PI / 2) * (2 / 5) + 1 / (PI * PI) * (/ 5)) * - (1)
          + / 5 / (PI * PI) * - (1).
Proof.
  eexists. eexists.
  split; [pose proof sample_parameters; tauto|].
  split; [apply sample_computeFailureValues|].
  split; [apply sample_ks_sens|].
  split; [apply sample_evalFailureStrainSens|].
  cbn [lookup_total list_lookup_total].
  assert (0 < PI * PI) as Hpi by (pose proof PI_RGT_0; nra).
  assert (1 / (PI * PI / 2) = 2 * / (PI * PI)) as ->
    by (field; pose proof PI_RGT_0; lra).
  assert (0 < / (PI * PI)) as Hinv by now apply Rinv_0_lt_compat.
  unfold Rdiv. rewrite !Rinv_mult. rewrite Rinv_mult in Hinv.
  set (q := / PI * / PI) in *.
  split; [lra | intros Heq; lra].
Qed.

(** The sample collaborators satisfy the hypotheses of C9; both
    functions return the same aggregate on the sample shell. *)
Lemma evalFailureStrainSens_returns_failure_value_witness :
  (forall (b : Base.t) (e : list R),
     (Base.evalPanelFailureStrainSens (Methods := Sample.methods) b e).1
     = Base.computePanelFailure (Methods := Sample.methods) b e)
  /\ (forall (b : Base.t) (e : list R),
        (Base.evalStiffenerFailureStrainSens (Methods := Sample.methods) b e).1
        = Base.computeStiffenerFailure (Methods := Sample.methods) b e)
  /\ (forall (b : Base.t) (N1 N1Crit N12 N12Crit : R),
        (Base.bucklingEnvelopeSens (Methods := Sample.methods) b N1 N1Crit
           N12 N12Crit).1
        = Base.bucklingEnvelope (Methods := Sample.methods) b N1 N1Crit N12
            N12Crit)
  /\ fst <$> evalFailureStrainSens (H := Sample.methods) 9 3 0 Sample.shell
               Sample.strain (replicate 9 0)
     = snd <$> computeFailureValues (H := Sample.methods) 3 0 Sample.shell
                 Sample.strain.
Proof.
  split; [reflexivity|]. split; [reflexivity|]. split; [reflexivity|].
  apply (evalFailureStrainSens_returns_failure_value (M := Sample.methods));
    reflexivity.
Defined.

(** ** The design-variable sensitivity of the crippling ratio *)

Section StiffenerStress.

Context {M : Base.Methods}.

(** Where the stiffener-stress contribution of [addFailureDVSens] lands:
    what [addStiffenerStressDVSens] does to its slot [j] shows in
    [dfdx[panelDVStartNum + j]], and nothing below [panelDVStartNum]
    changes. *)
Lemma addFailureDVSens_stiffenerStress_lands
    (NUM_STRESSES : nat) (this : t) (scale : R) (strain : list R)
    (stiffN1sens : R) (dfdx : list R) :
  (Base.panelDVStartNum (base this) <= length dfdx)%nat ->
  (forall j : nat,
     addFailureDVSens_stiffenerStress NUM_STRESSES this scale strain
       stiffN1sens dfdx !!! (Base.panelDVStartNum (base this) + j)%nat
     = Base.addStiffenerStressDVSens (base this) scale strain
         (<[0%nat := - stiffN1sens]> (replicate NUM_STRESSES 0))
         (drop (Base.panelDVStartNum (base this)) dfdx) !!! j)
  /\ (forall i : nat,
        (i < Base.panelDVStartNum (base this))%nat ->
        addFailureDVSens_stiffenerStress NUM_STRESSES this scale strain
          stiffN1sens dfdx !!! i = dfdx !!! i).
Proof.
  intros Hlen. unfold addFailureDVSens_stiffenerStress. split.
  - intros j. now apply at_offset_above.
  - intros i Hi. now apply at_offset_below.
Qed.

End StiffenerStress.

(** C3 fails on the source.  On the sample shell the panel sub-block
    starts at index [2] and the stiffener sub-block at index [3], and
    the sample [addStiffenerStressDVSens] adds into its slot [0].  The
    call in [addFailureDVSens] hands it [&dfdx[panelDVStartNum]]: the
    contribution lands in [dfdx[2]], inside the panel sub-block, and the
    stiffener sub-block is left as it was; handed
    [&dfdx[stiffenerDVStartNum]] it would land in [dfdx[3]]. *)
Theorem addFailureDVSens_stiffenerStress_writes_panel_block :
  Base.panelDVStartNum (base Sample.shell) = 2%nat
  /\ Base.stiffenerDVStartNum (base Sample.shell) = 3%nat
  /\ addFailureDVSens_stiffenerStress (H := Sample.methods) 9 Sample.shell 1
       Sample.strain 1 [0; 0; 0; 0; 0; 0]
     = [0; 0; 0 + 1 * - (1); 0; 0; 0]
  /\ at_offset (Base.stiffenerDVStartNum (base Sample.shell))
       (Base.addStiffenerStressDVSens (Methods := Sample.methods)
          (base Sample.shell) 1 Sample.strain
          (<[0%nat := - (1)]> (replicate 9 0)))
       [0; 0; 0; 0; 0; 0]
     = [0; 0; 0; 0 + 1 * - (1); 0; 0].
Proof. repeat split; reflexivity. Qed.

(** ** The sensitivity of the surrogate mean *)

Section MeanSensitivity.

(** Whatever the caller's buffer of [n_param] entries holds is erased by
    the [memset] of [predictMeanTestDataSens]. *)
Lemma predictMeanTestDataSens_ignores_contents
    (gp : GP.t) (Ysens : R) (Xtest acc : list R) :
  length acc = GP.n_param gp ->
  GP.predictMeanTestDataSens gp Ysens Xtest acc
  = GP.predictMeanTestDataSens gp Ysens Xtest (replicate (GP.n_param gp) 0).
Proof.
  intros Hlen. unfold GP.predictMeanTestDataSens.
  rewrite (memset0_all _ acc) by exact Hlen.
  rewrite (memset0_all _ (replicate _ _)) by apply length_replicate.
  reflexivity.
Qed.

Variables soft_relu soft_abs soft_relu_sens soft_abs_sens : R -> R -> R.
Variable ks : R.

#[local] Abbreviation axial_kernelSens :=
  (TACSAxialGaussianProcessModel.kernelSens soft_relu soft_abs soft_relu_sens
     soft_abs_sens ks).
#[local] Abbreviation axial_jacobian :=
  (TACSAxialGaussianProcessModel.jacobian soft_relu soft_abs soft_relu_sens
     soft_abs_sens ks).

Lemma length_axial_kernelSens (ksens : R) (Xtest Xtrain a : list R) :
  length (axial_kernelSens ksens Xtest Xtrain a) = length a.
Proof.
  unfold TACSAxialGaussianProcessModel.kernelSens. cbn [foldl seq].
  now rewrite !length_add_to.
Qed.

(** The axial [kernelSens] adds [ksens * jacobian[ii]] into the slots
    [0] to [3]. *)
Lemma axial_kernelSens_adds (ksens : R) (Xtest Xtrain a : list R) (j : nat) :
  (4 <= length a)%nat -> (j < 4)%nat ->
  axial_kernelSens ksens Xtest Xtrain a !!! j
  = a !!! j + ksens * axial_jacobian Xtest Xtrain !!! j.
Proof.
  intros Hlen Hj. unfold TACSAxialGaussianProcessModel.kernelSens.
  generalize (axial_jacobian Xtest Xtrain). intros J. cbn [foldl seq].
  destruct j as [|[|[|[|j]]]]; [| | | |lia].
  - rewrite !add_to_lookup_ne by lia. apply add_to_lookup. lia.
  - rewrite !add_to_lookup_ne by lia.
    rewrite add_to_lookup by (rewrite !length_add_to; lia).
    now rewrite add_to_lookup_ne by lia.
  - rewrite add_to_lookup_ne by lia.
    rewrite add_to_lookup by (rewrite !length_add_to; lia).
    now rewrite !add_to_lookup_ne by lia.
  - rewrite add_to_lookup by (rewrite !length_add_to; lia).
    now rewrite !add_to_lookup_ne by lia.
Qed.

Variable gp : GP.t.
Hypothesis gp_axial :
  GP.methods gp
  = TACSAxialGaussianProcessModel.methods soft_relu soft_abs soft_relu_sens
      soft_abs_sens ks.

(** The loop over the training points, from any buffer [a]. *)
Lemma predictMeanTestDataSens_loop
    (Ysens : R) (Xtest : list R) (l : list nat) (Y : R) (a : list R) :
  (4 <= length a)%nat ->
  let r :=
    foldl
      (fun '(Ytest, Xtestsens) itrain =>
         (Ytest
          + GP.kernel (GP.methods gp) Xtest (GP.loc_Xtrain gp itrain)
            * (GP.alpha gp !!! itrain),
          GP.kernelSens (GP.methods gp) (Ysens * (GP.alpha gp !!! itrain))
            Xtest (GP.loc_Xtrain gp itrain) Xtestsens))
      (Y, a) l in
  length r.2 = length a
  /\ forall j : nat, (j < 4)%nat ->
       r.2 !!! j
       = a !!! j
         + sum_list
             ((fun i => Ysens * (GP.alpha gp !!! i)
                        * axial_jacobian Xtest (GP.loc_Xtrain gp i) !!! j)
              <$> l).
Proof.
  assert (forall k x xt b,
            GP.kernelSens (GP.methods gp) k x xt b
            = axial_kernelSens k x xt b) as Hks
    by (intros; now rewrite gp_axial).
  revert Y a. induction l as [|i l IH]; intros Y a Hlen; cbn [foldl].
  - split; [reflexivity|]. intros j _. cbn. lra.
  - rewrite Hks.
    match goal with
    | |- context [foldl _ (?y, ?b) l] => destruct (IH y b) as [IHlen IHval]
    end.
    { rewrite length_axial_kernelSens. exact Hlen. }
    split.
    + rewrite IHlen. apply length_axial_kernelSens.
    + intros j Hj. rewrite (IHval j Hj).
      rewrite axial_kernelSens_adds by assumption.
      cbn [fmap list_fmap]. unfold sum_list at 2. cbn [foldr].
      fold (sum_list
              ((fun i => Ysens * (GP.alpha gp !!! i)
                         * axial_jacobian Xtest (GP.loc_Xtrain gp i) !!! j)
               <$> l)).
      lra.
Qed.

(** One call on a buffer of four entries: the result holds the weighted
    gradient sum and nothing of the buffer. *)
Lemma predictMeanTestDataSens_call (Ysens : R) (Xtest b : list R) :
  GP.n_param gp = 4%nat ->
  length b = 4%nat ->
  length (GP.predictMeanTestDataSens gp Ysens Xtest b).2 = 4%nat
  /\ forall j : nat, (j < 4)%nat ->
       (GP.predictMeanTestDataSens gp Ysens Xtest b).2 !!! j
       = sum_list
           ((fun i => Ysens * (GP.alpha gp !!! i)
                      * axial_jacobian Xtest (GP.loc_Xtrain gp i) !!! j)
            <$> seq 0 (GP.n_train gp)).
Proof.
  intros Hparam Hb. unfold GP.predictMeanTestDataSens.
  rewrite memset0_all by congruence. rewrite Hparam.
  destruct (predictMeanTestDataSens_loop Ysens Xtest
              (seq 0 (GP.n_train gp)) 0 (replicate 4 0))
    as [Hl Hv]; [rewrite length_replicate; lia|].
  split.
  - rewrite Hl. apply length_replicate.
  - intros j Hj. rewrite (Hv j Hj).
    rewrite lookup_total_replicate_2 by exact Hj. lra.
Qed.

(** C2 (as amended).  For a model with the axial kernel and four
    parameters, [predictMeanTestDataSens] sets the four slots of
    [Xtestsens]: it zeroes them and then lets [kernelSens] add, per
    training point, [Ysens * alpha[i]] times the kernel gradient.  The
    result is [Ysens * sum_i alpha[i] * jacobian(Xtest, Xtrain row i)],
    whatever the buffer held, and invoking the routine twice with the
    same upstream scalar gives exactly the single-call result.  The axial
    [kernelSens] itself adds [ksens * jacobian[ii]] to slot [ii] without
    overwriting. *)
Theorem predictMeanTestDataSens_sets_gradient
    (Ysens : R) (Xtest acc : list R) :
  GP.n_param gp = 4%nat ->
  length acc = 4%nat ->
  (forall j : nat, (j < 4)%nat ->
     (GP.predictMeanTestDataSens gp Ysens Xtest acc).2 !!! j
     = sum_list
         ((fun i => Ysens * (GP.alpha gp !!! i)
                    * axial_jacobian Xtest (GP.loc_Xtrain gp i) !!! j)
          <$> seq 0 (GP.n_train gp)))
  /\ GP.predictMeanTestDataSens gp Ysens Xtest
       (GP.predictMeanTestDataSens gp Ysens Xtest acc).2
     = GP.predictMeanTestDataSens gp Ysens Xtest acc
  /\ (forall (ksens : R) (Xtrain a : list R) (j : nat),
        length a = 4%nat -> (j < 4)%nat ->
        GP.kernelSens (GP.methods gp) ksens Xtest Xtrain a !!! j
        = a !!! j + ksens * axial_jacobian Xtest Xtrain !!! j).
Proof.
  intros Hparam Hlen.
  destruct (predictMeanTestDataSens_call Ysens Xtest acc Hparam Hlen)
    as [Hl Hv].
  split; [exact Hv|]. split.
  - rewrite predictMeanTestDataSens_ignores_contents by congruence.
    symmetry. apply predictMeanTestDataSens_ignores_contents. congruence.
  - intros ksens Xtrain a j Ha Hj. rewrite gp_axial.
    apply axial_kernelSens_adds; [lia | exact Hj].
Qed.

End MeanSensitivity.

Lemma predictMeanTestDataSens_sets_gradient_witness :
  GP.methods (Sample.axialGP 1)
  = TACSAxialGaussianProcessModel.methods Sample.soft_relu Sample.soft_abs
      Sample.soft_relu_sens Sample.soft_abs_sens 10
  /\ GP.n_param (Sample.axialGP 1) = 4%nat
  /\ length [5; 6; 7; 8] = 4%nat
  /\ (forall j : nat, (j < 4)%nat ->
        (GP.predictMeanTestDataSens (Sample.axialGP 1) 1 [0; 0; 0; 0]
           [5; 6; 7; 8]).2 !!! j
        = sum_list
            ((fun i =>
                1 * (GP.alpha (Sample.axialGP 1) !!! i)
                * TACSAxialGaussianProcessModel.jacobian Sample.soft_relu
                    Sample.soft_abs Sample.soft_relu_sens
                    Sample.soft_abs_sens 10 [0; 0; 0; 0]
                    (GP.loc_Xtrain (Sample.axialGP 1) i) !!! j)
             <$> seq 0 (GP.n_train (Sample.axialGP 1))))
  /\ GP.predictMeanTestDataSens (Sample.axialGP 1) 1 [0; 0; 0; 0]
       (GP.predictMeanTestDataSens (Sample.axialGP 1) 1 [0; 0; 0; 0]
          [5; 6; 7; 8]).2
     = GP.predictMeanTestDataSens (Sample.axialGP 1) 1 [0; 0; 0; 0]
         [5; 6; 7; 8]
  /\ (forall (ksens : R) (Xtrain a : list R) (j : nat),
        length a = 4%nat -> (j < 4)%nat ->
        GP.kernelSens (GP.methods (Sample.axialGP 1)) ksens [0; 0; 0; 0]
          Xtrain a !!! j
        = a !!! j
          + ksens
            * TACSAxialGaussianProcessModel.jacobian Sample.soft_relu
                Sample.soft_abs Sample.soft_relu_sens Sample.soft_abs_sens 10
                [0; 0; 0; 0] Xtrain !!! j).
Proof.
  split; [reflexivity|]. split; [reflexivity|]. split; [reflexivity|].
  apply (predictMeanTestDataSens_sets_gradient Sample.soft_relu
           Sample.soft_abs Sample.soft_relu_sens Sample.soft_abs_sens 10
           (Sample.axialGP 1) eq_refl 1 [0; 0; 0; 0] [5; 6; 7; 8]);
    reflexivity.
Defined.

(** The first entry of the axial jacobian at the sample training point
    is positive. *)
Lemma sample_jacobian0_pos :
  0 < TACSAxialGaussianProcessModel.jacobian Sample.soft_relu Sample.soft_abs
        Sample.soft_relu_sens Sample.soft_abs_sens 10 [0; 0; 0; 0]
        [1; 0; 0; 0] !!! 0%nat.
Proof.
  unfold TACSAxialGaussianProcessModel.jacobian.
  cbv zeta. cbn [lookup_total list_lookup_total].
  set (s := Sample.soft_relu (- 0) 10).
  set (f := Sample.soft_relu (1.0 - Sample.soft_abs 0 10) 10).
  pose proof (exp_pos (-0.5 * ((0 - 0) * (0 - 0)) / 0.2 / 0.2)) as He1.
  pose proof (exp_pos (-0.5 * (0 - 0) * (0 - 0) / 3.0 / 3.0)) as He2.
  set (e1 := exp (-0.5 * ((0 - 0) * (0 - 0)) / 0.2 / 0.2)) in *.
  set (e2 := exp (-0.5 * (0 - 0) * (0 - 0) / 3.0 / 3.0)) in *.
  assert (0 <= s * s) as Hs by apply Rle_0_sqr.
  assert (0 <= f * f) as Hf by apply Rle_0_sqr.
  assert (0 <= 0.02 * e1 * f * f) as HA by nra.
  set (A := 0.02 * e1 * f * f) in *.
  assert (1 <= (1.0 + A) * (1.0 + 0.5 * 0 * 0 + 0.1 * e2)) as HB by nra.
  assert (1 <= (1.0 + A) * (1.0 + 0.5 * 0 * 0 + 0.1 * e2)
               * ((1.0 + 0.2 * 0 * 0) * (1.0 + 0.2 * 0 * 0) + 0.1 * e2))
    as HC by nra.
  nra.
Qed.

(** The claim C2 as it was stated fails for [predictMeanTestDataSens]: on
    a zero buffer, a second call with the same upstream scalar leaves
    the first slot at the single-call value, which is not zero, and not
    at twice that value. *)
Lemma predictMeanTestDataSens_twice_counterexample :
  let once :=
    (GP.predictMeanTestDataSens (Sample.axialGP 1) 1 [0; 0; 0; 0]
       [0; 0; 0; 0]).2 in
  let twice :=
    (GP.predictMeanTestDataSens (Sample.axialGP 1) 1 [0; 0; 0; 0] once).2 in
  twice !!! 0%nat = once !!! 0%nat
  /\ twice !!! 0%nat <> 2 * once !!! 0%nat.
Proof.
  cbv zeta.
  destruct (predictMeanTestDataSens_call Sample.soft_relu Sample.soft_abs
              Sample.soft_relu_sens Sample.soft_abs_sens 10
              (Sample.axialGP 1) eq_refl 1 [0; 0; 0; 0] [0; 0; 0; 0]
              eq_refl eq_refl) as [Hl1 Hv1].
  destruct (predictMeanTestDataSens_call Sample.soft_relu Sample.soft_abs
              Sample.soft_relu_sens Sample.soft_abs_sens 10
              (Sample.axialGP 1) eq_refl 1 [0; 0; 0; 0]
              (GP.predictMeanTestDataSens (Sample.axialGP 1) 1 [0; 0; 0; 0]
                 [0; 0; 0; 0]).2 eq_refl Hl1) as [_ Hv2].
  rewrite (Hv2 0%nat) by lia. rewrite (Hv1 0%nat) by lia.
  split; [reflexivity|].
  cbn [Sample.axialGP GP.n_train GP.alpha seq fmap list_fmap].
  change (GP.loc_Xtrain _ 0) with [1; 0; 0; 0].
  change ([1] !!! 0%nat) with 1.
  unfold sum_list. cbn [foldr].
  pose proof sample_jacobian0_pos as Hpos. lra.
Qed.

(** * Further properties *)

(** ** Derivatives *)

Section DerivativeRules.

Variables (f g : R -> R) (x lf lg : R).

Lemma dl_const (c : R) : derivable_pt_lim (fun _ => c) x 0.
Proof. exact (derivable_pt_lim_const c x). Qed.

Lemma dl_id : derivable_pt_lim (fun z => z) x 1.
Proof. exact (derivable_pt_lim_id x). Qed.

Lemma dl_plus :
  derivable_pt_lim f x lf -> derivable_pt_lim g x lg ->
  derivable_pt_lim (fun z => f z + g z) x (lf + lg).
Proof. exact (derivable_pt_lim_plus f g x lf lg). Qed.

Lemma dl_minus :
  derivable_pt_lim f x lf -> derivable_pt_lim g x lg ->
  derivable_pt_lim (fun z => f z - g z) x (lf - lg).
Proof. exact (derivable_pt_lim_minus f g x lf lg). Qed.

Lemma dl_opp :
  derivable_pt_lim f x lf -> derivable_pt_lim (fun z => - f z) x (- lf).
Proof. exact (derivable_pt_lim_opp f x lf). Qed.

Lemma dl_mult :
  derivable_pt_lim f x lf -> derivable_pt_lim g x lg ->
  derivable_pt_lim (fun z => f z * g z) x (lf * g x + f x * lg).
Proof. exact (derivable_pt_lim_mult f g x lf lg). Qed.

Lemma dl_div :
  derivable_pt_lim f x lf -> derivable_pt_lim g x lg -> g x <> 0 ->
  derivable_pt_lim (fun z => f z / g z) x
    ((lf * g x - lg * f x) / Rsqr (g x)).
Proof. exact (derivable_pt_lim_div f g x lf lg). Qed.

Lemma dl_exp :
  derivable_pt_lim f x lf ->
  derivable_pt_lim (fun z => exp (f z)) x (exp (f x) * lf).
Proof.
  intros Hf.
  exact (derivable_pt_lim_comp f exp x lf (exp (f x)) Hf
           (derivable_pt_lim_exp (f x))).
Qed.

Lemma dl_sqrt :
  derivable_pt_lim f x lf -> 0 < f x ->
  derivable_pt_lim (fun z => sqrt (f z)) x (/ (2 * sqrt (f x)) * lf).
Proof.
  intros Hf Hpos.
  exact (derivable_pt_lim_comp f sqrt x lf _ Hf
           (derivable_pt_lim_sqrt (f x) Hpos)).
Qed.

Lemma dl_ln :
  derivable_pt_lim f x lf -> 0 < f x ->
  derivable_pt_lim (fun z => ln (f z)) x (/ f x * lf).
Proof.
  intros Hf Hpos.
  exact (derivable_pt_lim_comp f ln x lf _ Hf
           (derivable_pt_lim_ln (f x) Hpos)).
Qed.

Lemma dl_value (l : R) :
  derivable_pt_lim f x lf -> lf = l -> derivable_pt_lim f x l.
Proof. now intros Hf <-. Qed.

End DerivativeRules.

(** Differentiates a function built from constants, the variable, the
    field operations and [exp]; divisions and square roots leave their
    side conditions. *)
Ltac differentiate :=
  first
    [ apply dl_const
    | apply dl_id
    | eapply dl_plus; differentiate
    | eapply dl_minus; differentiate
    | eapply dl_opp; differentiate
    | eapply dl_mult; differentiate
    | eapply dl_exp; differentiate
    | eapply dl_div; [differentiate | differentiate | ]
    | eapply dl_sqrt; [differentiate | ]
    | eapply dl_ln; [differentiate | ] ].

Lemma dl_sum_list {A : Type} (F : A -> R -> R) (F' : A -> R) (l : list A)
    (x : R) :
  (forall a : A, derivable_pt_lim (F a) x (F' a)) ->
  derivable_pt_lim (fun z => sum_list ((fun a => F a z) <$> l)) x
    (sum_list (F' <$> l)).
Proof.
  intros HF. induction l as [|a l IH]; cbn [fmap list_fmap sum_list foldr].
  - apply dl_const.
  - apply dl_plus; [apply HF | exact IH].
Qed.

Lemma sum_list_scal {A : Type} (c : R) (F : A -> R) (l : list A) :
  c * sum_list (F <$> l) = sum_list ((fun a => c * F a) <$> l).
Proof.
  induction l as [|a l IH]; cbn [fmap list_fmap sum_list foldr]; [lra|].
  fold (sum_list (F <$> l)). fold (sum_list ((fun a => c * F a) <$> l)).
  rewrite <- IH. lra.
Qed.

(** ** The regression model *)

Section MeanValue.

(** X1.  For every kernel, [predictMeanTestDataSens] returns the value
    that [predictMeanTestData] returns at the same test point, whatever
    the upstream scalar and the buffer are. *)
Theorem predictMeanTestDataSens_returns_mean
    (gp : GP.t) (Ysens : R) (Xtest Xtestsens : list R) :
  (GP.predictMeanTestDataSens gp Ysens Xtest Xtestsens).1
  = GP.predictMeanTestData gp Xtest.
Proof.
  unfold GP.predictMeanTestDataSens, GP.predictMeanTestData.
  generalize (memset0 (GP.n_param gp) Xtestsens) as a.
  generalize 0 as Y. generalize (seq 0 (GP.n_train gp)) as l.
  induction l as [|i l IH]; intros Y a; cbn [foldl]; [reflexivity|].
  apply IH.
Qed.

End MeanValue.

Section AxialKernel.

Variables soft_relu soft_abs : R -> R -> R.
Variable ks : R.

(** X2.  The axial kernel is symmetric in its two points. *)
Theorem axial_kernel_symmetric (X Y : list R) :
  TACSAxialGaussianProcessModel.kernel soft_relu soft_abs ks X Y
  = TACSAxialGaussianProcessModel.kernel soft_relu soft_abs ks Y X.
Proof.
  unfold TACSAxialGaussianProcessModel.kernel. cbv zeta.
  replace ((Y !!! 1%nat - X !!! 1%nat) * (Y !!! 1%nat - X !!! 1%nat))
    with ((X !!! 1%nat - Y !!! 1%nat) * (X !!! 1%nat - Y !!! 1%nat)) by ring.
  replace (-0.5 * (Y !!! 2%nat - X !!! 2%nat) * (Y !!! 2%nat - X !!! 2%nat))
    with (-0.5 * (X !!! 2%nat - Y !!! 2%nat) * (X !!! 2%nat - Y !!! 2%nat))
    by ring.
  replace (-0.5 * (Y !!! 3%nat - X !!! 3%nat) * (Y !!! 3%nat - X !!! 3%nat))
    with (-0.5 * (X !!! 3%nat - Y !!! 3%nat) * (X !!! 3%nat - Y !!! 3%nat))
    by ring.
  ring.
Qed.

End AxialKernel.

Lemma lit_m0_5 : -0.5 = - / 2. Proof. lra. Qed.

Section AxialGradient.

Variables soft_relu soft_abs soft_relu_sens soft_abs_sens : R -> R -> R.
Variable ks : R.

#[local] Abbreviation axial_kernel :=
  (TACSAxialGaussianProcessModel.kernel soft_relu soft_abs ks).
#[local] Abbreviation axial_jacobian :=
  (TACSAxialGaussianProcessModel.jacobian soft_relu soft_abs soft_relu_sens
     soft_abs_sens ks).

(** The directions that do not pass through the smooth relu and abs. *)
Lemma axial_kernel_partial_free (X T : list R) (j : nat) (x : R) :
  (4 <= length X)%nat -> j = 0%nat \/ j = 2%nat \/ j = 3%nat ->
  derivable_pt_lim (fun z => axial_kernel (with_entry j z X) T) x
    (axial_jacobian (with_entry j x X) T !!! j).
Proof.
  intros Hlen Hj.
  destruct X as [|e0 [|e1 [|e2 [|e3 rest]]]]; try (cbn in Hlen; lia).
  clear Hlen.
  unfold with_entry, TACSAxialGaussianProcessModel.kernel,
    TACSAxialGaussianProcessModel.jacobian.
  destruct Hj as [-> | [-> | ->]];
    cbn [lookup_total list_lookup_total insert list_insert]; cbv zeta.
  - eapply dl_value; [differentiate|]. cbv beta. ring.
  - eapply dl_value; [differentiate|]. cbv beta.
    rewrite !lit_m0_5, !lit_3_0. field.
  - eapply dl_value; [differentiate|]. cbv beta.
    rewrite !lit_m0_5, !lit_3_0, !lit_2_0. field.
Qed.

(** X3.  The entries [0], [2] and [3] of the [jacobian] array of the
    axial [kernelSens] are the partial derivatives of the axial [kernel]
    in [Xtest[0]], [Xtest[2]] and [Xtest[3]], at every test point with
    four entries and for every training point, whatever the smooth relu
    and abs functions are. *)
Theorem axial_jacobian_partials (X T : list R) (j : nat) (x : R) :
  (4 <= length X)%nat -> j = 0%nat \/ j = 2%nat \/ j = 3%nat ->
  derivable_pt_lim (fun z => axial_kernel (with_entry j z X) T) x
    (axial_jacobian (with_entry j x X) T !!! j).
Proof. exact (axial_kernel_partial_free X T j x). Qed.


End AxialGradient.

Section AxialGradientSoft.

Variables soft_relu soft_abs soft_relu_sens soft_abs_sens : R -> R -> R.
Variable ks : R.

#[local] Abbreviation axial_kernel :=
  (TACSAxialGaussianProcessModel.kernel soft_relu soft_abs ks).
#[local] Abbreviation axial_jacobian :=
  (TACSAxialGaussianProcessModel.jacobian soft_relu soft_abs soft_relu_sens
     soft_abs_sens ks).

(** [soft_relu_sens] and [soft_abs_sens] are the derivatives of
    [soft_relu] and [soft_abs] in their first argument. *)
Hypothesis soft_relu_derivative :
  forall u : R,
    derivable_pt_lim (fun z => soft_relu z ks) u (soft_relu_sens u ks).
Hypothesis soft_abs_derivative :
  forall u : R,
    derivable_pt_lim (fun z => soft_abs z ks) u (soft_abs_sens u ks).

Lemma dl_soft_relu (f : R -> R) (x lf : R) :
  derivable_pt_lim f x lf ->
  derivable_pt_lim (fun z => soft_relu (f z) ks) x
    (soft_relu_sens (f x) ks * lf).
Proof.
  intros Hf.
  exact (derivable_pt_lim_comp f (fun z => soft_relu z ks) x lf _ Hf
           (soft_relu_derivative (f x))).
Qed.

Lemma dl_soft_abs (f : R -> R) (x lf : R) :
  derivable_pt_lim f x lf ->
  derivable_pt_lim (fun z => soft_abs (f z) ks) x
    (soft_abs_sens (f x) ks * lf).
Proof.
  intros Hf.
  exact (derivable_pt_lim_comp f (fun z => soft_abs z ks) x lf _ Hf
           (soft_abs_derivative (f x))).
Qed.

Ltac differentiate_soft :=
  first
    [ apply dl_const
    | apply dl_id
    | eapply dl_soft_relu; differentiate_soft
    | eapply dl_soft_abs; differentiate_soft
    | eapply dl_plus; differentiate_soft
    | eapply dl_minus; differentiate_soft
    | eapply dl_opp; differentiate_soft
    | eapply dl_mult; differentiate_soft
    | eapply dl_exp; differentiate_soft ].

(** The direction of [log(rho_0)], which passes through the smooth relu
    and abs. *)
Lemma axial_kernel_partial_rho0 (X T : list R) (x : R) :
  (4 <= length X)%nat ->
  soft_relu (1.0 - soft_abs x ks) ks <> 0 ->
  derivable_pt_lim (fun z => axial_kernel (with_entry 1 z X) T) x
    (axial_jacobian (with_entry 1 x X) T !!! 1%nat).
Proof.
  intros Hlen Hfact.
  destruct X as [|e0 [|e1 [|e2 [|e3 rest]]]]; try (cbn in Hlen; lia).
  clear Hlen.
  unfold with_entry, TACSAxialGaussianProcessModel.kernel,
    TACSAxialGaussianProcessModel.jacobian.
  cbn [lookup_total list_lookup_total insert list_insert]; cbv zeta.
  eapply dl_value; [differentiate_soft|]. cbv beta.
  rewrite !lit_m0_5, !lit_m1_0.
  field. split; [exact Hfact | lra].
Qed.

(** X5.  When [soft_relu_sens] and [soft_abs_sens] are the derivatives
    of [soft_relu] and [soft_abs], entry [1] of the [jacobian] array is
    the partial derivative of the axial [kernel] in [Xtest[1]] at every
    test point where the factor
    [soft_relu(1 - soft_abs(Xtest[1]))], by which the routine divides,
    is not zero. *)
Theorem axial_jacobian_partial_rho0 (X T : list R) (x : R) :
  (4 <= length X)%nat ->
  soft_relu (1.0 - soft_abs x ks) ks <> 0 ->
  derivable_pt_lim (fun z => axial_kernel (with_entry 1 z X) T) x
    (axial_jacobian (with_entry 1 x X) T !!! 1%nat).
Proof. exact (axial_kernel_partial_rho0 X T x). Qed.

Variable gp : GP.t.
Hypothesis gp_axial :
  GP.methods gp
  = TACSAxialGaussianProcessModel.methods soft_relu soft_abs soft_relu_sens
      soft_abs_sens ks.

(** The predicted mean as a function of one entry of the test point. *)
Lemma axial_mean_partial (X : list R) (j : nat) (x : R) :
  (4 <= length X)%nat ->
  (j < 4)%nat ->
  (j = 1%nat -> soft_relu (1.0 - soft_abs x ks) ks <> 0) ->
  derivable_pt_lim
    (fun z => GP.predictMeanTestData gp (with_entry j z X)) x
    (sum_list
       ((fun i =>
           GP.alpha gp !!! i
           * axial_jacobian (with_entry j x X) (GP.loc_Xtrain gp i) !!! j)
        <$> seq 0 (GP.n_train gp))).
Proof.
  intros HX Hj Hfact.
  apply (derivable_pt_lim_ext
           (fun z =>
              sum_list
                ((fun i =>
                    GP.alpha gp !!! i
                    * axial_kernel (with_entry j z X) (GP.loc_Xtrain gp i))
                 <$> seq 0 (GP.n_train gp)))).
  { intros z. rewrite predictMeanTestData_sum, gp_axial. reflexivity. }
  apply (dl_sum_list
           (fun i z =>
              GP.alpha gp !!! i
              * axial_kernel (with_entry j z X) (GP.loc_Xtrain gp i))
           (fun i =>
              GP.alpha gp !!! i
              * axial_jacobian (with_entry j x X) (GP.loc_Xtrain gp i)
                !!! j)).
  intros i. eapply dl_value.
  - apply dl_mult; [apply dl_const|].
    destruct (decide (j = 1%nat)) as [->|Hne].
    + apply axial_kernel_partial_rho0; [exact HX | now apply Hfact].
    + apply axial_kernel_partial_free; [exact HX | lia].
  - cbv beta. ring.
Qed.

(** X6.  For a model with the axial kernel and four parameters, the
    entry [j] that [predictMeanTestDataSens] leaves in [Xtestsens] is the
    partial derivative in [Xtest[j]] of [Ysens] times the predicted
    mean, for each of the four directions [j]; in direction [1] this
    needs the factor [soft_relu(1 - soft_abs(Xtest[1]))] to be non-zero. *)
Theorem predictMeanTestDataSens_is_gradient
    (Ysens : R) (X b : list R) (j : nat) (x : R) :
  GP.n_param gp = 4%nat ->
  length b = 4%nat ->
  (4 <= length X)%nat ->
  (j < 4)%nat ->
  (j = 1%nat -> soft_relu (1.0 - soft_abs x ks) ks <> 0) ->
  derivable_pt_lim
    (fun z => Ysens * GP.predictMeanTestData gp (with_entry j z X)) x
    ((GP.predictMeanTestDataSens gp Ysens (with_entry j x X) b).2 !!! j).
Proof.
  intros Hparam Hb HX Hj Hfact.
  destruct (predictMeanTestDataSens_call soft_relu soft_abs soft_relu_sens
              soft_abs_sens ks gp gp_axial Ysens (with_entry j x X) b
              Hparam Hb) as [_ Hval].
  rewrite (Hval j Hj).
  eapply dl_value.
  - apply dl_mult; [apply dl_const|].
    now apply axial_mean_partial.
  - cbv beta. rewrite Rmult_0_l, Rplus_0_l, sum_list_scal.
    f_equal. apply list_fmap_ext. intros _ i _. ring.
Qed.

(** A surrogate with the axial kernel has the gradient property at
    every test point where the factor of direction [1] is not zero. *)
Lemma axial_sens_is_gradient (X : list R) :
  GP.n_param gp = 4%nat ->
  (4 <= length X)%nat ->
  soft_relu (1.0 - soft_abs (X !!! 1%nat) ks) ks <> 0 ->
  sens_is_gradient gp X.
Proof.
  intros Hparam HX Hfact Ysens j Hj.
  assert (with_entry j (X !!! j) X = X) as Hid.
  { unfold with_entry. apply list_insert_id.
    apply list_lookup_lookup_total_lt. lia. }
  destruct (predictMeanTestDataSens_call soft_relu soft_abs soft_relu_sens
              soft_abs_sens ks gp gp_axial Ysens X
              (replicate (GP.n_param gp) 0) Hparam
              ltac:(rewrite length_replicate; exact Hparam)) as [_ Hval].
  rewrite (Hval j Hj).
  eapply dl_value.
  - apply dl_mult; [apply dl_const|].
    apply axial_mean_partial; [exact HX | exact Hj |].
    intros ->. exact Hfact.
  - cbv beta. rewrite Hid, Rmult_0_l, Rplus_0_l, sum_list_scal.
    f_equal. apply list_fmap_ext. intros _ i _. ring.
Qed.

(** A load [c * exp(mean)] whose test point depends on the variable
    through its entry [j]. *)
Lemma dl_surrogate_load (N c : R) (X b : list R) (j : nat) (u : R -> R)
    (x lu : R) :
  GP.n_param gp = 4%nat ->
  length b = 4%nat ->
  (4 <= length X)%nat ->
  (j < 4)%nat ->
  (j = 1%nat -> soft_relu (1.0 - soft_abs (u x) ks) ks <> 0) ->
  derivable_pt_lim u x lu ->
  X !!! j = u x ->
  derivable_pt_lim
    (fun z =>
       N * (c * exp (GP.predictMeanTestData gp (with_entry j (u z) X)))) x
    ((GP.predictMeanTestDataSens gp
        (N * (c * exp (GP.predictMeanTestData gp X))) X b).2 !!! j * lu).
Proof.
  intros Hparam Hb HX Hj Hfact Hu HXj.
  assert (with_entry j (u x) X = X) as Hid.
  { unfold with_entry. apply list_insert_id. rewrite <- HXj.
    apply list_lookup_lookup_total_lt. lia. }
  destruct (predictMeanTestDataSens_call soft_relu soft_abs soft_relu_sens
              soft_abs_sens ks gp gp_axial
              (N * (c * exp (GP.predictMeanTestData gp X))) X b
              Hparam Hb) as [_ Hval].
  rewrite (Hval j Hj).
  pose proof (axial_mean_partial X j (u x) HX Hj Hfact) as Hmean.
  rewrite Hid in Hmean.
  pose proof (derivable_pt_lim_comp u
                (fun y => GP.predictMeanTestData gp (with_entry j y X))
                x lu _ Hu Hmean) as Hcomp.
  eapply dl_value.
  - apply dl_mult; [apply dl_const|].
    apply dl_mult; [apply dl_const|].
    apply dl_exp. exact Hcomp.
  - cbv beta. rewrite Hid.
    match goal with
    | |- _ = sum_list (?F <$> ?l) * lu =>
        replace (sum_list (F <$> l))
          with (N * (c * exp (GP.predictMeanTestData gp X))
                * sum_list
                    ((fun i =>
                        GP.alpha gp !!! i
                        * axial_jacobian X (GP.loc_Xtrain gp i) !!! j)
                     <$> l))
    end.
    + ring.
    + rewrite sum_list_scal. f_equal.
      apply list_fmap_ext. intros _ i _. ring.
Qed.

(** X7.  In the surrogate branch [computeCriticalGlobalAxialLoadSens]
    is the exact adjoint of [computeCriticalGlobalAxialLoad]: the
    increment it adds to each of its eight sensitivities is the partial
    derivative of [N1sens] times the load in the corresponding input
    ([D11], [D22], [b], [delta], [rho_0], [xi], [gamma], [zeta]).  This
    holds for an axial-kernel surrogate with four parameters whose smooth
    relu and abs have the derivatives the kernel uses, at positive
    stiffnesses and positive arguments of the logarithms, [b] and
    [1 + delta] non-zero. *)
Theorem computeCriticalGlobalAxialLoadSens_surrogate_gradient
    (NUM_CF_MODES : nat) (this : t)
    (N1sens D11 D22 b delta rho_0 xi gamma zeta : R)
    (s1 s2 s3 s4 s5 s6 s7 s8 : R) :
  getAxialGP this = Some gp ->
  GP.n_param gp = 4%nat ->
  0 < D11 -> 0 < D22 -> b <> 0 -> 1 + delta <> 0 ->
  0 < rho_0 -> 0 < xi -> 0 < 1 + gamma -> 0 < zeta ->
  soft_relu (1.0 - soft_abs (ln rho_0) ks) ks <> 0 ->
  let load :=
    fun D11 D22 b delta rho_0 xi gamma zeta =>
      N1sens
      * computeCriticalGlobalAxialLoad NUM_CF_MODES this D11 D22 b delta
          rho_0 xi gamma zeta in
  let '(_, (D11sens, D22sens, bsens, deltasens, rho_0sens, xisens,
            gammasens, zetasens)) :=
    computeCriticalGlobalAxialLoadSens NUM_CF_MODES this N1sens D11 D22 b
      delta rho_0 xi gamma zeta s1 s2 s3 s4 s5 s6 s7 s8 in
  derivable_pt_lim (fun z => load z D22 b delta rho_0 xi gamma zeta) D11
    (D11sens - s1)
  /\ derivable_pt_lim (fun z => load D11 z b delta rho_0 xi gamma zeta) D22
       (D22sens - s2)
  /\ derivable_pt_lim (fun z => load D11 D22 z delta rho_0 xi gamma zeta) b
       (bsens - s3)
  /\ derivable_pt_lim (fun z => load D11 D22 b z rho_0 xi gamma zeta) delta
       (deltasens - s4)
  /\ derivable_pt_lim (fun z => load D11 D22 b delta z xi gamma zeta) rho_0
       (rho_0sens - s5)
  /\ derivable_pt_lim (fun z => load D11 D22 b delta rho_0 z gamma zeta) xi
       (xisens - s6)
  /\ derivable_pt_lim (fun z => load D11 D22 b delta rho_0 xi z zeta) gamma
       (gammasens - s7)
  /\ derivable_pt_lim (fun z => load D11 D22 b delta rho_0 xi gamma z) zeta
       (zetasens - s8).
Proof.
  intros Hgp Hparam HD11 HD22 Hb Hdelta Hrho Hxi Hgamma Hzeta Hfact.
  unfold computeCriticalGlobalAxialLoadSens, computeCriticalGlobalAxialLoad.
  destruct (getAxialGP this) as [gp'|]; [|discriminate].
  injection Hgp as ->. cbv zeta. unfold libm.M_PI, libm.log, log_inputs.
  rewrite Hparam.
  assert (0 < D11 * D22) as Hprod by nra.
  pose proof (sqrt_lt_R0 _ Hprod) as HS.
  pose proof (sqrt_sqrt (D11 * D22) ltac:(lra)) as HSS.
  set (X := [ln xi; ln rho_0; ln (1 + gamma); ln zeta]).
  set (c := PI * PI * sqrt (D11 * D22) / b / b / (1.0 + delta)).
  assert (forall (j : nat) (u : R -> R) (x lu : R),
            (j < 4)%nat ->
            (j = 1%nat -> soft_relu (1.0 - soft_abs (u x) ks) ks <> 0) ->
            derivable_pt_lim u x lu ->
            X !!! j = u x ->
            derivable_pt_lim
              (fun z =>
                 N1sens
                 * (c * exp (GP.predictMeanTestData gp
                               (with_entry j (u z) X)))) x
              ((GP.predictMeanTestDataSens gp
                  (N1sens * (c * exp (GP.predictMeanTestData gp X))) X
                  (replicate 4 0)).2 !!! j * lu)) as Hdir.
  { intros j u x lu Hj Hf Hu HXj.
    apply dl_surrogate_load; try assumption; reflexivity. }
  split; [|split; [|split; [|split; [|split; [|split; [|split]]]]]].
  - eapply dl_value; [differentiate; try exact Hprod; lra|]. cbv beta.
    subst c. set (S := sqrt (D11 * D22)) in *. clearbody S.
    assert (D22 = S * S / D11) as -> by (rewrite HSS; field; lra).
    rewrite lit_0_5, lit_1_0. field. repeat split; lra.
  - eapply dl_value; [differentiate; try exact Hprod; lra|]. cbv beta.
    subst c. set (S := sqrt (D11 * D22)) in *. clearbody S.
    assert (D11 = S * S / D22) as -> by (rewrite HSS; field; lra).
    rewrite lit_0_5, lit_1_0. field. repeat split; lra.
  - eapply dl_value; [differentiate; try exact Hb; lra|]. cbv beta.
    subst c. unfold Rsqr. rewrite lit_m2_0, lit_1_0. field.
    repeat split; lra.
  - eapply dl_value; [differentiate; lra|]. cbv beta.
    subst c. unfold Rsqr. rewrite lit_m1_0, lit_1_0. field.
    repeat split; lra.
  - eapply dl_value.
    + apply (Hdir 1%nat ln rho_0 (/ rho_0)); [lia | intros _; exact Hfact | |].
      * now apply derivable_pt_lim_ln.
      * reflexivity.
    + reflexivity || (unfold Rdiv; ring).
  - eapply dl_value.
    + apply (Hdir 0%nat ln xi (/ xi)); [lia | discriminate | |].
      * now apply derivable_pt_lim_ln.
      * reflexivity.
    + unfold Rdiv; ring.
  - eapply dl_value.
    + apply (Hdir 2%nat (fun z => ln (1 + z)) gamma (/ (1 + gamma) * (0 + 1)));
        [lia | discriminate | |].
      * differentiate. exact Hgamma.
      * reflexivity.
    + rewrite lit_1_0. unfold Rdiv; ring.
  - eapply dl_value.
    + apply (Hdir 3%nat ln zeta (/ zeta)); [lia | discriminate | |].
      * now apply derivable_pt_lim_ln.
      * reflexivity.
    + unfold Rdiv; ring.
Qed.

End AxialGradientSoft.

(** ** Design variables: queries and edge cases *)

Section DesignQueriesFacts.

Context {M : Base.Methods}.

Variable base_getDesignVarNums : Base.t -> Z -> Z -> list Z -> list Z.
Variable base_getDesignVarRange :
  Base.t -> Z -> Z -> list R -> list R -> list R * list R.
Variables computeEffectiveThickness computeEffectiveBendingThickness :
  Base.t -> R.

#[local] Abbreviation getNums :=
  (getDesignVarNums base_getDesignVarNums).
#[local] Abbreviation getRange :=
  (getDesignVarRange base_getDesignVarRange).
#[local] Abbreviation fieldValue :=
  (evalDesignFieldValue computeEffectiveThickness
     computeEffectiveBendingThickness).

(** The base class writes into the caller's arrays in place and keeps
    its design-variable count when the variables are set. *)
Hypothesis base_set_keeps_count :
  forall (b : Base.t) (elemIndex dvLen : Z) (dvs : list R),
    Base.numDesignVars (Base.setDesignVars b elemIndex dvLen dvs)
    = Base.numDesignVars b.
Hypothesis base_get_in_place :
  forall (b : Base.t) (elemIndex dvLen : Z) (dvs : list R),
    length (Base.getDesignVars b elemIndex dvLen dvs) = length dvs.
Hypothesis base_nums_in_place :
  forall (b : Base.t) (elemIndex dvLen : Z) (nums : list Z),
    length (base_getDesignVarNums b elemIndex dvLen nums) = length nums.
Hypothesis base_range_in_place :
  forall (b : Base.t) (elemIndex dvLen : Z) (lb ub : list R),
    length (base_getDesignVarRange b elemIndex dvLen lb ub).1 = length lb
    /\ length (base_getDesignVarRange b elemIndex dvLen lb ub).2 = length ub.

(** X8.  An object that the constructor builds with a panel-width
    design-variable number [num >= 0] on a base object of [n] design
    variables has [n + 1] design variables, and the panel width is the
    last of them: on arrays of at least [n + 1] entries
    [getDesignVars] writes the constructor's width into slot [n],
    [getDesignVarNums] writes [num] there, and [getDesignVarRange] writes
    the bounds [0] and [1e20] there; each returns [n + 1]. *)
Theorem constructor_panel_width_is_last_variable
    (b : Base.t) (w : R) (num elemIndex dvLen : Z)
    (axial shear crippling : option GP.t)
    (dvs lb ub : list R) (nums : list Z) :
  (0 <= num)%Z ->
  (0 <= Base.numDesignVars b)%Z ->
  (Base.numDesignVars b + 1 <= dvLen)%Z ->
  length dvs = Z.to_nat dvLen ->
  length nums = Z.to_nat dvLen ->
  length lb = Z.to_nat dvLen ->
  length ub = Z.to_nat dvLen ->
  let this := constructor b w num axial shear crippling in
  let slot := Z.to_nat (Base.numDesignVars b) in
  (exists dvs', getDesignVars this elemIndex dvLen dvs
                = (dvs', (Base.numDesignVars b + 1)%Z)
                /\ dvs' !!! slot = w)
  /\ (exists nums', getNums this elemIndex dvLen (Some nums)
                    = (Some nums', (Base.numDesignVars b + 1)%Z)
                    /\ nums' !!! slot = num)
  /\ (exists lb' ub', getRange this elemIndex dvLen lb ub
                      = (lb', ub', (Base.numDesignVars b + 1)%Z)
                      /\ lb' !!! slot = 0 /\ ub' !!! slot = 1e20).
Proof.
  intros Hnum Hn Hlen Hdvs Hnums Hlb Hub this slot.
  assert (Base.numDesignVars (base this) = (Base.numDesignVars b + 1)%Z)
    as Hcount.
  { subst this. cbn [constructor base].
    destruct (decide (0 <= num)%Z); [reflexivity | contradiction]. }
  assert (panelWidthLocalNum this = Base.numDesignVars b) as Hslot.
  { subst this. cbn [constructor panelWidthLocalNum].
    destruct (decide (0 <= num)%Z); [reflexivity | contradiction]. }
  assert (panelWidthNum this = num) as Hpw by reflexivity.
  split; [|split].
  - unfold getDesignVars. rewrite Hcount, Hslot, Hpw.
    rewrite decide_True by exact Hlen. rewrite decide_True by exact Hnum.
    eexists. split; [reflexivity|].
    apply list_lookup_total_insert_eq.
    rewrite base_get_in_place, Hdvs. subst slot. lia.
  - unfold getDesignVarNums. cbn [fmap option_fmap option_map].
    rewrite Hcount, Hslot, Hpw.
    rewrite decide_True by exact Hlen. rewrite decide_True by exact Hnum.
    eexists. split; [reflexivity|].
    apply list_lookup_total_insert_eq.
    rewrite base_nums_in_place, Hnums. subst slot. lia.
  - unfold getDesignVarRange.
    destruct (base_range_in_place (base this) elemIndex dvLen lb ub)
      as [Hl Hu].
    destruct (base_getDesignVarRange (base this) elemIndex dvLen lb ub)
      as [lb0 ub0]. cbn [fst snd] in Hl, Hu.
    rewrite Hcount, Hslot, Hpw.
    rewrite decide_True by exact Hlen. rewrite decide_True by exact Hnum.
    eexists _, _. split; [reflexivity|]. split.
    + rewrite list_lookup_total_insert_eq by (rewrite Hl, Hlb; subst slot; lia).
      subst this. cbn [constructor panelWidthLowerBound]. lra.
    + rewrite list_lookup_total_insert_eq by (rewrite Hu, Hub; subst slot; lia).
      reflexivity.
Qed.

(** X9.  When the design vector is shorter than the number of design
    variables, or the panel width is not a design variable
    ([panelWidthNum < 0]), the four routines add nothing to what the base
    class does: [setDesignVars] leaves the panel width as it is, and
    [getDesignVars], [getDesignVarNums] and [getDesignVarRange] leave the
    arrays as the base class left them.  Each still returns the number of
    design variables. *)
Theorem short_design_vector_is_ignored
    (this : t) (elemIndex dvLen : Z) (dvs lb ub : list R) (nums : list Z) :
  (dvLen < Base.numDesignVars (base this))%Z \/ (panelWidthNum this < 0)%Z ->
  panelWidth (setDesignVars this elemIndex dvLen dvs).1 = panelWidth this
  /\ (setDesignVars this elemIndex dvLen dvs).2
     = Base.numDesignVars (base this)
  /\ getDesignVars this elemIndex dvLen dvs
     = (Base.getDesignVars (base this) elemIndex dvLen dvs,
        Base.numDesignVars (base this))
  /\ getNums this elemIndex dvLen (Some nums)
     = (Some (base_getDesignVarNums (base this) elemIndex dvLen nums),
        Base.numDesignVars (base this))
  /\ getRange this elemIndex dvLen lb ub
     = (base_getDesignVarRange (base this) elemIndex dvLen lb ub,
        Base.numDesignVars (base this)).
Proof.
  intros Hcase.
  assert (forall (A : Type) (x y : A),
            (if decide (Base.numDesignVars (base this) <= dvLen)%Z
             then if decide (0 <= panelWidthNum this)%Z then x else y
             else y) = y) as Hskip.
  { intros A x y. destruct Hcase.
    - rewrite decide_False by lia. reflexivity.
    - destruct (decide (_ <= dvLen)%Z); [|reflexivity].
      rewrite decide_False by lia. reflexivity. }
  split; [|split; [|split; [|split]]].
  - unfold setDesignVars. cbn [fst base with_base panelWidthNum].
    rewrite base_set_keeps_count, Hskip. reflexivity.
  - unfold setDesignVars. cbn [snd base with_base panelWidthNum].
    rewrite base_set_keeps_count, Hskip. cbn [base with_base].
    apply base_set_keeps_count.
  - unfold getDesignVars. now rewrite Hskip.
  - unfold getDesignVarNums. cbn [fmap option_fmap option_map].
    now rewrite Hskip.
  - unfold getDesignVarRange.
    destruct (base_getDesignVarRange (base this) elemIndex dvLen lb ub)
      as [lb0 ub0].
    rewrite (Hskip _ (_, _) (lb0, ub0)). reflexivity.
Qed.

(** X10.  Reading the design variables and setting them again leaves the
    panel width as it is: for an object whose panel-width slot lies
    inside the design vector and a buffer of [dvLen] entries,
    [setDesignVars] on the array that [getDesignVars] filled does not
    change [panelWidth]. *)
Theorem panelWidth_get_set_roundtrip
    (this : t) (elemIndex dvLen : Z) (buf : list R) :
  panelWidth_slot_ok this ->
  length buf = Z.to_nat dvLen ->
  panelWidth
    (setDesignVars this elemIndex dvLen
       (getDesignVars this elemIndex dvLen buf).1).1
  = panelWidth this.
Proof.
  intros Hok Hlen. unfold setDesignVars, getDesignVars.
  cbn [fst base with_base panelWidthNum panelWidthLocalNum].
  rewrite base_set_keeps_count.
  destruct (decide (Base.numDesignVars (base this) <= dvLen)%Z) as [Hdv|];
    [|reflexivity].
  destruct (decide (0 <= panelWidthNum this)%Z) as [Hnum|]; [|reflexivity].
  cbn [panelWidth with_panelWidth panelWidthLocalNum with_base].
  apply list_lookup_total_insert_eq.
  rewrite base_get_in_place, Hlen. specialize (Hok Hnum). lia.
Qed.

(** X11.  [evalDesignFieldValue] returns [0.0] for every index outside
    [0 .. 7]; index [7] is the panel width, and after a [setDesignVars]
    that takes the panel width from the design vector it is the entry of
    that vector at the panel-width slot. *)
Theorem evalDesignFieldValue_panel_width
    (this : t) (elemIndex dvLen : Z) (dvs : list R) :
  (forall index : Z,
     (index < 0)%Z \/ (7 < index)%Z -> fieldValue this index = 0)
  /\ fieldValue this 7 = panelWidth this
  /\ ((0 <= panelWidthNum this)%Z ->
      (Base.numDesignVars (base this) <= dvLen)%Z ->
      fieldValue (setDesignVars this elemIndex dvLen dvs).1 7
      = dvs !!! Z.to_nat (panelWidthLocalNum this)).
Proof.
  split; [|split].
  - intros index Hrange. unfold evalDesignFieldValue.
    destruct index as [|p|p]; [lia| |lra].
    do 4 (try (destruct p as [p|p|]; try lia)); lra.
  - reflexivity.
  - intros Hnum Hdv. unfold evalDesignFieldValue, setDesignVars.
    cbn [fst base with_base panelWidthNum panelWidthLocalNum].
    rewrite base_set_keeps_count.
    rewrite decide_True by exact Hdv. rewrite decide_True by exact Hnum.
    reflexivity.
Qed.

End DesignQueriesFacts.

(** ** Critical loads: relations between the routines *)

Section LoadRelations.

Context {M : Base.Methods}.
Variable NUM_CF_MODES : nat.

(** X12.  The local buckling loads are the global ones of an unstiffened
    panel whose width is the stiffener pitch: with or without
    surrogates, [computeCriticalLocalAxialLoad] returns what
    [computeCriticalGlobalAxialLoad] returns for [b = stiffenerPitch],
    [delta = 0] and [gamma = 0], and [computeCriticalLocalShearLoad]
    returns what [computeCriticalGlobalShearLoad] returns for
    [b = stiffenerPitch] and [gamma = 0]. *)
Theorem local_loads_are_unstiffened_global_loads
    (fuel : nat) (this : t) (D11 D22 rho_0 xi zeta : R) :
  computeCriticalLocalAxialLoad NUM_CF_MODES this D11 D22 rho_0 xi zeta
  = computeCriticalGlobalAxialLoad NUM_CF_MODES this D11 D22
      (Base.stiffenerPitch (base this)) 0 rho_0 xi 0 zeta
  /\ computeCriticalLocalShearLoad fuel this D11 D22 xi rho_0 zeta
     = computeCriticalGlobalShearLoad fuel this D11 D22
         (Base.stiffenerPitch (base this)) xi rho_0 0 zeta.
Proof.
  split.
  - unfold computeCriticalLocalAxialLoad, computeCriticalGlobalAxialLoad.
    destruct (getAxialGP this) as [gp|].
    + unfold libm.log. literals.
      replace (1 + 0) with 1 by lra. rewrite ln_1, Rdiv_1_r. reflexivity.
    + unfold local_axial_modes, global_axial_modes. do 2 f_equal.
      apply list_fmap_ext. intros _ m _. literals.
      replace (1 + 0) with 1 by lra. rewrite Rdiv_1_r, Rmult_1_l.
      reflexivity.
  - unfold computeCriticalLocalShearLoad, computeCriticalGlobalShearLoad.
    destruct (getShearGP this) as [gp|].
    + unfold libm.log. literals.
      replace (1 + 0) with 1 by lra. rewrite ln_1. reflexivity.
    + literals. reflexivity.
Qed.

(** X13.  Each sensitivity routine of a critical load returns the load
    that its forward routine returns, in the surrogate branch and in the
    closed-form branch, whatever the upstream scalar and the incoming
    sensitivities are. *)
Theorem critical_load_sens_returns_load
    (fuel : nat) (this : t)
    (Nsens D11 D22 b delta rho_0 xi gamma zeta genPoiss : R)
    (s1 s2 s3 s4 s5 s6 s7 s8 : R) :
  (computeCriticalGlobalAxialLoadSens NUM_CF_MODES this Nsens D11 D22 b delta
     rho_0 xi gamma zeta s1 s2 s3 s4 s5 s6 s7 s8).1
  = computeCriticalGlobalAxialLoad NUM_CF_MODES this D11 D22 b delta rho_0 xi
      gamma zeta
  /\ (computeCriticalLocalAxialLoadSens NUM_CF_MODES this Nsens D11 D22 rho_0
        xi zeta s1 s2 s3 s4 s5 s6).1
     = computeCriticalLocalAxialLoad NUM_CF_MODES this D11 D22 rho_0 xi zeta
  /\ fst <$> computeCriticalGlobalShearLoadSens fuel this Nsens D11 D22 b xi
               rho_0 gamma zeta s1 s2 s3 s4 s5 s6 s7
     = computeCriticalGlobalShearLoad fuel this D11 D22 b xi rho_0 gamma zeta
  /\ fst <$> computeCriticalLocalShearLoadSens fuel this Nsens D11 D22 xi
               rho_0 zeta s1 s2 s3 s4 s5 s6
     = computeCriticalLocalShearLoad fuel this D11 D22 xi rho_0 zeta
  /\ (computeStiffenerCripplingLoadSens this Nsens D11 D22 xi rho_0 genPoiss
        zeta s1 s2 s3 s4 s5 s6 s7).1
     = computeStiffenerCripplingLoad this D11 D22 xi rho_0 genPoiss zeta.
Proof.
  split; [|split; [|split; [|split]]].
  - unfold computeCriticalGlobalAxialLoadSens,
      computeCriticalGlobalAxialLoad.
    destruct (getAxialGP this) as [gp|]; [reflexivity|].
    unfold KS.ksAggregationSens. cbv zeta.
    destruct (foldl _ _ _) as [[[[[[? ?] ?] ?] ?] ?] ?]. reflexivity.
  - unfold computeCriticalLocalAxialLoadSens, computeCriticalLocalAxialLoad.
    destruct (getAxialGP this) as [gp|]; [reflexivity|].
    unfold KS.ksAggregationSens. cbv zeta.
    destruct (foldl _ _ _) as [[[[? ?] ?] ?] ?]. reflexivity.
  - unfold computeCriticalGlobalShearLoadSens,
      computeCriticalGlobalShearLoad.
    destruct (getShearGP this) as [gp|]; [reflexivity|].
    unfold nondimShearParamsSens.
    destruct (real_shear_params fuel xi gamma) as [[lam1 lam2]|];
      reflexivity.
  - unfold computeCriticalLocalShearLoadSens, computeCriticalLocalShearLoad.
    destruct (getShearGP this) as [gp|]; [reflexivity|].
    unfold nondimShearParamsSens.
    destruct (real_shear_params fuel xi 0.0) as [[lam1 lam2]|];
      reflexivity.
  - unfold computeStiffenerCripplingLoadSens, computeStiffenerCripplingLoad.
    destruct (getCripplingGP this) as [gp|]; reflexivity.
Qed.

(** X14.  A critical load that comes from a surrogate is strictly
    positive for positive bending stiffnesses, a panel of non-zero
    width, and positive arguments of the logarithms ([xi], [rho_0],
    [1 + gamma], [zeta], [genPoiss]), whatever real number the surrogate
    predicts: the dimensional factor is positive and the prediction
    enters through [exp]. *)
Theorem surrogate_loads_are_positive
    (fuel : nat) (this : t) (gpa gps gpc : GP.t)
    (D11 D22 b delta rho_0 xi gamma zeta genPoiss : R) :
  getAxialGP this = Some gpa ->
  getShearGP this = Some gps ->
  getCripplingGP this = Some gpc ->
  0 < D11 -> 0 < D22 -> b <> 0 -> -1 < delta ->
  0 < xi -> 0 < rho_0 -> 0 < 1 + gamma -> 0 < zeta -> 0 < genPoiss ->
  Base.stiffenerPitch (base this) <> 0 ->
  Base.stiffenerHeight (base this) <> 0 ->
  0 < computeCriticalGlobalAxialLoad NUM_CF_MODES this D11 D22 b delta rho_0
        xi gamma zeta
  /\ 0 < computeCriticalLocalAxialLoad NUM_CF_MODES this D11 D22 rho_0 xi
           zeta
  /\ (exists N12 : R,
        computeCriticalGlobalShearLoad fuel this D11 D22 b xi rho_0 gamma
          zeta = Some N12 /\ 0 < N12)
  /\ (exists N12 : R,
        computeCriticalLocalShearLoad fuel this D11 D22 xi rho_0 zeta
        = Some N12 /\ 0 < N12)
  /\ 0 < computeStiffenerCripplingLoad this D11 D22 xi rho_0 genPoiss zeta.
Proof.
  intros Ha Hs Hc HD11 HD22 Hb Hdelta _ _ _ _ _ Hpitch Hheight.
  assert (0 < PI * PI) as Hpi
    by (pose proof PI_RGT_0; nra).
  assert (0 < sqrt (D11 * D22)) as Hsqrt by (apply sqrt_lt_R0; nra).
  assert (0 < libm.pow (D11 * D22 * D22 * D22) 0.25) as Hpow.
  { unfold libm.pow. rewrite decide_True.
    - apply exp_pos.
    - assert (0 < D11 * D22) by nra. assert (0 < D22 * D22) by nra. nra. }
  assert (forall w : R, w <> 0 -> 0 < / w * / w) as Hinv.
  { intros w Hw. rewrite <- Rinv_mult. apply Rinv_0_lt_compat.
    destruct (Rtotal_order w 0) as [?|[?|?]]; [nra | contradiction | nra]. }
  assert (forall c w m : R, 0 < c -> w <> 0 -> 0 < c / w / w * exp m)
    as Hload.
  { intros c w m Hc0 Hw. apply Rmult_lt_0_compat; [|apply exp_pos].
    unfold Rdiv. rewrite Rmult_assoc.
    apply Rmult_lt_0_compat; [exact Hc0 | now apply Hinv]. }
  split; [|split; [|split; [|split]]].
  - unfold computeCriticalGlobalAxialLoad. rewrite Ha. unfold libm.M_PI.
    apply Rmult_lt_0_compat; [|apply exp_pos].
    apply Rmult_lt_0_compat.
    + unfold Rdiv. rewrite Rmult_assoc.
      apply Rmult_lt_0_compat; [nra | now apply Hinv].
    + apply Rinv_0_lt_compat. lra.
  - unfold computeCriticalLocalAxialLoad. rewrite Ha. unfold libm.M_PI.
    apply Hload; [nra | exact Hpitch].
  - unfold computeCriticalGlobalShearLoad. rewrite Hs. unfold libm.M_PI.
    eexists. split; [reflexivity|]. apply Hload; [nra | exact Hb].
  - unfold computeCriticalLocalShearLoad. rewrite Hs. unfold libm.M_PI.
    eexists. split; [reflexivity|]. apply Hload; [nra | exact Hpitch].
  - unfold computeStiffenerCripplingLoad. rewrite Hc. unfold libm.M_PI.
    apply Hload; [nra | exact Hheight].
Qed.

End LoadRelations.

(** ** The failure evaluator: what the routines write *)

Section BufferFacts.

Lemma memset0_lookup_ge (n i : nat) (a : list R) :
  (n <= i)%nat -> memset0 n a !!! i = a !!! i.
Proof.
  intros Hi. unfold memset0.
  destruct (decide (i < length a)%nat) as [Hlt|Hge].
  - rewrite lookup_total_app_r by (rewrite length_replicate; lia).
    rewrite length_replicate, lookup_total_drop. f_equal. lia.
  - rewrite !list_lookup_total_alt.
    rewrite (lookup_ge_None_2 a i) by lia.
    rewrite lookup_ge_None_2; [reflexivity|].
    rewrite length_app, length_replicate, length_drop. lia.
Qed.

Lemma foldl_insert_frame (g : nat -> R) (l : list nat) (a : list R) :
  length (foldl (fun s ii => <[ii := g ii]> s) a l) = length a
  /\ forall i : nat, i ∉ l ->
       foldl (fun s ii => <[ii := g ii]> s) a l !!! i = a !!! i.
Proof.
  revert a. induction l as [|k l IH]; intros a; cbn [foldl].
  - split; reflexivity.
  - destruct (IH (<[k := g k]> a)) as [Hlen Hval]. split.
    + rewrite Hlen. apply length_insert.
    + intros i Hi. rewrite Hval by (intros Hin; apply Hi; now right).
      apply list_lookup_total_insert_ne. intros ->. apply Hi. now left.
Qed.

Lemma foldl_add_to_frame (dv : nat) (v : nat -> R) (l : list nat)
    (a : list R) (i : nat) :
  i <> dv ->
  foldl (fun d ii => add_to dv (v ii) d) a l !!! i = a !!! i.
Proof.
  intros Hi. revert a. induction l as [|k l IH]; intros a; cbn [foldl].
  - reflexivity.
  - rewrite IH. apply add_to_lookup_ne. congruence.
Qed.

End BufferFacts.

(** Opens the next [let '(x, y) := e in ...] or [x ← e; ...] of the
    goal or of the hypothesis [H]. *)
Ltac open_let :=
  match goal with
  | |- context [match ?e with (_, _) => _ end] => destruct e
  | |- context [mbind _ ?e] =>
      destruct e; cbn [mbind option_bind]
  end.

Ltac open_let_in H :=
  match type of H with
  | context [match ?e with (_, _) => _ end] => destruct e
  | context [mbind _ ?e] =>
      destruct e; cbn [mbind option_bind] in H; [|discriminate H]
  end.

Section EvaluatorWrites.

Context {M : Base.Methods}.
Variables NUM_STRESSES NUM_CF_MODES NUM_Q_ENTRIES : nat.

(** X15.  [evalFailureStrainSens] sets [sens], it does not add to it: on
    a buffer of [NUM_STRESSES] entries the result does not depend on what
    the buffer held.  On any buffer the routine keeps the length, and it
    leaves every entry from index [max(NUM_STRESSES, 3)] on as it was. *)
Theorem evalFailureStrainSens_sets_sens
    (fuel : nat) (this : t) (e sens : list R) :
  (length sens = NUM_STRESSES ->
   evalFailureStrainSens NUM_STRESSES NUM_CF_MODES fuel this e sens
   = evalFailureStrainSens NUM_STRESSES NUM_CF_MODES fuel this e
       (replicate NUM_STRESSES 0))
  /\ forall (fail : R) (out : list R),
       evalFailureStrainSens NUM_STRESSES NUM_CF_MODES fuel this e sens
       = Some (fail, out) ->
       length out = length sens
       /\ forall i : nat,
            (NUM_STRESSES <= i)%nat -> (3 <= i)%nat ->
            out !!! i = sens !!! i.
Proof.
  split.
  - intros Hlen. unfold evalFailureStrainSens.
    repeat open_let; try reflexivity.
    rewrite (memset0_all _ sens) by exact Hlen.
    rewrite !(memset0_all _ (replicate _ _)) by apply length_replicate.
    reflexivity.
  - intros fail out H. unfold evalFailureStrainSens in H.
    repeat open_let_in H.
    injection H as _ <-.
    split.
    + rewrite !length_add_to.
      rewrite (proj1 (foldl_insert_frame _ _ _)).
      now rewrite !length_memset0.
    + intros i HN H3. rewrite !add_to_lookup_ne by lia.
      rewrite (proj2 (foldl_insert_frame _ _ _)).
      * now rewrite !memset0_lookup_ge.
      * rewrite elem_of_seq. lia.
Qed.

(** With a shear surrogate no routine of the failure evaluator enters the
    Newton loop. *)
Lemma failure_routines_return_with_shear_surrogate
    (this : t) (gp : GP.t) (scale : R) (e sens dfdx : list R) :
  getShearGP this = Some gp ->
  is_Some (computeFailureValues NUM_CF_MODES 0 this e)
  /\ is_Some (evalFailureStrainSens NUM_STRESSES NUM_CF_MODES 0 this e sens)
  /\ is_Some (addFailureDVSens NUM_STRESSES NUM_CF_MODES NUM_Q_ENTRIES 0
                this scale e dfdx).
Proof.
  intros Hgp.
  assert (forall D11 D22 b xi rho_0 gamma zeta,
            is_Some (computeCriticalGlobalShearLoad 0 this D11 D22 b xi
                       rho_0 gamma zeta)) as Hglobal.
  { intros. unfold computeCriticalGlobalShearLoad. rewrite Hgp. eauto. }
  assert (forall D11 D22 xi rho_0 zeta,
            is_Some (computeCriticalLocalShearLoad 0 this D11 D22 xi rho_0
                       zeta)) as Hlocal.
  { intros. unfold computeCriticalLocalShearLoad. rewrite Hgp. eauto. }
  assert (forall N D11 D22 b xi rho_0 gamma zeta s1 s2 s3 s4 s5 s6 s7,
            is_Some (computeCriticalGlobalShearLoadSens 0 this N D11 D22 b
                       xi rho_0 gamma zeta s1 s2 s3 s4 s5 s6 s7))
    as HglobalSens.
  { intros. unfold computeCriticalGlobalShearLoadSens. rewrite Hgp. eauto. }
  assert (forall N D11 D22 xi rho_0 zeta s1 s2 s3 s4 s5 s6,
            is_Some (computeCriticalLocalShearLoadSens 0 this N D11 D22 xi
                       rho_0 zeta s1 s2 s3 s4 s5 s6)) as HlocalSens.
  { intros. unfold computeCriticalLocalShearLoadSens. rewrite Hgp. eauto. }
  assert (is_Some (computeFailureValues NUM_CF_MODES 0 this e)) as Hvalues.
  { unfold computeFailureValues.
    repeat match goal with
      | |- context [match ?e with (_, _) => _ end] => destruct e
      | |- context [mbind _ (computeCriticalGlobalShearLoad 0 this ?a ?b ?c
                               ?d ?e ?f ?g)] =>
          destruct (Hglobal a b c d e f g) as [? ->];
          cbn [mbind option_bind]
      | |- context [mbind _ (computeCriticalLocalShearLoad 0 this ?a ?b ?c
                               ?d ?e)] =>
          destruct (Hlocal a b c d e) as [? ->];
          cbn [mbind option_bind]
      end.
    eauto. }
  split; [exact Hvalues|]. split.
  - unfold evalFailureStrainSens.
    repeat match goal with
      | |- context [match ?e with (_, _) => _ end] => destruct e
      | |- context [mbind _ (computeCriticalGlobalShearLoad 0 this ?a ?b ?c
                               ?d ?e ?f ?g)] =>
          destruct (Hglobal a b c d e f g) as [? ->];
          cbn [mbind option_bind]
      | |- context [mbind _ (computeCriticalLocalShearLoad 0 this ?a ?b ?c
                               ?d ?e)] =>
          destruct (Hlocal a b c d e) as [? ->];
          cbn [mbind option_bind]
      end.
    eauto.
  - unfold addFailureDVSens.
    destruct Hvalues as [[fails fail] ->]. cbn [mbind option_bind].
    repeat match goal with
      | |- context [match ?e with (_, _) => _ end] => destruct e
      | |- context [mbind _ (computeCriticalGlobalShearLoad 0 this ?a ?b ?c
                               ?d ?e ?f ?g)] =>
          destruct (Hglobal a b c d e f g) as [? ->];
          cbn [mbind option_bind]
      | |- context [mbind _ (computeCriticalLocalShearLoad 0 this ?a ?b ?c
                               ?d ?e)] =>
          destruct (Hlocal a b c d e) as [? ->];
          cbn [mbind option_bind]
      | |- context [mbind _ (computeCriticalGlobalShearLoadSens 0 this ?n ?a
                               ?b ?c ?d ?e ?f ?g ?s1 ?s2 ?s3 ?s4 ?s5 ?s6
                               ?s7)] =>
          destruct (HglobalSens n a b c d e f g s1 s2 s3 s4 s5 s6 s7)
            as [? ->];
          cbn [mbind option_bind]
      | |- context [mbind _ (computeCriticalLocalShearLoadSens 0 this ?n ?a
                               ?b ?c ?d ?e ?s1 ?s2 ?s3 ?s4 ?s5 ?s6)] =>
          destruct (HlocalSens n a b c d e s1 s2 s3 s4 s5 s6) as [? ->];
          cbn [mbind option_bind]
      end.
    eauto.
Qed.

(** X16.  With a shear surrogate attached the closed-form shear loads,
    and with them the Newton loop of [nondimShearParams], are never
    evaluated: [computeFailureValues], [evalFailureStrainSens] and
    [addFailureDVSens] return for every input, with no iteration of the
    loop allowed at all. *)
Theorem shear_surrogate_avoids_newton_loop
    (this : t) (gp : GP.t) (scale : R) (e sens dfdx : list R) :
  getShearGP this = Some gp ->
  is_Some (computeFailureValues NUM_CF_MODES 0 this e)
  /\ is_Some (evalFailureStrainSens NUM_STRESSES NUM_CF_MODES 0 this e sens)
  /\ is_Some (addFailureDVSens NUM_STRESSES NUM_CF_MODES NUM_Q_ENTRIES 0
                this scale e dfdx).
Proof. exact (failure_routines_return_with_shear_surrogate this gp scale e sens dfdx). Qed.

End EvaluatorWrites.

Section DesignSensitivityFrame.

Context {M : Base.Methods}.
Variables NUM_STRESSES NUM_CF_MODES NUM_Q_ENTRIES : nat.

(** X17.  Of its own, [addFailureDVSens] adds into two entries of
    [dfdx] only: the slots of the panel thickness and of the stiffener
    thickness.  Every other entry [i] that the five routines of the base
    class leave alone, at the offsets at which they are called, comes
    back as it went in.  The sensitivities that the routine gathers in
    its local array [DVsens] (panel length, stiffener pitch, panel
    thickness, stiffener height, stiffener thickness, panel width) are
    never added to [dfdx]. *)
Theorem addFailureDVSens_own_writes
    (fuel : nat) (this : t) (scale : R) (strain dfdx out : list R)
    (i : nat) :
  (forall e s,
     keeps_slot i
       (at_offset (Base.panelDVStartNum (base this))
          (Base.addPanelFailureDVSens (base this) e s))) ->
  (forall e s,
     keeps_slot i
       (at_offset (Base.stiffenerDVStartNum (base this))
          (Base.addStiffenerFailureDVSens (base this) e s))) ->
  (forall s e c,
     keeps_slot i
       (Base.addStrainTransformProductDVsens (base this) s e c)) ->
  (forall c e psi,
     keeps_slot i
       (at_offset (Base.panelDVStartNum (base this))
          (Base.addPanelStressDVSens (base this) c e psi))) ->
  (forall c e psi,
     keeps_slot i
       (at_offset (Base.panelDVStartNum (base this))
          (Base.addStiffenerStressDVSens (base this) c e psi))) ->
  ((0 <= Base.panelThickNum (base this))%Z ->
   i <> Z.to_nat (Base.panelThickLocalNum (base this))) ->
  ((0 <= Base.stiffenerThickLocalNum (base this))%Z ->
   i <> Z.to_nat (Base.stiffenerThickLocalNum (base this))) ->
  addFailureDVSens NUM_STRESSES NUM_CF_MODES NUM_Q_ENTRIES fuel this scale
    strain dfdx = Some out ->
  out !!! i = dfdx !!! i.
Proof.
  intros Hpf Hsf Htp Hps Hss Hpt Hst H.
  unfold addFailureDVSens, addFailureDVSens_stiffenerStress in H.
  repeat open_let_in H.
  injection H as <-.
  unfold keeps_slot in Hpf, Hsf, Htp, Hps, Hss.
  destruct (decide (0 <= Base.stiffenerThickLocalNum _)%Z) as [Hc1|_];
    [rewrite !foldl_add_to_frame by (apply Hst; exact Hc1)|];
    rewrite Hss;
    (destruct (decide (0 <= Base.panelThickNum _)%Z) as [Hc2|_];
     [rewrite !foldl_add_to_frame by (apply Hpt; exact Hc2)|]);
    rewrite Hps, Hps, Htp, Hsf, Hpf; reflexivity.
Qed.

End DesignSensitivityFrame.

(** ** The coupled shear-mode solver: what real outputs mean *)

Section SolverOutputs.

Lemma fp_pow_half_Fin_inv (s : fp.t) (r : R) :
  fp.pow s 0.5 = fp.Fin r ->
  exists s' : R, s = fp.Fin s' /\ 0 <= s' /\ r = sqrt s'.
Proof.
  destruct s as [s'| | |].
  - intros H. exists s'. split; [reflexivity|].
    rewrite fp_pow_half in H. unfold fp.sqrt in H.
    destruct (decide (0 <= s')); [|discriminate].
    injection H as <-. now split.
  - cbn [fp.pow]. rewrite decide_True by lra. discriminate.
  - cbn [fp.pow]. rewrite decide_False by lra. rewrite decide_True by lra.
    destruct (decide (fp.odd_integer 0.5)); discriminate.
  - cbn [fp.pow]. rewrite decide_False by lra. discriminate.
Qed.

Lemma pow_quarter_fourth (T : R) :
  libm.pow_is_real T 0.25 ->
  0 <= T /\ 0 <= libm.pow T 0.25 /\ libm.pow T 0.25 ^ 4 = T.
Proof.
  intros [Hpos|[[-> _]|[_ Hint]]].
  - unfold libm.pow. rewrite decide_True by exact Hpos.
    split; [lra|]. split; [unfold Rpower; left; apply exp_pos|].
    rewrite <- (Rpower_pow 4) by (unfold Rpower; apply exp_pos).
    rewrite Rpower_mult.
    replace (0.25 * INR 4) with 1 by (simpl; lra).
    now apply Rpower_1.
  - unfold libm.pow. rewrite decide_False by lra.
    destruct (decide (libm.is_integer 0.25)) as [Hi|_].
    + now apply quarter_not_integer in Hi.
    + split; [lra|]. split; [lra|]. simpl. lra.
  - now apply quarter_not_integer in Hint.
Qed.

(** X18.  For [xi >= 0], whenever [nondimShearParams] delivers two real
    numbers they are a solution of the two mode equations up to the
    tolerance of the loop: both are non-negative,
    [lam1bar^4 = 1 + 2 lam2bar^2 xi + lam2bar^4 + gamma], and
    [lam2bar^2 + lam1bar^2 + xi/3
     - sqrt((3 + xi)/9 + 4/3 lam1bar^2 xi + 4/3 lam1bar^4)]
    is within [1e-10] of zero.  A loop that stopped on a NaN residual
    does not deliver two real numbers for such [xi]. *)
Theorem nondimShearParams_real_outputs_solve
    (fuel : nat) (xi gamma lam1 lam2 : R) :
  0 <= xi ->
  nondimShearParams fuel xi gamma = Some (fp.Fin lam1, fp.Fin lam2) ->
  0 <= lam1 /\ 0 <= lam2
  /\ lam1 ^ 4 = 1 + 2 * lam2 ^ 2 * xi + lam2 ^ 4 + gamma
  /\ Rabs (lam2 ^ 2 + lam1 ^ 2 + xi / 3
           - sqrt ((3 + xi) / 9 + 4 / 3 * lam1 ^ 2 * xi
                   + 4 / 3 * lam1 ^ 4)) <= 1e-10.
Proof.
  intros Hxi H. unfold nondimShearParams in H.
  destruct (newton_loop fuel (fp.Fin 0.0) xi gamma) as [s|] eqn:Hloop;
    [|discriminate].
  cbn [mbind option_bind] in H. injection H as H1 H2.
  destruct (fp_pow_half_Fin_inv _ _ H2) as (s' & -> & Hs' & ->).
  cbn [fp.add fp.mul] in H1.
  apply fp_pow_Fin_inv in H1 as [Hreal Hlam1].
  destruct (pow_quarter_fourth _ Hreal) as (HT & Hl1 & Hfourth).
  rewrite <- Hlam1 in Hl1, Hfourth.
  assert (sqrt s' ^ 2 = s') as Hsq.
  { simpl. rewrite Rmult_1_r. now apply sqrt_sqrt. }
  assert (0 <= sqrt s') as Hl2 by apply sqrt_pos.
  split; [exact Hl1|]. split; [exact Hl2|]. split.
  { rewrite Hfourth. literals.
    replace (sqrt s' ^ 4) with (sqrt s' ^ 2 * sqrt s' ^ 2) by ring.
    rewrite Hsq. ring. }
  destruct (newton_loop_from _ _ _ _ _ Hloop) as (n & _ & _ & _ & Hstop).
  assert (lam2Constraint (fp.Fin s') xi gamma
          = fp.Fin (s' + lam1 * lam1 + xi / 3.0
                    - sqrt ((3.0 + xi) / 9.0 + 4.0 / 3.0 * (lam1 * lam1) * xi
                            + 4.0 / 3.0 * (lam1 * lam1 * (lam1 * lam1)))))
    as Hres.
  { unfold lam2Constraint. cbn [fp.add fp.mul].
    rewrite (fp_pow_real _ _ Hreal), <- Hlam1. cbn [fp.add fp.mul].
    rewrite !fp_div_eq by lra. cbn [fp.add fp.mul].
    unfold fp.sqrt. rewrite decide_True.
    - reflexivity.
    - assert (0 <= lam1 * lam1) by nra.
      assert (0 <= lam1 * lam1 * (lam1 * lam1)) by nra.
      assert (0 <= lam1 * lam1 * xi) by nra. lra. }
  apply newton_continues_false in Hstop as [Hnan|(g & Hg & Hle)].
  { rewrite Hres in Hnan. discriminate. }
  rewrite Hres in Hg. injection Hg as <-.
  rewrite Hsq. literals.
  replace (lam1 ^ 2) with (lam1 * lam1) by ring.
  replace (lam1 ^ 4) with (lam1 * lam1 * (lam1 * lam1)) by ring.
  exact Hle.
Qed.

(** X19.  The four derivatives that [nondimShearParamsSens] returns
    solve the two linear systems that the routine sets up, by Cramer's
    rule, whenever the determinant [D - B C] is not zero:
    [dl1 + B dl2 = E] and [C dl1 + D dl2 = F], with [E], [F] the
    right-hand sides for [xi] and for [gamma];
    the routine passes on the [lam1bar], [lam2bar] of the solver. *)
Theorem nondimShearParamsSens_solves_its_systems
    (fuel : nat) (xi gamma lam1 lam2 dl1xi dl1gamma dl2xi dl2gamma : R) :
  nondimShearParamsSens fuel xi gamma
  = Some (lam1, lam2, dl1xi, dl1gamma, dl2xi, dl2gamma) ->
  let exp1 := 1.0 + 2.0 * lam2 * lam2 * xi + libm.pow lam2 4.0 + gamma in
  let exp2 :=
    (3.0 + xi) / 9.0 + 4.0 / 3.0 * (lam1 * lam1 * xi + libm.pow lam1 4.0) in
  let dexp1lam2 := 4.0 * lam2 * xi + 4.0 * lam2 * lam2 * lam2 in
  let dexp2lam1 :=
    4.0 / 3.0 * (2.0 * lam1 * xi + 4.0 * lam1 * lam1 * lam1) in
  let B := -0.25 * lam1 / exp1 * dexp1lam2 in
  let C := 2.0 * lam1 - 0.5 * libm.pow exp2 (-0.5) * dexp2lam1 in
  let D := 2.0 * lam2 in
  let E1 := 0.25 * lam1 / exp1 * (2.0 * lam2 * lam2) in
  let F1 := -1.0 / 3.0 + 0.5 * libm.pow exp2 (-0.5) * (1.0 / 9.0) in
  let E2 := 0.25 * lam1 / exp1 * 1.0 in
  let F2 := -1.0 / 3.0 + 0.5 * libm.pow exp2 (-0.5) * 0.0 in
  D - B * C <> 0 ->
  real_shear_params fuel xi gamma = Some (lam1, lam2)
  /\ dl1xi + B * dl2xi = E1
  /\ C * dl1xi + D * dl2xi = F1
  /\ dl1gamma + B * dl2gamma = E2
  /\ C * dl1gamma + D * dl2gamma = F2.
Proof.
  unfold nondimShearParamsSens. intros H.
  destruct (real_shear_params fuel xi gamma) as [[l1 l2]|]; [|discriminate].
  cbn [mbind option_bind] in H. cbv zeta in H.
  injection H as <- <- <- <- <- <-. cbv zeta.
  set (B := -0.25 * l1 / _ * _).
  set (C := 2.0 * l1 - _).
  set (E1 := 0.25 * l1 / _ * (2.0 * l2 * l2)).
  set (F1 := -1.0 / 3.0 + _ * (1.0 / 9.0)).
  set (E2 := 0.25 * l1 / _ * 1.0).
  set (F2 := -1.0 / 3.0 + _ * 0.0).
  clearbody B C E1 F1 E2 F2. rewrite !lit_1_0, !lit_2_0. intros Hdet.
  split; [reflexivity|].
  repeat split; field; lra.
Qed.

End SolverOutputs.

(** ** Sensitivities as derivatives *)

Section CripplingGradient.

Context {M : Base.Methods}.

(** X20.  In the closed-form branch the increments that
    [computeStiffenerCripplingLoadSens] adds to [*D11sens], [*D22sens],
    [*xisens] and [*genPoiss_sens] are the partial derivatives of
    [N1sens] times [computeStiffenerCripplingLoad] in [D11], [D22], [xi]
    and [genPoiss], at positive stiffnesses and where neither [xi] nor
    the factor [0.476 - 0.56 (genPoiss - 0.2)], by which the routine
    divides, is zero; [*rho_0sens] and [*zetasens] are left as they
    are. *)
Theorem computeStiffenerCripplingLoadSens_closed_form_gradient
    (this : t) (N1sens D11 D22 xi rho_0 genPoiss zeta : R)
    (s1 s2 s3 s4 s5 s6 s7 : R) :
  getCripplingGP this = None ->
  0 < D11 -> 0 < D22 -> xi <> 0 ->
  0.476 - 0.56 * (genPoiss - 0.2) <> 0 ->
  Base.stiffenerHeight (base this) <> 0 ->
  let load :=
    fun D11 D22 xi genPoiss =>
      N1sens
      * computeStiffenerCripplingLoad this D11 D22 xi rho_0 genPoiss zeta in
  let '(_, (D11sens, D22sens, sheightsens, xisens, rho_0sens,
            genPoiss_sens, zetasens)) :=
    computeStiffenerCripplingLoadSens this N1sens D11 D22 xi rho_0 genPoiss
      zeta s1 s2 s3 s4 s5 s6 s7 in
  derivable_pt_lim (fun z => load z D22 xi genPoiss) D11 (D11sens - s1)
  /\ derivable_pt_lim (fun z => load D11 z xi genPoiss) D22 (D22sens - s2)
  /\ derivable_pt_lim (fun z => load D11 D22 z genPoiss) xi (xisens - s4)
  /\ derivable_pt_lim (fun z => load D11 D22 xi z) genPoiss
       (genPoiss_sens - s6)
  /\ rho_0sens = s5 /\ zetasens = s7.
Proof.
  intros Hgp HD11 HD22 Hxi Hfac Hh.
  unfold computeStiffenerCripplingLoadSens, computeStiffenerCripplingLoad.
  destruct (getCripplingGP this); [discriminate|]. cbv zeta.
  unfold libm.M_PI.
  assert (0 < D11 * D22) as Hprod by nra.
  pose proof (sqrt_lt_R0 _ Hprod) as HS.
  pose proof (sqrt_sqrt (D11 * D22) ltac:(lra)) as HSS.
  split; [|split; [|split; [|split; [|split; reflexivity]]]].
  - eapply dl_value; [differentiate; exact Hprod|]. cbv beta.
    set (S := sqrt (D11 * D22)) in *. clearbody S.
    assert (D22 = S * S / D11) as -> by (rewrite HSS; field; lra).
    rewrite lit_0_5. field. repeat split; lra.
  - eapply dl_value; [differentiate; exact Hprod|]. cbv beta.
    set (S := sqrt (D11 * D22)) in *. clearbody S.
    assert (D11 = S * S / D22) as -> by (rewrite HSS; field; lra).
    rewrite lit_0_5. field. repeat split; lra.
  - eapply dl_value; [differentiate|]. cbv beta. field.
    repeat split; assumption.
  - eapply dl_value; [differentiate|]. cbv beta.
    replace (-0.56) with (- (0.56)) by lra. field.
    repeat split; assumption.
Qed.

End CripplingGradient.

Section ParameterGradients.

Lemma dl_Rpower (f : R -> R) (x lf y : R) :
  derivable_pt_lim f x lf -> 0 < f x ->
  derivable_pt_lim (fun z => Rpower (f z) y) x
    (y * Rpower (f x) (y - 1) * lf).
Proof.
  intros Hf Hpos.
  exact (derivable_pt_lim_comp f (fun u => Rpower u y) x lf _ Hf
           (derivable_pt_lim_power (f x) y Hpos)).
Qed.

Lemma Rpower_pred (q y : R) : 0 < q -> Rpower q (y - 1) = Rpower q y / q.
Proof.
  intros Hq. unfold Rminus. rewrite Rpower_plus, Rpower_Ropp, Rpower_1.
  - reflexivity.
  - exact Hq.
Qed.

(** X21.  The four values that [computeAffineAspectRatioSens] assigns
    are the partial derivatives of [rho0sens] times the affine aspect
    ratio [rho_0 = a/b (D22/D11)^0.25] in [D11], [D22], [a] and [b], for
    positive stiffnesses and non-zero [a], [b].  They are assigned, not
    added: what the four slots held before the call is lost. *)
Theorem computeAffineAspectRatioSens_gradient
    (rho0sens D11 D22 a b s1 s2 s3 s4 : R) :
  0 < D11 -> 0 < D22 -> a <> 0 -> b <> 0 ->
  let '(rho_0, (D11sens, D22sens, asens, bsens)) :=
    computeAffineAspectRatioSens rho0sens D11 D22 a b s1 s2 s3 s4 in
  rho_0 = computeAffineAspectRatio D11 D22 a b
  /\ derivable_pt_lim
       (fun z => rho0sens * computeAffineAspectRatio z D22 a b) D11 D11sens
  /\ derivable_pt_lim
       (fun z => rho0sens * computeAffineAspectRatio D11 z a b) D22 D22sens
  /\ derivable_pt_lim
       (fun z => rho0sens * computeAffineAspectRatio D11 D22 z b) a asens
  /\ derivable_pt_lim
       (fun z => rho0sens * computeAffineAspectRatio D11 D22 a z) b bsens.
Proof.
  intros HD11 HD22 Ha Hb.
  unfold computeAffineAspectRatioSens, computeAffineAspectRatio. cbv zeta.
  assert (0 < D22 / D11) as Hq by (apply Rdiv_lt_0_compat; lra).
  assert (libm.pow (D22 / D11) 0.25 = Rpower (D22 / D11) 0.25) as HP.
  { unfold libm.pow. now rewrite decide_True. }
  split; [reflexivity|]. split; [|split; [|split]].
  - apply (derivable_pt_lim_locally_ext
             (fun z => rho0sens * (a / b * Rpower (D22 / z) 0.25))
             _ D11 (D11 / 2) (D11 * 2)); [lra| |].
    { intros z Hz. unfold libm.pow. rewrite decide_True; [reflexivity|].
      apply Rdiv_lt_0_compat; lra. }
    eapply dl_value.
    + apply dl_mult; [apply dl_const|].
      apply dl_mult; [apply dl_const|].
      apply dl_Rpower; [differentiate; lra | exact Hq].
    + cbv beta. rewrite HP, Rpower_pred by exact Hq. unfold Rsqr.
      set (P := Rpower (D22 / D11) 0.25). clearbody P.
      replace (-0.25) with (- (0.25)) by lra. field. lra.
  - apply (derivable_pt_lim_locally_ext
             (fun z => rho0sens * (a / b * Rpower (z / D11) 0.25))
             _ D22 (D22 / 2) (D22 * 2)); [lra| |].
    { intros z Hz. unfold libm.pow. rewrite decide_True; [reflexivity|].
      apply Rdiv_lt_0_compat; lra. }
    eapply dl_value.
    + apply dl_mult; [apply dl_const|].
      apply dl_mult; [apply dl_const|].
      apply dl_Rpower; [differentiate; lra | exact Hq].
    + cbv beta. rewrite HP, Rpower_pred by exact Hq. unfold Rsqr.
      set (P := Rpower (D22 / D11) 0.25). clearbody P.
      field. lra.
  - eapply dl_value; [differentiate; exact Hb|]. cbv beta. unfold Rsqr.
    field. lra.
  - eapply dl_value; [differentiate; exact Hb|]. cbv beta. unfold Rsqr.
    rewrite lit_m1_0. field. lra.
Qed.

(** X22.  The increments that [computeGeneralizedRigiditySens] adds to
    its four sensitivities are the partial derivatives of [xisens] times
    the generalized rigidity [xi = (D12 + 2 D66) / sqrt(D11 D22)] in
    [D11], [D22], [D12] and [D66], for positive [D11] and [D22]. *)
Theorem computeGeneralizedRigiditySens_gradient
    (xisens D11 D22 D12 D66 s1 s2 s3 s4 : R) :
  0 < D11 -> 0 < D22 ->
  let '(xi, (D11sens, D22sens, D12sens, D66sens)) :=
    computeGeneralizedRigiditySens xisens D11 D22 D12 D66 s1 s2 s3 s4 in
  xi = computeGeneralizedRigidity D11 D22 D12 D66
  /\ derivable_pt_lim
       (fun z => xisens * computeGeneralizedRigidity z D22 D12 D66) D11
       (D11sens - s1)
  /\ derivable_pt_lim
       (fun z => xisens * computeGeneralizedRigidity D11 z D12 D66) D22
       (D22sens - s2)
  /\ derivable_pt_lim
       (fun z => xisens * computeGeneralizedRigidity D11 D22 z D66) D12
       (D12sens - s3)
  /\ derivable_pt_lim
       (fun z => xisens * computeGeneralizedRigidity D11 D22 D12 z) D66
       (D66sens - s4).
Proof.
  intros HD11 HD22.
  unfold computeGeneralizedRigiditySens, computeGeneralizedRigidity.
  cbv zeta.
  assert (0 < D11 * D22) as Hprod by nra.
  pose proof (sqrt_lt_R0 _ Hprod) as HS.
  pose proof (sqrt_sqrt (D11 * D22) ltac:(lra)) as HSS.
  split; [reflexivity|]. split; [|split; [|split]].
  - eapply dl_value; [differentiate; try exact Hprod; lra|]. cbv beta.
    unfold Rsqr. set (S := sqrt (D11 * D22)) in *. clearbody S.
    assert (D22 = S * S / D11) as -> by (rewrite HSS; field; lra).
    rewrite lit_m0_5, lit_2_0. field. repeat split; lra.
  - eapply dl_value; [differentiate; try exact Hprod; lra|]. cbv beta.
    unfold Rsqr. set (S := sqrt (D11 * D22)) in *. clearbody S.
    assert (D11 = S * S / D22) as -> by (rewrite HSS; field; lra).
    rewrite lit_m0_5, lit_2_0. field. repeat split; lra.
  - eapply dl_value; [differentiate; lra|]. cbv beta. unfold Rsqr.
    rewrite lit_1_0. field. lra.
  - eapply dl_value; [differentiate; lra|]. cbv beta. unfold Rsqr.
    rewrite lit_2_0. field. lra.
Qed.

(** X23.  The increments that [computeGeneralizedPoissonsRatioSens] adds
    to its two sensitivities are the partial derivatives of [epssens]
    times the generalized Poisson's ratio [(D12 + 2 D66) / D12] in [D12]
    and [D66], for non-zero [D12]. *)
Theorem computeGeneralizedPoissonsRatioSens_gradient
    (epssens D12 D66 s1 s2 : R) :
  D12 <> 0 ->
  let '(eps, (D12sens, D66sens)) :=
    computeGeneralizedPoissonsRatioSens epssens D12 D66 s1 s2 in
  eps = computeGeneralizedPoissonsRatio D12 D66
  /\ derivable_pt_lim
       (fun z => epssens * computeGeneralizedPoissonsRatio z D66) D12
       (D12sens - s1)
  /\ derivable_pt_lim
       (fun z => epssens * computeGeneralizedPoissonsRatio D12 z) D66
       (D66sens - s2).
Proof.
  intros HD12.
  unfold computeGeneralizedPoissonsRatioSens,
    computeGeneralizedPoissonsRatio. cbv zeta.
  split; [reflexivity|]. split.
  - eapply dl_value; [differentiate; exact HD12|]. cbv beta. unfold Rsqr.
    rewrite lit_m2_0, lit_2_0. field. exact HD12.
  - eapply dl_value; [differentiate; exact HD12|]. cbv beta. unfold Rsqr.
    rewrite lit_2_0. field. exact HD12.
Qed.

End ParameterGradients.

(** ** The transverse shear parameter *)

Section TransverseShearParameter.

(** The four partial derivatives of [(A66/A11) (b/h)^2]. *)
Lemma transverse_shear_partials (A66 A11 b h : R) :
  A66 <> 0 -> A11 <> 0 -> b <> 0 -> h <> 0 ->
  let zeta := (A66 / A11) * (b / h) ^ 2 in
  derivable_pt_lim (fun z => (z / A11) * (b / h) ^ 2) A66 (zeta / A66)
  /\ derivable_pt_lim (fun z => (A66 / z) * (b / h) ^ 2) A11 (- zeta / A11)
  /\ derivable_pt_lim (fun z => (A66 / A11) * (z / h) ^ 2) b (2 * zeta / b)
  /\ derivable_pt_lim (fun z => (A66 / A11) * (b / z) ^ 2) h
       (-2 * zeta / h).
Proof.
  intros HA66 HA11 Hb Hh. cbv zeta. simpl pow.
  split; [|split; [|split]].
  - eapply dl_value; [differentiate; assumption|]. cbv beta. unfold Rsqr.
    field. repeat split; assumption.
  - eapply dl_value; [differentiate; assumption|]. cbv beta. unfold Rsqr.
    field. repeat split; assumption.
  - eapply dl_value; [differentiate; assumption|]. cbv beta. unfold Rsqr.
    field. repeat split; assumption.
  - eapply dl_value; [differentiate; assumption|]. cbv beta. unfold Rsqr.
    field. repeat split; assumption.
Qed.

(** C8 (as amended).  For [A66], [A11], [b] and [h] non-zero,
    [computeTransverseShearParameter] returns the real number
    [zeta = (A66/A11) (b/h)^2], and [computeTransverseShearParameterSens]
    returns [zeta] and adds to its four slots [zetasens] times
    [zeta/A66], [-zeta/A11], [2 zeta/b] and [-2 zeta/h], which are the
    partial derivatives of that formula in [A66], [A11], [b] and [h].
    The routines on doubles and the real-number routines of the
    evaluator agree there. *)
Theorem computeTransverseShearParameterSens_adds_partials
    (zetasens A66 A11 b h A66sens A11sens bsens hsens : R) :
  A66 <> 0 -> A11 <> 0 -> b <> 0 -> h <> 0 ->
  let zeta := (A66 / A11) * (b / h) ^ 2 in
  OnDoubles.computeTransverseShearParameter A66 A11 b h = fp.Fin zeta
  /\ OnDoubles.computeTransverseShearParameterSens zetasens A66 A11 b h
       A66sens A11sens bsens hsens
     = (fp.Fin zeta,
        (fp.Fin (A66sens + zetasens * (zeta / A66)),
         fp.Fin (A11sens + zetasens * (- zeta / A11)),
         fp.Fin (bsens + zetasens * (2 * zeta / b)),
         fp.Fin (hsens + zetasens * (-2 * zeta / h))))
  /\ computeTransverseShearParameter A66 A11 b h = zeta
  /\ computeTransverseShearParameterSens zetasens A66 A11 b h
       A66sens A11sens bsens hsens
     = (zeta,
        (A66sens + zetasens * (zeta / A66),
         A11sens + zetasens * (- zeta / A11),
         bsens + zetasens * (2 * zeta / b),
         hsens + zetasens * (-2 * zeta / h)))
  /\ derivable_pt_lim (fun z => (z / A11) * (b / h) ^ 2) A66 (zeta / A66)
  /\ derivable_pt_lim (fun z => (A66 / z) * (b / h) ^ 2) A11 (- zeta / A11)
  /\ derivable_pt_lim (fun z => (A66 / A11) * (z / h) ^ 2) b (2 * zeta / b)
  /\ derivable_pt_lim (fun z => (A66 / A11) * (b / z) ^ 2) h
       (-2 * zeta / h).
Proof.
  intros HA66 HA11 Hb Hh zeta.
  assert (A66 / A11 * (b / h) * (b / h) = zeta) as Hzeta
    by (subst zeta; simpl; ring).
  split; [|split; [|split; [|split]]].
  - unfold OnDoubles.computeTransverseShearParameter.
    rewrite !fp_div_eq by assumption. cbn [fp.mul]. now rewrite Hzeta.
  - unfold OnDoubles.computeTransverseShearParameterSens. cbv zeta.
    rewrite !(fp_div_eq A66 A11), !(fp_div_eq b h) by assumption.
    cbn [fp.mul fp.neg]. rewrite !fp_div_eq by assumption.
    cbn [fp.add]. rewrite Hzeta.
    repeat (f_equal;
            try (rewrite ?lit_m1_0, ?lit_2_0, ?lit_m2_0; unfold Rdiv; ring)).
  - exact Hzeta.
  - unfold computeTransverseShearParameterSens. cbv zeta. rewrite Hzeta.
    rewrite lit_m1_0, lit_2_0, lit_m2_0.
    repeat f_equal; unfold Rdiv; ring.
  - exact (transverse_shear_partials A66 A11 b h HA66 HA11 Hb Hh).
Qed.

Lemma computeTransverseShearParameterSens_adds_partials_witness :
  let zeta := (2 / 1) * (1 / 1) ^ 2 in
  OnDoubles.computeTransverseShearParameter 2 1 1 1 = fp.Fin zeta
  /\ OnDoubles.computeTransverseShearParameterSens 1 2 1 1 1 0 0 0 0
     = (fp.Fin zeta,
        (fp.Fin (0 + 1 * (zeta / 2)),
         fp.Fin (0 + 1 * (- zeta / 1)),
         fp.Fin (0 + 1 * (2 * zeta / 1)),
         fp.Fin (0 + 1 * (-2 * zeta / 1))))
  /\ computeTransverseShearParameter 2 1 1 1 = zeta
  /\ computeTransverseShearParameterSens 1 2 1 1 1 0 0 0 0
     = (zeta,
        (0 + 1 * (zeta / 2), 0 + 1 * (- zeta / 1), 0 + 1 * (2 * zeta / 1),
         0 + 1 * (-2 * zeta / 1)))
  /\ derivable_pt_lim (fun z => (z / 1) * (1 / 1) ^ 2) 2 (zeta / 2)
  /\ derivable_pt_lim (fun z => (2 / z) * (1 / 1) ^ 2) 1 (- zeta / 1)
  /\ derivable_pt_lim (fun z => (2 / 1) * (z / 1) ^ 2) 1 (2 * zeta / 1)
  /\ derivable_pt_lim (fun z => (2 / 1) * (1 / z) ^ 2) 1 (-2 * zeta / 1).
Proof.
  apply (computeTransverseShearParameterSens_adds_partials 1 2 1 1 1 0 0 0 0);
    lra.
Defined.

(** The claim C8 as it was stated, for every input, fails at [A66 = 0],
    [A11 = b = h = 1]: the partial derivative of the formula in [A66] is
    [(b/h)^2 / A11 = 1] there, and with [zetasens = 1] the routine
    divides [0] by [0] and leaves NaN in [*A66sens], not [0 + 1 * 1]. *)
Lemma computeTransverseShearParameterSens_adds_partials_counterexample :
  derivable_pt_lim (fun z => (z / 1) * (1 / 1) ^ 2) 0 1
  /\ exists zeta A11sens bsens hsens : fp.t,
       OnDoubles.computeTransverseShearParameterSens 1 0 1 1 1 0 0 0 0
       = (zeta, (fp.NaN, A11sens, bsens, hsens))
       /\ fp.NaN <> fp.Fin (0 + 1 * 1).
Proof.
  split.
  - eapply dl_value; [differentiate; lra|]. cbv beta. unfold Rsqr. simpl.
    field.
  - unfold OnDoubles.computeTransverseShearParameterSens. cbv zeta.
    rewrite !fp_div_eq by lra. cbn [fp.mul].
    replace (1 * (0 / 1 * (1 / 1) * (1 / 1))) with 0 by lra.
    assert (fp.div (fp.Fin 0) (fp.Fin 0) = fp.NaN) as ->.
    { unfold fp.div. rewrite decide_True by reflexivity.
      unfold fp.inf_times. rewrite !decide_False by lra. reflexivity. }
    cbn [fp.add]. do 4 eexists. split; [reflexivity | discriminate].
Qed.

End TransverseShearParameter.

Section ParameterGradientsOfTheObject.

Context {M : Base.Methods}.

(** X24.  The increments that [computeTransverseShearParameterSens]
    adds to its four sensitivities are the partial derivatives of
    [zetasens] times [computeTransverseShearParameter] in [A66], [A11],
    [b] and [h], where all four are non-zero (the routine divides by
    each of them). *)
Theorem computeTransverseShearParameterSens_gradient
    (zetasens A66 A11 b h s1 s2 s3 s4 : R) :
  A66 <> 0 -> A11 <> 0 -> b <> 0 -> h <> 0 ->
  let '(zeta, (A66sens, A11sens, bsens, hsens)) :=
    computeTransverseShearParameterSens zetasens A66 A11 b h s1 s2 s3 s4 in
  zeta = computeTransverseShearParameter A66 A11 b h
  /\ derivable_pt_lim
       (fun z => zetasens * computeTransverseShearParameter z A11 b h) A66
       (A66sens - s1)
  /\ derivable_pt_lim
       (fun z => zetasens * computeTransverseShearParameter A66 z b h) A11
       (A11sens - s2)
  /\ derivable_pt_lim
       (fun z => zetasens * computeTransverseShearParameter A66 A11 z h) b
       (bsens - s3)
  /\ derivable_pt_lim
       (fun z => zetasens * computeTransverseShearParameter A66 A11 b z) h
       (hsens - s4).
Proof.
  intros HA66 HA11 Hb Hh.
  unfold computeTransverseShearParameterSens,
    computeTransverseShearParameter. cbv zeta.
  split; [reflexivity|]. split; [|split; [|split]].
  - eapply dl_value; [differentiate; assumption|]. cbv beta. unfold Rsqr.
    field. repeat split; assumption.
  - eapply dl_value; [differentiate; assumption|]. cbv beta. unfold Rsqr.
    rewrite lit_m1_0. field. repeat split; assumption.
  - eapply dl_value; [differentiate; assumption|]. cbv beta. unfold Rsqr.
    rewrite lit_2_0. field. repeat split; assumption.
  - eapply dl_value; [differentiate; assumption|]. cbv beta. unfold Rsqr.
    rewrite lit_m2_0. field. repeat split; assumption.
Qed.

(** X25.  [computeStiffenerStiffnessRatioSens] returns the ratio that
    [computeStiffenerStiffnessRatio] returns, and the increment it adds
    to [*D11sens] is the partial derivative of [gammasens] times that
    ratio in [D11], for non-zero [D11] and [stiffenerThick] (the routine
    divides by both) and whatever the effective moduli and the stiffener
    inertia are. *)
Theorem computeStiffenerStiffnessRatioSens_D11_gradient
    (this : t) (gammasens D11 s1 s2 s3 s4 : R) :
  D11 <> 0 ->
  Base.stiffenerThick (base this) <> 0 ->
  let '(gamma, (D11sens, _, _, _)) :=
    computeStiffenerStiffnessRatioSens this gammasens D11 s1 s2 s3 s4 in
  gamma = computeStiffenerStiffnessRatio this D11
  /\ derivable_pt_lim
       (fun z => gammasens * computeStiffenerStiffnessRatio this z) D11
       (D11sens - s1).
Proof.
  intros HD11 Hth.
  unfold computeStiffenerStiffnessRatioSens, computeStiffenerStiffnessRatio.
  cbv zeta.
  destruct (Base.computeStiffenerIzzSens (base this)) as [dI1 dI2].
  destruct (Base.computeEffectiveModulii (base this)
              (Base.numPanelPlies (base this)) _ _) as [E1p ?].
  destruct (Base.computeEffectiveModulii (base this)
              (Base.numStiffenerPlies (base this)) _ _) as [E1s ?].
  split; [reflexivity|].
  eapply dl_value; [differentiate; exact HD11|]. cbv beta. unfold Rsqr.
  rewrite lit_m1_0. field. split; assumption.
Qed.

End ParameterGradientsOfTheObject.

(** ** The surrogate branches of the shear and crippling loads *)

Section SurrogateGradients.

(** A load [N * (c * exp(mean))] whose test point depends on the
    variable through its entry [j], for a surrogate whose sensitivity
    routine is the gradient of its mean. *)
Lemma dl_surrogate_load_of (gp : GP.t) (N c : R) (X : list R) (j : nat)
    (u : R -> R) (x lu : R) :
  sens_is_gradient gp X ->
  (j < 4)%nat -> (4 <= length X)%nat ->
  derivable_pt_lim u x lu ->
  X !!! j = u x ->
  derivable_pt_lim
    (fun z =>
       N * (c * exp (GP.predictMeanTestData gp (with_entry j (u z) X)))) x
    ((GP.predictMeanTestDataSens gp
        (N * (c * exp (GP.predictMeanTestData gp X))) X
        (replicate (GP.n_param gp) 0)).2 !!! j * lu).
Proof.
  intros Hgrad Hj HX Hu HXj.
  assert (with_entry j (u x) X = X) as Hid.
  { unfold with_entry. apply list_insert_id. rewrite <- HXj.
    apply list_lookup_lookup_total_lt. lia. }
  set (Y0 := N * (c * exp (GP.predictMeanTestData gp X))).
  pose proof (Hgrad 1 j Hj) as H1.
  pose proof (Hgrad Y0 j Hj) as HY.
  set (S1 := (GP.predictMeanTestDataSens gp 1 X _).2 !!! j) in H1.
  set (SY := (GP.predictMeanTestDataSens gp Y0 X _).2 !!! j) in HY |- *.
  assert (derivable_pt_lim
            (fun z => GP.predictMeanTestData gp (with_entry j z X))
            (u x) S1) as Hmean.
  { rewrite <- HXj.
    apply (derivable_pt_lim_ext
             (fun z => 1 * GP.predictMeanTestData gp (with_entry j z X)));
      [intros z; ring | exact H1]. }
  assert (SY = Y0 * S1) as ->.
  { apply (uniqueness_limite
             (fun z => Y0 * GP.predictMeanTestData gp (with_entry j z X))
             (X !!! j)); [exact HY|].
    rewrite HXj. eapply dl_value.
    - apply dl_mult; [apply dl_const | exact Hmean].
    - cbv beta. ring. }
  pose proof (derivable_pt_lim_comp u
                (fun y => GP.predictMeanTestData gp (with_entry j y X))
                x lu S1 Hu Hmean) as Hcomp.
  eapply dl_value.
  - apply dl_mult; [apply dl_const|].
    apply dl_mult; [apply dl_const|].
    apply dl_exp. exact Hcomp.
  - cbv beta. rewrite Hid. subst Y0. ring.
Qed.

(** X26.  In the surrogate branch [computeCriticalGlobalShearLoadSens]
    is the exact adjoint of [computeCriticalGlobalShearLoad]: it returns
    the load, and the increment it adds to each of its seven
    sensitivities is the partial derivative of [N12sens] times the load
    in the corresponding input ([D11], [D22], [b], [xi], [rho_0],
    [gamma], [zeta]).  This holds for every shear surrogate whose
    sensitivity routine is the gradient of its mean at the test point,
    at positive [D11], [D22], [xi], [rho_0], [1 + gamma], [zeta] and
    non-zero [b]. *)
Theorem computeCriticalGlobalShearLoadSens_surrogate_gradient
    (fuel : nat) (this : t) (gp : GP.t)
    (N12sens D11 D22 b xi rho_0 gamma zeta : R)
    (s1 s2 s3 s4 s5 s6 s7 : R) :
  getShearGP this = Some gp ->
  sens_is_gradient gp
    (log_inputs (libm.log xi) (libm.log rho_0) (libm.log (1.0 + gamma))
       (libm.log zeta)) ->
  0 < D11 -> 0 < D22 -> b <> 0 ->
  0 < xi -> 0 < rho_0 -> 0 < 1 + gamma -> 0 < zeta ->
  let load :=
    fun D11 D22 b xi rho_0 gamma zeta =>
      N12sens
      * default 0
          (computeCriticalGlobalShearLoad fuel this D11 D22 b xi rho_0
             gamma zeta) in
  exists N12 D11sens D22sens bsens xisens rho_0sens gammasens zetasens,
    computeCriticalGlobalShearLoadSens fuel this N12sens D11 D22 b xi rho_0
      gamma zeta s1 s2 s3 s4 s5 s6 s7
    = Some (N12, (D11sens, D22sens, bsens, xisens, rho_0sens, gammasens,
                  zetasens))
    /\ computeCriticalGlobalShearLoad fuel this D11 D22 b xi rho_0 gamma zeta
       = Some N12
    /\ derivable_pt_lim (fun z => load z D22 b xi rho_0 gamma zeta) D11
         (D11sens - s1)
    /\ derivable_pt_lim (fun z => load D11 z b xi rho_0 gamma zeta) D22
         (D22sens - s2)
    /\ derivable_pt_lim (fun z => load D11 D22 z xi rho_0 gamma zeta) b
         (bsens - s3)
    /\ derivable_pt_lim (fun z => load D11 D22 b z rho_0 gamma zeta) xi
         (xisens - s4)
    /\ derivable_pt_lim (fun z => load D11 D22 b xi z gamma zeta) rho_0
         (rho_0sens - s5)
    /\ derivable_pt_lim (fun z => load D11 D22 b xi rho_0 z zeta) gamma
         (gammasens - s6)
    /\ derivable_pt_lim (fun z => load D11 D22 b xi rho_0 gamma z) zeta
         (zetasens - s7).
Proof.
  intros Hgp Hgrad HD11 HD22 Hb Hxi Hrho Hgamma Hzeta.
  unfold computeCriticalGlobalShearLoadSens, computeCriticalGlobalShearLoad.
  rewrite Hgp. cbv zeta. unfold libm.M_PI, libm.log, log_inputs in *.
  do 8 eexists. split; [reflexivity|]. split; [reflexivity|].
  cbn [default from_option].
  set (X := [ln xi; ln rho_0; ln (1.0 + gamma); ln zeta]) in *.
  assert (0 < D11 * D22 * D22 * D22) as HW.
  { assert (0 < D11 * D22) by nra. assert (0 < D22 * D22) by nra. nra. }
  assert (libm.pow (D11 * D22 * D22 * D22) 0.25
          = Rpower (D11 * D22 * D22 * D22) 0.25) as HP.
  { unfold libm.pow. now rewrite decide_True. }
  set (c := PI * PI * libm.pow (D11 * D22 * D22 * D22) 0.25 / b / b).
  assert (forall (j : nat) (u : R -> R) (x lu : R),
            (j < 4)%nat ->
            derivable_pt_lim u x lu ->
            X !!! j = u x ->
            derivable_pt_lim
              (fun z =>
                 N12sens
                 * (c * exp (GP.predictMeanTestData gp
                               (with_entry j (u z) X)))) x
              ((GP.predictMeanTestDataSens gp
                  (N12sens * (c * exp (GP.predictMeanTestData gp X))) X
                  (replicate (GP.n_param gp) 0)).2 !!! j * lu)) as Hdir.
  { intros j u x lu Hj Hu HXj.
    apply dl_surrogate_load_of; try assumption. cbn. lia. }
  split; [|split; [|split; [|split; [|split; [|split]]]]].
  - apply (derivable_pt_lim_locally_ext
             (fun z =>
                N12sens
                * (PI * PI * Rpower (z * D22 * D22 * D22) 0.25 / b / b
                   * exp (GP.predictMeanTestData gp X)))
             _ D11 (D11 / 2) (D11 * 2)); [lra| |].
    { intros z Hz. unfold libm.pow. rewrite decide_True; [reflexivity|].
      assert (0 < z * D22) by nra. assert (0 < D22 * D22) by nra. nra. }
    eapply dl_value.
    + apply dl_mult; [apply dl_const|].
      apply dl_mult; [|apply dl_const].
      apply dl_div; [|apply dl_const|exact Hb].
      apply dl_div; [|apply dl_const|exact Hb].
      apply dl_mult; [apply dl_const|].
      apply dl_Rpower; [differentiate | exact HW].
    + cbv beta. subst c. rewrite HP, Rpower_pred by exact HW. unfold Rsqr.
      set (P := Rpower (D11 * D22 * D22 * D22) 0.25). clearbody P.
      rewrite lit_0_25. field. repeat split; lra.
  - apply (derivable_pt_lim_locally_ext
             (fun z =>
                N12sens
                * (PI * PI * Rpower (D11 * z * z * z) 0.25 / b / b
                   * exp (GP.predictMeanTestData gp X)))
             _ D22 (D22 / 2) (D22 * 2)); [lra| |].
    { intros z Hz. unfold libm.pow. rewrite decide_True; [reflexivity|].
      assert (0 < D11 * z) by nra. assert (0 < z * z) by nra. nra. }
    eapply dl_value.
    + apply dl_mult; [apply dl_const|].
      apply dl_mult; [|apply dl_const].
      apply dl_div; [|apply dl_const|exact Hb].
      apply dl_div; [|apply dl_const|exact Hb].
      apply dl_mult; [apply dl_const|].
      apply dl_Rpower; [differentiate | exact HW].
    + cbv beta. subst c. rewrite HP, Rpower_pred by exact HW. unfold Rsqr.
      set (P := Rpower (D11 * D22 * D22 * D22) 0.25). clearbody P.
      rewrite lit_0_25. replace 0.75 with (3 / 4) by lra.
      field. repeat split; lra.
  - eapply dl_value; [differentiate; exact Hb|]. cbv beta.
    subst c. unfold Rsqr. rewrite lit_m2_0. field. lra.
  - eapply dl_value.
    + apply (Hdir 0%nat ln xi (/ xi)); [lia | | reflexivity].
      now apply derivable_pt_lim_ln.
    + unfold Rdiv; ring.
  - eapply dl_value.
    + apply (Hdir 1%nat ln rho_0 (/ rho_0)); [lia | | reflexivity].
      now apply derivable_pt_lim_ln.
    + unfold Rdiv; ring.
  - eapply dl_value.
    + apply (Hdir 2%nat (fun z => ln (1.0 + z)) gamma
               (/ (1.0 + gamma) * (0 + 1))); [lia | | reflexivity].
      differentiate. lra.
    + unfold Rdiv; ring.
  - eapply dl_value.
    + apply (Hdir 3%nat ln zeta (/ zeta)); [lia | | reflexivity].
      now apply derivable_pt_lim_ln.
    + unfold Rdiv; ring.
Qed.

(** X27.  In the surrogate branch [computeStiffenerCripplingLoadSens]
    is the exact adjoint of [computeStiffenerCripplingLoad] in its six
    arguments: the increment it adds to [*D11sens], [*D22sens],
    [*xisens], [*rho_0sens], [*genPoiss_sens] and [*zetasens] is the
    partial derivative of [N1sens] times the load in [D11], [D22], [xi],
    [rho_0], [genPoiss] and [zeta].  This holds for every crippling
    surrogate whose sensitivity routine is the gradient of its mean at
    the test point, at positive arguments and a non-zero
    [stiffenerHeight]. *)
Theorem computeStiffenerCripplingLoadSens_surrogate_gradient
    (this : t) (gp : GP.t)
    (N1sens D11 D22 xi rho_0 genPoiss zeta : R)
    (s1 s2 s3 s4 s5 s6 s7 : R) :
  getCripplingGP this = Some gp ->
  sens_is_gradient gp
    (log_inputs (libm.log xi) (libm.log rho_0) (libm.log genPoiss)
       (libm.log zeta)) ->
  0 < D11 -> 0 < D22 -> Base.stiffenerHeight (base this) <> 0 ->
  0 < xi -> 0 < rho_0 -> 0 < genPoiss -> 0 < zeta ->
  let load :=
    fun D11 D22 xi rho_0 genPoiss zeta =>
      N1sens
      * computeStiffenerCripplingLoad this D11 D22 xi rho_0 genPoiss zeta in
  let '(_, (D11sens, D22sens, sheightsens, xisens, rho_0sens,
            genPoiss_sens, zetasens)) :=
    computeStiffenerCripplingLoadSens this N1sens D11 D22 xi rho_0 genPoiss
      zeta s1 s2 s3 s4 s5 s6 s7 in
  derivable_pt_lim (fun z => load z D22 xi rho_0 genPoiss zeta) D11
    (D11sens - s1)
  /\ derivable_pt_lim (fun z => load D11 z xi rho_0 genPoiss zeta) D22
       (D22sens - s2)
  /\ derivable_pt_lim (fun z => load D11 D22 z rho_0 genPoiss zeta) xi
       (xisens - s4)
  /\ derivable_pt_lim (fun z => load D11 D22 xi z genPoiss zeta) rho_0
       (rho_0sens - s5)
  /\ derivable_pt_lim (fun z => load D11 D22 xi rho_0 z zeta) genPoiss
       (genPoiss_sens - s6)
  /\ derivable_pt_lim (fun z => load D11 D22 xi rho_0 genPoiss z) zeta
       (zetasens - s7).
Proof.
  intros Hgp Hgrad HD11 HD22 Hh Hxi Hrho Hpoiss Hzeta.
  unfold computeStiffenerCripplingLoadSens, computeStiffenerCripplingLoad.
  rewrite Hgp. cbv zeta. unfold libm.M_PI, libm.log, log_inputs in *.
  set (X := [ln xi; ln rho_0; ln genPoiss; ln zeta]) in *.
  assert (0 < D11 * D22) as Hprod by nra.
  pose proof (sqrt_lt_R0 _ Hprod) as HS.
  pose proof (sqrt_sqrt (D11 * D22) ltac:(lra)) as HSS.
  set (h := Base.stiffenerHeight (base this)) in *.
  set (c := PI * PI * sqrt (D11 * D22) / h / h).
  assert (forall (j : nat) (u : R -> R) (x lu : R),
            (j < 4)%nat ->
            derivable_pt_lim u x lu ->
            X !!! j = u x ->
            derivable_pt_lim
              (fun z =>
                 N1sens
                 * (c * exp (GP.predictMeanTestData gp
                               (with_entry j (u z) X)))) x
              ((GP.predictMeanTestDataSens gp
                  (N1sens * (c * exp (GP.predictMeanTestData gp X))) X
                  (replicate (GP.n_param gp) 0)).2 !!! j * lu)) as Hdir.
  { intros j u x lu Hj Hu HXj.
    apply dl_surrogate_load_of; try assumption. cbn. lia. }
  split; [|split; [|split; [|split; [|split]]]].
  - eapply dl_value; [differentiate; try exact Hprod; exact Hh|]. cbv beta.
    subst c. unfold Rsqr. set (S := sqrt (D11 * D22)) in *. clearbody S.
    assert (D22 = S * S / D11) as -> by (rewrite HSS; field; lra).
    rewrite lit_0_5. field. repeat split; lra.
  - eapply dl_value; [differentiate; try exact Hprod; exact Hh|]. cbv beta.
    subst c. unfold Rsqr. set (S := sqrt (D11 * D22)) in *. clearbody S.
    assert (D11 = S * S / D22) as -> by (rewrite HSS; field; lra).
    rewrite lit_0_5. field. repeat split; lra.
  - eapply dl_value.
    + apply (Hdir 0%nat ln xi (/ xi)); [lia | | reflexivity].
      now apply derivable_pt_lim_ln.
    + unfold Rdiv; ring.
  - eapply dl_value.
    + apply (Hdir 1%nat ln rho_0 (/ rho_0)); [lia | | reflexivity].
      now apply derivable_pt_lim_ln.
    + unfold Rdiv; ring.
  - eapply dl_value.
    + apply (Hdir 2%nat ln genPoiss (/ genPoiss)); [lia | | reflexivity].
      now apply derivable_pt_lim_ln.
    + unfold Rdiv; ring.
  - eapply dl_value.
    + apply (Hdir 3%nat ln zeta (/ zeta)); [lia | | reflexivity].
      now apply derivable_pt_lim_ln.
    + unfold Rdiv; ring.
Qed.

End SurrogateGradients.

(** ** The coupled shear-mode solver: the residual and its derivative *)

Section SolverDerivative.

(** A function with a derivative that is positive at a point is positive
    around it. *)
Lemma positive_nearby (f : R -> R) (x l : R) :
  derivable_pt_lim f x l -> 0 < f x ->
  exists a b : R, a < x < b /\ forall z : R, a < z < b -> 0 < f z.
Proof.
  intros Hf Hpos.
  assert (continuity_pt f x) as Hc.
  { apply derivable_continuous_pt. now exists l. }
  destruct (Hc (f x) Hpos) as (delta & Hdelta & Hnear).
  exists (x - delta), (x + delta). split; [lra|].
  intros z Hz.
  destruct (Req_dec x z) as [<-|Hne]; [exact Hpos|].
  specialize (Hnear z).
  unfold D_x, no_cond, dist in Hnear. simpl in Hnear. unfold Rdist in Hnear.
  assert (Rabs (f z - f x) < f x) as Habs.
  { apply Hnear. split; [now split|].
    apply Rabs_def1; lra. }
  apply Rabs_def2 in Habs. lra.
Qed.

Variables xi gamma : R.

(** The radicand of [lam1bar], [lam1bar] itself and the radicand of the
    square root, as functions of a real [lam2sq]. *)
#[local] Abbreviation temp_of :=
  (fun s : R => 1.0 + 2.0 * s * xi + s * s + gamma).
#[local] Abbreviation lam1_of := (fun s : R => Rpower (temp_of s) 0.25).
#[local] Abbreviation radicand_of :=
  (fun s : R =>
     (3.0 + xi) / 9.0 + 4.0 / 3.0 * (lam1_of s * lam1_of s) * xi
     + 4.0 / 3.0 * (lam1_of s * lam1_of s * (lam1_of s * lam1_of s))).

Lemma radicand_pos (s : R) : 0 <= xi -> 0 < radicand_of s.
Proof.
  intros Hxi.
  assert (0 < lam1_of s) as Hl by (unfold Rpower; apply exp_pos).
  assert (0 < lam1_of s * lam1_of s) as Hsq by nra.
  assert (0 <= lam1_of s * lam1_of s * xi) by nra.
  assert (0 < lam1_of s * lam1_of s * (lam1_of s * lam1_of s)) by nra.
  lra.
Qed.

(** The residual at a real [lam2sq] with a positive radicand. *)
Lemma lam2Constraint_real (s : R) :
  0 <= xi -> 0 < temp_of s ->
  lam2Constraint (fp.Fin s) xi gamma
  = fp.Fin (s + lam1_of s * lam1_of s + xi / 3.0 - sqrt (radicand_of s)).
Proof.
  intros Hxi HT. pose proof (radicand_pos s Hxi) as Hrad.
  unfold lam2Constraint. cbn [fp.add fp.mul].
  rewrite fp_pow_pos by exact HT. cbn [fp.add fp.mul].
  rewrite !fp_div_eq by lra. cbn [fp.add fp.mul].
  unfold fp.sqrt. rewrite decide_True by lra. reflexivity.
Qed.

(** What [lam2ConstraintDeriv] returns there. *)
Lemma lam2ConstraintDeriv_real (s : R) :
  0 <= xi -> 0 < temp_of s ->
  lam2ConstraintDeriv (fp.Fin s) xi gamma
  = fp.Fin
      (1.0
       + (2 * lam1_of s
          - 0.5 / sqrt (radicand_of s) * 4.0 / 3.0
            * (2.0 * lam1_of s * xi
               + 4.0 * lam1_of s * (lam1_of s * lam1_of s)))
         * (lam1_of s * 0.25 / temp_of s * (2.0 + 2.0 * s))).
Proof.
  intros Hxi HT. pose proof (radicand_pos s Hxi) as Hrad.
  pose proof (sqrt_lt_R0 _ Hrad) as Hsqrt.
  unfold lam2ConstraintDeriv. cbn [fp.add fp.mul].
  rewrite fp_pow_pos by exact HT. cbn [fp.add fp.mul].
  rewrite !fp_div_eq by lra. cbn [fp.add fp.mul].
  unfold fp.sqrt. rewrite decide_True by lra.
  rewrite !fp_div_eq by lra. cbn [fp.add fp.mul].
  rewrite !fp_div_eq by lra. cbn [fp.sub fp.add fp.mul fp.neg].
  reflexivity.
Qed.

Ltac differentiate_pow :=
  first
    [ apply dl_const
    | apply dl_id
    | eapply dl_plus; differentiate_pow
    | eapply dl_minus; differentiate_pow
    | eapply dl_mult; differentiate_pow
    | eapply dl_sqrt; [differentiate_pow | ]
    | eapply dl_Rpower; [differentiate_pow | ] ].

(** The derivative of the residual in [lam2sq]: the value that
    [lam2ConstraintDeriv] computes, plus the part of the derivative of
    the radicand that it leaves out. *)
Lemma lam2Constraint_derivative (s : R) :
  0 <= xi -> 0 < temp_of s ->
  derivable_pt_lim
    (fun z => fp_value (lam2Constraint (fp.Fin z) xi gamma)) s
    (1.0
     + (2 * lam1_of s
        - 0.5 / sqrt (radicand_of s) * 4.0 / 3.0
          * (2.0 * lam1_of s * xi
             + 4.0 * lam1_of s * (lam1_of s * lam1_of s)))
       * (lam1_of s * 0.25 / temp_of s * (2.0 + 2.0 * s))
     + (2 * lam1_of s
        - 0.5 / sqrt (radicand_of s) * 4.0 / 3.0
          * (2.0 * lam1_of s * xi
             + 4.0 * lam1_of s * (lam1_of s * lam1_of s)))
       * (lam1_of s * 0.25 / temp_of s * (2.0 * xi - 2.0))).
Proof.
  intros Hxi HT. pose proof (radicand_pos s Hxi) as Hrad.
  pose proof (sqrt_lt_R0 _ Hrad) as Hsqrt.
  destruct (positive_nearby temp_of s (2.0 * xi + 2.0 * s))
    as (a & b & Hab & Hnear).
  { eapply dl_value; [differentiate|]. cbv beta. lra. }
  { exact HT. }
  apply (derivable_pt_lim_locally_ext
           (fun z =>
              z + lam1_of z * lam1_of z + xi / 3.0
              - sqrt (radicand_of z))
           _ s a b); [exact Hab| |].
  { intros z Hz. now rewrite lam2Constraint_real by auto. }
  eapply dl_value.
  - differentiate_pow; try (cbv beta; assumption).
  - cbv beta. rewrite !Rpower_pred by exact HT.
    set (P := Rpower (temp_of s) 0.25) in *.
    set (Q := sqrt _) in *.
    set (T := temp_of s) in *.
    clearbody Q P T.
    rewrite ?lit_1_0, ?lit_2_0, ?lit_3_0, ?lit_4_0, ?lit_0_25, ?lit_0_5.
    field. lra.
Qed.

(** X28.  At a real [lam2sq] where the radicand
    [temp = 1 + 2 lam2sq xi + lam2sq^2 + gamma] of [lam1bar] is
    positive, and for [xi >= 0], [lam2ConstraintDeriv] returns a real
    number, and the derivative of the residual [lam2Constraint] in
    [lam2sq] is that number plus
    [dfdlam1 * (lam1 * 0.25 / temp * (2 xi - 2))], in the names of the
    routine: the routine takes [2 + 2 lam2sq] for the derivative of
    [temp], which is [2 xi + 2 lam2sq].  For [xi = 1] the routine
    returns the derivative of the residual. *)
Theorem lam2ConstraintDeriv_differentiates_for_xi_1 (s : R) :
  0 <= xi ->
  0 < 1.0 + 2.0 * s * xi + s * s + gamma ->
  let temp := 1.0 + 2.0 * s * xi + s * s + gamma in
  let lam1 := libm.pow temp 0.25 in
  let lam1sq := lam1 * lam1 in
  let term2 :=
    sqrt ((3.0 + xi) / 9.0 + 4.0 / 3.0 * lam1sq * xi
          + 4.0 / 3.0 * (lam1sq * lam1sq)) in
  let dfdlam1 :=
    2 * lam1
    - 0.5 / term2 * 4.0 / 3.0 * (2.0 * lam1 * xi + 4.0 * lam1 * lam1sq) in
  exists d : R,
    lam2ConstraintDeriv (fp.Fin s) xi gamma = fp.Fin d
    /\ derivable_pt_lim
         (fun z => fp_value (lam2Constraint (fp.Fin z) xi gamma)) s
         (d + dfdlam1 * (lam1 * 0.25 / temp * (2.0 * xi - 2.0)))
    /\ (xi = 1 ->
        derivable_pt_lim
          (fun z => fp_value (lam2Constraint (fp.Fin z) xi gamma)) s d).
Proof.
  intros Hxi HT. cbv zeta.
  assert (libm.pow (temp_of s) 0.25 = lam1_of s) as ->.
  { unfold libm.pow. now rewrite decide_True. }
  pose proof (radicand_pos s Hxi) as Hrad.
  pose proof (sqrt_lt_R0 _ Hrad) as Hsqrt.
  eexists. split; [now apply lam2ConstraintDeriv_real|].
  pose proof (lam2Constraint_derivative s Hxi HT) as Hderiv.
  split; [exact Hderiv|].
  intros ->. eapply dl_value; [exact Hderiv|].
  replace (2.0 * 1 - 2.0) with 0 by lra.
  rewrite Rmult_0_r, Rmult_0_r. lra.
Qed.

End SolverDerivative.

Lemma sqrt_between (x lo hi : R) :
  0 <= lo -> lo * lo <= x -> x <= hi * hi -> 0 <= hi -> lo <= sqrt x <= hi.
Proof.
  intros Hlo Hl Hh Hhi. split.
  - rewrite <- (sqrt_square lo Hlo). apply sqrt_le_1_alt. exact Hl.
  - rewrite <- (sqrt_square hi Hhi). apply sqrt_le_1_alt. exact Hh.
Qed.

Lemma quarter_power_squared (T : R) :
  0 < T -> Rpower T 0.25 * Rpower T 0.25 = sqrt T.
Proof.
  intros HT. rewrite <- Rpower_plus.
  replace (0.25 + 0.25) with (/ 2) by lra.
  now apply Rpower_sqrt.
Qed.

(** C5 fails on the source.  At [xi = 106/13], [gamma = 0], a point of
    the box, the residual at the starting guess [lam2sq = 0] is [2/39]
    and its derivative is [-997/169], but [lam2ConstraintDeriv] returns
    [2/13]: it takes [2 + 2 lam2sq] for the derivative of the radicand
    [1 + 2 lam2sq xi + lam2sq^2 + gamma], which is [2 xi + 2 lam2sq].
    With the slope of the wrong sign the first update goes to
    [lam2sq = -1/3], where the radicand is negative and the residual is
    NaN; the loop stops there, [nondimShearParams] returns NaN for both
    parameters, and no number of iterations reaches
    [|lam2Constraint| < 1e-10].  A step with the derivative of the
    residual goes to [lam2sq = 338/38883] instead, where the residual is
    a real number below [0.011] in absolute value. *)
Theorem newton_loop_fails_by_wrong_slope :
  let xi := 106 / 13 in
  (0.01 <= xi <= 100 /\ 0 <= 0 <= 5)
  /\ lam2Constraint (fp.Fin 0) xi 0 = fp.Fin (2 / 39)
  /\ lam2ConstraintDeriv (fp.Fin 0) xi 0 = fp.Fin (2 / 13)
  /\ derivable_pt_lim
       (fun z => fp_value (lam2Constraint (fp.Fin z) xi 0)) 0 (- 997 / 169)
  /\ newton_update (fp.Fin 0.0) xi 0 = fp.Fin (- 1 / 3)
  /\ lam2Constraint (fp.Fin (- 1 / 3)) xi 0 = fp.NaN
  /\ (forall fuel : nat,
        newton_loop fuel (fp.Fin 0.0) xi 0
        = if decide (fuel < 2)%nat then None else Some (fp.Fin (- 1 / 3)))
  /\ (forall fuel : nat,
        (2 <= fuel)%nat ->
        nondimShearParams fuel xi 0 = Some (fp.NaN, fp.NaN))
  /\ ~ (exists (fuel : nat) (lam2sq : fp.t) (g : R),
          newton_loop fuel (fp.Fin 0.0) xi 0 = Some lam2sq
          /\ lam2Constraint lam2sq xi 0 = fp.Fin g
          /\ Rabs g < 1e-10)
  /\ (0 - 2 / 39 / (- 997 / 169) = 338 / 38883
      /\ exists g : R,
           lam2Constraint (fp.Fin (338 / 38883)) xi 0 = fp.Fin g
           /\ Rabs g < 11 / 1000).
Proof.
  intros xi. subst xi.
  split; [lra|].
  split; [exact lam2Constraint_start|].
  split; [exact lam2ConstraintDeriv_start|].
  split.
  { eapply dl_value.
    - apply (lam2Constraint_derivative (106 / 13) 0 0); lra.
    - replace (1.0 + 2.0 * 0 * (106 / 13) + 0 * 0 + 0) with 1 by lra.
      assert (Rpower 1 0.25 = 1) as ->.
      { unfold Rpower. rewrite ln_1, Rmult_0_r. apply exp_0. }
      assert (sqrt ((3.0 + 106 / 13) / 9.0 + 4.0 / 3.0 * (1 * 1) * (106 / 13)
                    + 4.0 / 3.0 * (1 * 1 * (1 * 1))) = 11 / 3) as ->.
      { apply sqrt_lem_1; lra. }
      lra. }
  split; [exact newton_update_start|].
  split; [exact lam2Constraint_after_step|].
  split; [exact newton_loop_NaN_exit|].
  split.
  { intros fuel Hfuel. unfold nondimShearParams.
    rewrite newton_loop_NaN_exit, decide_False by lia.
    cbn [mbind option_bind fp.add fp.mul].
    f_equal. f_equal.
    - apply fp_pow_neg; [lra|].
      apply (not_integer_between _ 0). lra.
    - rewrite fp_pow_half. unfold fp.sqrt.
      rewrite decide_False by lra. reflexivity. }
  split.
  { intros (fuel & lam2sq & g & Hl & Hg & _).
    rewrite newton_loop_NaN_exit in Hl.
    destruct (decide (fuel < 2)%nat); [discriminate|].
    injection Hl as <-. rewrite lam2Constraint_after_step in Hg.
    discriminate. }
  split; [lra|].
  eexists. split; [apply lam2Constraint_real; lra|].
  rewrite quarter_power_squared by lra.
  set (T := 1.0 + 2.0 * (338 / 38883) * (106 / 13)
            + 338 / 38883 * (338 / 38883) + 0).
  assert (114 / 100 <= T <= 115 / 100) as HT by (subst T; lra).
  destruct (sqrt_between T (1067 / 1000) (1073 / 1000)) as [HL1 HL2];
    [lra | lra | lra | lra |].
  set (L := sqrt T) in *.
  assert (143575 / 10000
          <= (3.0 + 106 / 13) / 9.0 + 4.0 / 3.0 * L * (106 / 13)
             + 4.0 / 3.0 * (L * L)
          <= 144400 / 10000) as Hrad by nra.
  destruct (sqrt_between
              ((3.0 + 106 / 13) / 9.0 + 4.0 / 3.0 * L * (106 / 13)
               + 4.0 / 3.0 * (L * L))
              (3789 / 1000) (38 / 10)) as [HS1 HS2];
    [lra | lra | lra | lra |].
  apply Rabs_def1; lra.
Qed.

(** ** The coupled shear-mode solver: a run that converges *)

(** At [xi = 1], [gamma = 0] and [lam2sq = u - 1] the radicand of
    [lam1bar] is [u^2] and [lam1bar^2 = u]; the residual has the root
    [u = 3/2]. *)
Section NewtonConvergence.

Lemma quarter_power_of_square (u : R) :
  0 < u -> Rpower (u * u) 0.25 * Rpower (u * u) 0.25 = u.
Proof.
  intros Hu. rewrite <- Rpower_plus.
  replace (0.25 + 0.25) with (/ 2) by lra.
  rewrite Rpower_sqrt by nra. apply sqrt_square. lra.
Qed.

Lemma sqrt_four_ninths (w : R) :
  0 <= w -> sqrt (4 / 9 * w) = 2 / 3 * sqrt w.
Proof.
  intros Hw. rewrite sqrt_mult by lra. f_equal.
  apply sqrt_lem_1; lra.
Qed.

Lemma temp_at_xi_1 (u : R) :
  1.0 + 2.0 * (u - 1) * 1 + (u - 1) * (u - 1) + 0 = u * u.
Proof. rewrite lit_1_0, lit_2_0. ring. Qed.

(** [q(u) = sqrt(1 + 3u + 3u^2)], the square root of the residual up to
    the factor [2/3]. *)
Lemma radicand_at_xi_1 (u : R) :
  0 < u ->
  sqrt ((3.0 + 1) / 9.0
        + 4.0 / 3.0 * (Rpower (u * u) 0.25 * Rpower (u * u) 0.25) * 1
        + 4.0 / 3.0
          * (Rpower (u * u) 0.25 * Rpower (u * u) 0.25
             * (Rpower (u * u) 0.25 * Rpower (u * u) 0.25)))
  = 2 / 3 * sqrt (1 + 3 * u + 3 * (u * u)).
Proof.
  intros Hu. rewrite quarter_power_of_square by exact Hu.
  rewrite <- sqrt_four_ninths by nra. f_equal.
  rewrite lit_3_0, lit_4_0, lit_9_0. field.
Qed.

Lemma lam2Constraint_at_xi_1 (u : R) :
  0 < u ->
  lam2Constraint (fp.Fin (u - 1)) 1 0
  = fp.Fin (2 * u - 2 / 3 - 2 / 3 * sqrt (1 + 3 * u + 3 * (u * u))).
Proof.
  intros Hu.
  rewrite lam2Constraint_real by (rewrite ?temp_at_xi_1; nra).
  rewrite temp_at_xi_1, radicand_at_xi_1 by exact Hu.
  rewrite quarter_power_of_square by exact Hu.
  f_equal. rewrite lit_3_0. lra.
Qed.

Lemma lam2ConstraintDeriv_at_xi_1 (u : R) :
  0 < u ->
  lam2ConstraintDeriv (fp.Fin (u - 1)) 1 0
  = fp.Fin (2 - (1 + 2 * u) / sqrt (1 + 3 * u + 3 * (u * u))).
Proof.
  intros Hu.
  rewrite lam2ConstraintDeriv_real by (rewrite ?temp_at_xi_1; nra).
  rewrite temp_at_xi_1, radicand_at_xi_1 by exact Hu.
  pose proof (quarter_power_of_square u Hu) as HL.
  assert (0 < Rpower (u * u) 0.25) as HLpos by (unfold Rpower; apply exp_pos).
  set (L := Rpower (u * u) 0.25) in *.
  assert (0 < sqrt (1 + 3 * u + 3 * (u * u))) as Hq
    by (apply sqrt_lt_R0; nra).
  set (q := sqrt (1 + 3 * u + 3 * (u * u))) in *.
  clearbody L q. f_equal. subst u.
  rewrite lit_0_25, lit_0_5, lit_1_0, lit_2_0, lit_3_0, lit_4_0.
  field. lra.
Qed.

(** One Newton step in terms of the distance [e = 3/2 - u] to the root:
    with [A = 5u + 3 + 3q], [B = 3u - 1 + q] and [C = 2q - 1 - 2u] the
    residual is [-4 u e / B] and the next distance is
    [2 u e^2 / (A B C)]. *)
Lemma newton_step_algebra (u q : R) :
  1 <= u <= 3 / 2 -> 0 < q -> q * q = 1 + 3 * u + 3 * (u * u) ->
  let e := 3 / 2 - u in
  let g := 2 * u - 2 / 3 - 2 / 3 * q in
  let d := 2 - (1 + 2 * u) / q in
  0 < d
  /\ 4 / 7 * e <= - g <= 30 / 23 * e
  /\ / 294 * (e * e) <= e + g / d <= / 29 * (e * e).
Proof.
  intros Hu Hq Hq2 e g d.
  assert (26 / 10 <= q <= 7 / 2) as Hqb by nra.
  set (A := 5 * u + 3 + 3 * q).
  set (B := 3 * u - 1 + q).
  set (C := 2 * q - 1 - 2 * u).
  assert (0 <= e <= / 2) as He by (subst e; lra).
  assert (158 / 10 <= A <= 21) as HA by (subst A; lra).
  assert (46 / 10 <= B <= 7) as HB by (subst B; lra).
  assert (12 / 10 <= C <= 4) as HC by (subst C; lra).
  assert (d = C / q) as Hd by (subst d C; field; lra).
  assert (0 < d) as Hdpos.
  { rewrite Hd. apply Rdiv_lt_0_compat; lra. }
  assert (- g * B = 4 * u * e) as HgB by (subst g B e; nra).
  assert (0 <= u * e) as Hue by nra.
  assert (0 <= - g) as Hg0.
  { destruct (Rle_or_lt 0 (- g)) as [H|H]; [exact H|]. exfalso.
    assert (- g * B < 0) by nra. lra. }
  split; [exact Hdpos|]. split.
  { split.
    - assert (- g * B <= - g * 7) by nra.
      assert (4 * e <= 4 * u * e) by nra. lra.
    - assert (- g * (46 / 10) <= - g * B) by nra.
      assert (4 * u * e <= 6 * e) by nra. lra. }
  set (e' := e + g / d).
  assert (e' * C = e * C + g * q) as HeC.
  { subst e'. rewrite Hd. field. lra. }
  assert (B * C - 4 * u * q = 5 * u + 3 - 3 * q) as HBC
    by (subst B C; nra).
  assert ((5 * u + 3 - 3 * q) * A = 2 * u * e) as HA2
    by (subst A e; nra).
  assert (e' * C * B = e * (5 * u + 3 - 3 * q)) as HeCB.
  { rewrite HeC, <- HBC.
    replace ((e * C + g * q) * B) with (e * (B * C) - (- g * B) * q)
      by ring.
    rewrite HgB. ring. }
  assert (e' * (C * B * A) = 2 * u * (e * e)) as Hprod.
  { replace (e' * (C * B * A)) with (e' * C * B * A) by ring.
    rewrite HeCB.
    replace (e * (5 * u + 3 - 3 * q) * A)
      with (e * ((5 * u + 3 - 3 * q) * A)) by ring.
    rewrite HA2. ring. }
  assert (552 / 100 <= C * B <= 28) as HCB by nra.
  assert (87 <= C * B * A <= 588) as HM by nra.
  set (M := C * B * A) in *.
  assert (0 <= e * e) as Hee by nra.
  assert (0 <= e') as He'.
  { destruct (Rle_or_lt 0 e') as [H|H]; [exact H|]. exfalso.
    assert (e' * M < 0) by nra. nra. }
  split.
  - assert (e' * M <= e' * 588) by nra.
    assert (2 * (e * e) <= 2 * u * (e * e)) by nra. lra.
  - assert (e' * 87 <= e' * M) by nra.
    assert (2 * u * (e * e) <= 3 * (e * e)) by nra. lra.
Qed.

Lemma q_at_xi_1 (u : R) :
  1 <= u <= 3 / 2 ->
  0 < sqrt (1 + 3 * u + 3 * (u * u))
  /\ sqrt (1 + 3 * u + 3 * (u * u)) * sqrt (1 + 3 * u + 3 * (u * u))
     = 1 + 3 * u + 3 * (u * u).
Proof.
  intros Hu. split; [apply sqrt_lt_R0; nra | apply sqrt_sqrt; nra].
Qed.

(** The loop test at distance [e = 3/2 - u] from the root. *)
Lemma newton_continues_at_xi_1 (u : R) :
  1 <= u <= 3 / 2 ->
  (2e-10 <= 3 / 2 - u -> newton_continues (fp.Fin (u - 1)) 1 0 = true)
  /\ (3 / 2 - u <= 7e-11 -> newton_continues (fp.Fin (u - 1)) 1 0 = false).
Proof.
  intros Hu. destruct (q_at_xi_1 u Hu) as [Hq Hq2].
  destruct (newton_step_algebra u _ Hu Hq Hq2) as (_ & Hg & _).
  cbv zeta in Hg. unfold newton_continues.
  rewrite lam2Constraint_at_xi_1 by lra. cbn [fp.abs fp.gt].
  set (g := 2 * u - 2 / 3 - 2 / 3 * sqrt (1 + 3 * u + 3 * (u * u))) in *.
  assert (g <= 0) as Hneg by lra.
  rewrite (Rabs_left1 g Hneg). split; intros He.
  - apply bool_decide_eq_true. lra.
  - apply bool_decide_eq_false. lra.
Qed.

(** The update at distance [e]: the next distance is between [e^2/294]
    and [e^2/29]. *)
Lemma newton_update_at_xi_1 (u : R) :
  1 <= u <= 3 / 2 ->
  exists u' : R,
    newton_update (fp.Fin (u - 1)) 1 0 = fp.Fin (u' - 1)
    /\ / 294 * ((3 / 2 - u) * (3 / 2 - u)) <= 3 / 2 - u'
       <= / 29 * ((3 / 2 - u) * (3 / 2 - u)).
Proof.
  intros Hu. destruct (q_at_xi_1 u Hu) as [Hq Hq2].
  destruct (newton_step_algebra u _ Hu Hq Hq2) as (Hd & _ & He).
  cbv zeta in Hd, He. unfold newton_update.
  rewrite lam2Constraint_at_xi_1, lam2ConstraintDeriv_at_xi_1 by lra.
  rewrite fp_div_eq by lra. cbn [fp.sub fp.add fp.neg].
  set (g := 2 * u - 2 / 3 - 2 / 3 * sqrt (1 + 3 * u + 3 * (u * u))) in *.
  set (d := 2 - (1 + 2 * u) / sqrt (1 + 3 * u + 3 * (u * u))) in *.
  exists (u - g / d). split; [f_equal; lra | lra].
Qed.

(** At [xi = 1], [gamma = 0] the loop makes three updates and stops
    within [3e-13] of the root [lam2sq = 1/2]. *)
Lemma newton_loop_converges_at_xi_1 :
  exists s : R,
    newton_loop 4 (fp.Fin 0.0) 1 0 = Some (fp.Fin s)
    /\ 1 / 2 - 3e-13 <= s <= 1 / 2.
Proof.
  destruct (newton_update_at_xi_1 1 ltac:(lra)) as (u1 & Hu1 & He1).
  assert (1 <= u1 <= 3 / 2) as Hr1 by lra.
  destruct (newton_update_at_xi_1 u1 Hr1) as (u2 & Hu2 & He2).
  assert (0 <= (3 / 2 - u1) * (3 / 2 - u1) <= / 116 * / 116) as Hsq1 by nra.
  assert (/ 1176 * / 1176 <= (3 / 2 - u1) * (3 / 2 - u1)) as Hsq1' by nra.
  assert (1 <= u2 <= 3 / 2) as Hr2 by lra.
  destruct (newton_update_at_xi_1 u2 Hr2) as (u3 & Hu3 & He3).
  assert (0 <= (3 / 2 - u2) * (3 / 2 - u2) <= 26e-7 * 26e-7) as Hsq2 by nra.
  assert (1 <= u3 <= 3 / 2) as Hr3 by lra.
  exists (u3 - 1). split; [|lra].
  replace 0.0 with (1 - 1) by lra. cbn [newton_loop].
  rewrite (proj1 (newton_continues_at_xi_1 1 ltac:(lra))) by lra.
  rewrite Hu1.
  rewrite (proj1 (newton_continues_at_xi_1 u1 Hr1)) by lra.
  rewrite Hu2.
  rewrite (proj1 (newton_continues_at_xi_1 u2 Hr2)) by lra.
  rewrite Hu3.
  rewrite (proj2 (newton_continues_at_xi_1 u3 Hr3)) by lra.
  reflexivity.
Qed.

Lemma pow_4 (x : R) : 0 < x -> libm.pow x 4.0 = x * x * (x * x).
Proof.
  intros Hx. unfold libm.pow. rewrite decide_True by exact Hx.
  replace 4.0 with (INR 4) by (simpl; lra).
  rewrite Rpower_pow by exact Hx. ring.
Qed.

Lemma pow_neg_half (x : R) : 0 < x -> libm.pow x (-0.5) = / sqrt x.
Proof.
  intros Hx. unfold libm.pow. rewrite decide_True by exact Hx.
  replace (-0.5) with (- / 2) by lra.
  rewrite Rpower_Ropp, Rpower_sqrt by exact Hx. reflexivity.
Qed.

(** The mode parameters that the solver delivers at [xi = 1],
    [gamma = 0]: [lam1bar^2 = 1 + lam2bar^2], with [lam2bar^2] within
    [3e-13] of [1/2]. *)
Lemma nondimShearParams_at_xi_1 :
  exists lam1 lam2 : R,
    nondimShearParams 4 1 0 = Some (fp.Fin lam1, fp.Fin lam2)
    /\ 0 < lam1 /\ 0 < lam2
    /\ lam1 * lam1 = 1 + lam2 * lam2
    /\ 1 / 2 - 3e-13 <= lam2 * lam2 <= 1 / 2.
Proof.
  destruct newton_loop_converges_at_xi_1 as (s & Hloop & Hs).
  exists (Rpower ((1 + s) * (1 + s)) 0.25), (sqrt s).
  split; [|split; [|split; [|split]]].
  - unfold nondimShearParams. rewrite Hloop.
    cbn [mbind option_bind fp.add fp.mul].
    rewrite fp_pow_half. unfold fp.sqrt. rewrite decide_True by lra.
    replace (1.0 + 2.0 * s * 1 + s * s + 0) with ((1 + s) * (1 + s))
      by (rewrite lit_1_0, lit_2_0; ring).
    rewrite fp_pow_pos by nra. reflexivity.
  - unfold Rpower. apply exp_pos.
  - apply sqrt_lt_R0. lra.
  - rewrite quarter_power_of_square by lra.
    rewrite sqrt_sqrt by lra. reflexivity.
  - rewrite sqrt_sqrt by lra. exact Hs.
Qed.

Lemma real_shear_params_at_xi_1 :
  exists lam1 lam2 : R,
    real_shear_params 4 1 0 = Some (lam1, lam2)
    /\ 0 < lam1 /\ 0 < lam2
    /\ lam1 * lam1 = 1 + lam2 * lam2
    /\ 1 / 2 - 3e-13 <= lam2 * lam2 <= 1 / 2.
Proof.
  destruct nondimShearParams_at_xi_1 as (lam1 & lam2 & Hp & Hrest).
  exists lam1, lam2. split; [|exact Hrest].
  unfold real_shear_params. rewrite Hp. reflexivity.
Qed.

(** There the determinant of the linear systems of
    [nondimShearParamsSens] is positive. *)
Lemma shear_sens_determinant_at_xi_1 (lam1 lam2 : R) :
  0 < lam1 -> 0 < lam2 ->
  lam1 * lam1 = 1 + lam2 * lam2 ->
  1 / 2 - 3e-13 <= lam2 * lam2 <= 1 / 2 ->
  let exp1 := 1.0 + 2.0 * lam2 * lam2 * 1 + libm.pow lam2 4.0 + 0 in
  let exp2 :=
    (3.0 + 1) / 9.0 + 4.0 / 3.0 * (lam1 * lam1 * 1 + libm.pow lam1 4.0) in
  let dexp1lam2 := 4.0 * lam2 * 1 + 4.0 * lam2 * lam2 * lam2 in
  let dexp2lam1 :=
    4.0 / 3.0 * (2.0 * lam1 * 1 + 4.0 * lam1 * lam1 * lam1) in
  let B := -0.25 * lam1 / exp1 * dexp1lam2 in
  let C := 2.0 * lam1 - 0.5 * libm.pow exp2 (-0.5) * dexp2lam1 in
  let D := 2.0 * lam2 in
  0 < D - B * C.
Proof.
  intros Hl1 Hl2 Hsq Hs. cbv zeta.
  rewrite !pow_4 by assumption.
  set (u := lam1 * lam1) in *.
  assert (1 <= u <= 3 / 2) as Hu by lra.
  destruct (q_at_xi_1 u Hu) as [Hq Hq2].
  set (q := sqrt (1 + 3 * u + 3 * (u * u))) in *.
  assert ((3.0 + 1) / 9.0 + 4.0 / 3.0 * (u * 1 + u * u)
          = 4 / 9 * (1 + 3 * u + 3 * (u * u))) as ->
    by (rewrite lit_3_0, lit_4_0, lit_9_0; field).
  rewrite pow_neg_half by nra. rewrite sqrt_four_ninths by nra.
  fold q.
  assert (lam2 * lam2 = u - 1) as Hl2sq by lra.
  replace (1.0 + 2.0 * lam2 * lam2 * 1 + lam2 * lam2 * (lam2 * lam2) + 0)
    with (u * u)
    by (rewrite lit_1_0, lit_2_0;
        replace (2 * lam2 * lam2) with (2 * (lam2 * lam2)) by ring;
        rewrite Hl2sq; ring).
  replace (4.0 * lam2 * 1 + 4.0 * lam2 * lam2 * lam2) with (4 * lam2 * u)
    by (rewrite lit_4_0;
        replace (4 * lam2 * lam2 * lam2) with (4 * lam2 * (lam2 * lam2))
          by ring;
        rewrite Hl2sq; ring).
  replace (4.0 / 3.0 * (2.0 * lam1 * 1 + 4.0 * lam1 * lam1 * lam1))
    with (4 / 3 * lam1 * (2 + 4 * u))
    by (subst u; rewrite lit_2_0, lit_3_0, lit_4_0; field).
  replace (2.0 * lam2
           - -0.25 * lam1 / (u * u) * (4 * lam2 * u)
             * (2.0 * lam1 - 0.5 * / (2 / 3 * q)
                             * (4 / 3 * lam1 * (2 + 4 * u))))
    with (2 * lam2 + lam2 * (lam1 * lam1) / u * (2 - (2 + 4 * u) / q))
    by (rewrite lit_2_0, lit_0_5;
        replace (-0.25) with (- / 4) by lra; field; lra).
  fold u. replace (lam2 * u / u) with lam2 by (field; lra).
  assert (26 / 10 <= q <= 7 / 2) as Hqb by nra.
  assert ((2 + 4 * u) / q <= 8 / (26 / 10)) as Hfrac.
  { apply Rle_trans with (8 / q).
    - unfold Rdiv. apply Rmult_le_compat_r; [|lra].
      left. now apply Rinv_0_lt_compat.
    - unfold Rdiv. apply Rmult_le_compat_l; [lra|].
      apply Rinv_le_contravar; lra. }
  assert (0 < 4 - (2 + 4 * u) / q) by lra.
  nra.
Qed.

End NewtonConvergence.

(** ** The derivative tests *)

Section DerivativeTests.

Lemma maxRelError_from (acc : R) (l : list R) :
  let r :=
    foldl (fun m e => if decide (e > m) then e else m) acc l in
  acc <= r /\ (forall x : R, x ∈ l -> x <= r) /\ (r = acc \/ r ∈ l).
Proof.
  revert acc. induction l as [|y l IH]; intros acc; cbn [foldl].
  - split; [lra|]. split; [|now left]. intros x Hx. inversion Hx.
  - destruct (decide (y > acc)) as [Hgt|Hle].
    + destruct (IH y) as (H1 & H2 & H3). split; [lra|]. split.
      * intros x Hx. apply elem_of_cons in Hx as [->|Hx]; [exact H1|].
        now apply H2.
      * right. destruct H3 as [->|H3]; [now left | now right].
    + destruct (IH acc) as (H1 & H2 & H3). split; [exact H1|]. split.
      * intros x Hx. apply elem_of_cons in Hx as [->|Hx]; [lra|].
        now apply H2.
      * destruct H3 as [H3|H3]; [now left | right; now right].
Qed.

(** X30.  [testAllTests] returns the largest of the relative errors of
    its sub-tests and of the tests of the surrogates that are attached,
    and never less than zero: the result is at least every one of them,
    and it is zero or one of them.  A surrogate that is not attached
    contributes the error [0.0]. *)
Theorem testAllTests_returns_largest_error
    (this : t) (e0 e1 e2 e3 : R)
    (axialGPTests shearGPTests cripplingGPTests : GP.t -> R) :
  let r :=
    testAllTests this e0 e1 e2 e3 axialGPTests shearGPTests
      cripplingGPTests in
  let surrogate_error (gp : option GP.t) (test : GP.t -> R) :=
    match gp with Some gp => test gp | None => 0 end in
  let errors :=
    [e0; e1; e2; e3; surrogate_error (getAxialGP this) axialGPTests;
     surrogate_error (getShearGP this) shearGPTests;
     surrogate_error (getCripplingGP this) cripplingGPTests] in
  0 <= r /\ (forall x : R, x ∈ errors -> x <= r) /\ (r = 0 \/ r ∈ errors).
Proof.
  unfold testAllTests, maxRelError. rewrite !lit_0_0. cbv zeta.
  apply maxRelError_from.
Qed.

End DerivativeTests.

(** ** The statements on the sample objects *)

Section SampleSoftFunctions.

Lemma sample_soft_relu_derivative (u : R) :
  derivable_pt_lim (fun z => Sample.soft_relu z 10) u
    (Sample.soft_relu_sens u 10).
Proof.
  unfold Sample.soft_relu, Sample.soft_relu_sens.
  pose proof (exp_pos (10 * u)) as He.
  eapply dl_value; [differentiate; lra|]. cbv beta.
  rewrite lit_1_0. field. lra.
Qed.

Lemma sample_soft_abs_derivative (u : R) :
  derivable_pt_lim (fun z => Sample.soft_abs z 10) u
    (Sample.soft_abs_sens u 10).
Proof.
  unfold Sample.soft_abs, Sample.soft_abs_sens.
  pose proof (exp_pos (10 * u)) as He.
  pose proof (exp_pos (- (10) * u)) as Hm.
  eapply dl_value; [differentiate; lra|]. cbv beta.
  rewrite lit_1_0. field. lra.
Qed.

Lemma sample_soft_relu_nonzero (u : R) : Sample.soft_relu u 10 <> 0.
Proof.
  unfold Sample.soft_relu.
  pose proof (exp_pos (10 * u)) as He.
  assert (0 < ln (1 + exp (10 * u))) as Hln.
  { rewrite <- ln_1. apply ln_increasing; lra. }
  rewrite lit_1_0. intros H0. nra.
Qed.

End SampleSoftFunctions.

Section SampleWitnesses.

#[local] Abbreviation sample_kernel :=
  (TACSAxialGaussianProcessModel.kernel Sample.soft_relu Sample.soft_abs 10).
#[local] Abbreviation sample_jacobian :=
  (TACSAxialGaussianProcessModel.jacobian Sample.soft_relu Sample.soft_abs
     Sample.soft_relu_sens Sample.soft_abs_sens 10).

Lemma axial_jacobian_partials_witness :
  (4 <= length [0; 0; 0; 0])%nat
  /\ (2 = 0 \/ 2 = 2 \/ 2 = 3)%nat
  /\ derivable_pt_lim
       (fun z => sample_kernel (with_entry 2 z [0; 0; 0; 0]) [1; 0; 0; 0]) 0
       (sample_jacobian (with_entry 2 0 [0; 0; 0; 0]) [1; 0; 0; 0]
        !!! 2%nat).
Proof.
  split; [cbn; lia|]. split; [right; left; reflexivity|].
  apply axial_jacobian_partials; [cbn; lia | right; left; reflexivity].
Defined.

Lemma axial_jacobian_partial_rho0_witness :
  (forall u : R,
     derivable_pt_lim (fun z => Sample.soft_relu z 10) u
       (Sample.soft_relu_sens u 10))
  /\ (forall u : R,
        derivable_pt_lim (fun z => Sample.soft_abs z 10) u
          (Sample.soft_abs_sens u 10))
  /\ (4 <= length [0; 0; 0; 0])%nat
  /\ Sample.soft_relu (1.0 - Sample.soft_abs 0 10) 10 <> 0
  /\ derivable_pt_lim
       (fun z => sample_kernel (with_entry 1 z [0; 0; 0; 0]) [1; 0; 0; 0]) 0
       (sample_jacobian (with_entry 1 0 [0; 0; 0; 0]) [1; 0; 0; 0]
        !!! 1%nat).
Proof.
  split; [exact sample_soft_relu_derivative|].
  split; [exact sample_soft_abs_derivative|].
  split; [cbn; lia|].
  split; [apply sample_soft_relu_nonzero|].
  apply axial_jacobian_partial_rho0.
  - exact sample_soft_relu_derivative.
  - exact sample_soft_abs_derivative.
  - cbn; lia.
  - apply sample_soft_relu_nonzero.
Defined.

Lemma predictMeanTestDataSens_is_gradient_witness :
  GP.methods (Sample.axialGP 1)
  = TACSAxialGaussianProcessModel.methods Sample.soft_relu Sample.soft_abs
      Sample.soft_relu_sens Sample.soft_abs_sens 10
  /\ GP.n_param (Sample.axialGP 1) = 4%nat
  /\ length [0; 0; 0; 0] = 4%nat
  /\ (1 < 4)%nat
  /\ Sample.soft_relu (1.0 - Sample.soft_abs 0 10) 10 <> 0
  /\ derivable_pt_lim
       (fun z =>
          2 * GP.predictMeanTestData (Sample.axialGP 1)
                (with_entry 1 z [0; 0; 0; 0])) 0
       ((GP.predictMeanTestDataSens (Sample.axialGP 1) 2
           (with_entry 1 0 [0; 0; 0; 0]) [0; 0; 0; 0]).2 !!! 1%nat).
Proof.
  split; [reflexivity|]. split; [reflexivity|]. split; [reflexivity|].
  split; [lia|]. split; [apply sample_soft_relu_nonzero|].
  apply (predictMeanTestDataSens_is_gradient Sample.soft_relu Sample.soft_abs
           Sample.soft_relu_sens Sample.soft_abs_sens 10).
  - exact sample_soft_relu_derivative.
  - exact sample_soft_abs_derivative.
  - reflexivity.
  - reflexivity.
  - reflexivity.
  - cbn; lia.
  - lia.
  - intros _. apply sample_soft_relu_nonzero.
Defined.

Lemma computeCriticalGlobalAxialLoadSens_surrogate_gradient_witness :
  getAxialGP Sample.shell = Some (Sample.axialGP 0)
  /\ GP.n_param (Sample.axialGP 0) = 4%nat
  /\ Sample.soft_relu (1.0 - Sample.soft_abs (ln 1) 10) 10 <> 0
  /\ let load :=
       fun D11 D22 b delta rho_0 xi gamma zeta =>
         1 * computeCriticalGlobalAxialLoad 3 Sample.shell D11 D22 b delta
               rho_0 xi gamma zeta in
     let '(_, (D11sens, D22sens, bsens, deltasens, rho_0sens, xisens,
               gammasens, zetasens)) :=
       computeCriticalGlobalAxialLoadSens 3 Sample.shell 1 1 1 1 0 1 1 0 1
         0 0 0 0 0 0 0 0 in
     derivable_pt_lim (fun z => load z 1 1 0 1 1 0 1) 1 (D11sens - 0)
     /\ derivable_pt_lim (fun z => load 1 z 1 0 1 1 0 1) 1 (D22sens - 0)
     /\ derivable_pt_lim (fun z => load 1 1 z 0 1 1 0 1) 1 (bsens - 0)
     /\ derivable_pt_lim (fun z => load 1 1 1 z 1 1 0 1) 0 (deltasens - 0)
     /\ derivable_pt_lim (fun z => load 1 1 1 0 z 1 0 1) 1 (rho_0sens - 0)
     /\ derivable_pt_lim (fun z => load 1 1 1 0 1 z 0 1) 1 (xisens - 0)
     /\ derivable_pt_lim (fun z => load 1 1 1 0 1 1 z 1) 0 (gammasens - 0)
     /\ derivable_pt_lim (fun z => load 1 1 1 0 1 1 0 z) 1 (zetasens - 0).
Proof.
  split; [reflexivity|]. split; [reflexivity|].
  split; [apply sample_soft_relu_nonzero|].
  apply (computeCriticalGlobalAxialLoadSens_surrogate_gradient
           Sample.soft_relu Sample.soft_abs Sample.soft_relu_sens
           Sample.soft_abs_sens 10 sample_soft_relu_derivative
           sample_soft_abs_derivative (Sample.axialGP 0) eq_refl
           3 Sample.shell 1 1 1 1 0 1 1 0 1 0 0 0 0 0 0 0 0);
    try reflexivity; try lra.
  apply sample_soft_relu_nonzero.
Defined.

(** The base-class queries of the sample: they leave the arrays as they
    are. *)
#[local] Abbreviation sample_nums :=
  (fun (_ : Base.t) (_ _ : Z) (nums : list Z) => nums).
#[local] Abbreviation sample_range :=
  (fun (_ : Base.t) (_ _ : Z) (lb ub : list R) => (lb, ub)).
#[local] Abbreviation sample_thickness := (fun _ : Base.t => 1).

Lemma constructor_panel_width_is_last_variable_witness :
  let this := constructor Sample.base 7 5 None None None in
  (0 <= 5)%Z
  /\ (0 <= Base.numDesignVars Sample.base)%Z
  /\ (Base.numDesignVars Sample.base + 1 <= 6)%Z
  /\ (exists dvs',
        getDesignVars (H := Sample.methods) this 0 6 [0; 0; 0; 0; 0; 0]
        = (dvs', (Base.numDesignVars Sample.base + 1)%Z)
        /\ dvs' !!! 5%nat = 7)
  /\ (exists nums',
        getDesignVarNums sample_nums this 0 6
          (Some [0; 0; 0; 0; 0; 0]%Z)
        = (Some nums', (Base.numDesignVars Sample.base + 1)%Z)
        /\ nums' !!! 5%nat = 5%Z)
  /\ (exists lb' ub',
        getDesignVarRange sample_range this 0 6 [1; 1; 1; 1; 1; 1]
          [2; 2; 2; 2; 2; 2]
        = (lb', ub', (Base.numDesignVars Sample.base + 1)%Z)
        /\ lb' !!! 5%nat = 0 /\ ub' !!! 5%nat = 1e20).
Proof.
  intros this. subst this.
  split; [lia|]. split; [cbn; lia|]. split; [cbn; lia|].
  apply (constructor_panel_width_is_last_variable (M := Sample.methods)
           sample_nums sample_range
           ltac:(reflexivity) ltac:(reflexivity)
           ltac:(intros; split; reflexivity)
           Sample.base 7 5 0 6 None None None
           [0; 0; 0; 0; 0; 0] [1; 1; 1; 1; 1; 1] [2; 2; 2; 2; 2; 2]
           [0; 0; 0; 0; 0; 0]%Z);
    first [reflexivity | cbn; lia].
Defined.

Lemma short_design_vector_is_ignored_witness :
  (3 < Base.numDesignVars (base Sample.shell))%Z
  /\ panelWidth
       (setDesignVars (H := Sample.methods) Sample.shell 0 3 [10; 20; 30]).1
     = panelWidth Sample.shell
  /\ (setDesignVars (H := Sample.methods) Sample.shell 0 3 [10; 20; 30]).2
     = Base.numDesignVars (base Sample.shell)
  /\ getDesignVars (H := Sample.methods) Sample.shell 0 3 [10; 20; 30]
     = (Base.getDesignVars (Methods := Sample.methods) (base Sample.shell)
          0 3 [10; 20; 30],
        Base.numDesignVars (base Sample.shell))
  /\ getDesignVarNums sample_nums Sample.shell 0 3 (Some [0; 0; 0]%Z)
     = (Some (sample_nums (base Sample.shell) 0%Z 3%Z [0; 0; 0]%Z),
        Base.numDesignVars (base Sample.shell))
  /\ getDesignVarRange sample_range Sample.shell 0 3 [1; 1; 1] [2; 2; 2]
     = (sample_range (base Sample.shell) 0%Z 3%Z [1; 1; 1] [2; 2; 2],
        Base.numDesignVars (base Sample.shell)).
Proof.
  split; [simpl; lia|].
  apply (short_design_vector_is_ignored (M := Sample.methods)
           sample_nums sample_range ltac:(reflexivity)
           Sample.shell 0 3 [10; 20; 30] [1; 1; 1] [2; 2; 2] [0; 0; 0]%Z).
  left. simpl. lia.
Defined.

Lemma panelWidth_get_set_roundtrip_witness :
  panelWidth_slot_ok Sample.shell
  /\ length [0; 0; 0; 0; 0; 0] = Z.to_nat 6
  /\ panelWidth
       (setDesignVars (H := Sample.methods) Sample.shell 0 6
          (getDesignVars (H := Sample.methods) Sample.shell 0 6
             [0; 0; 0; 0; 0; 0]).1).1
     = panelWidth Sample.shell.
Proof.
  assert (panelWidth_slot_ok Sample.shell) as Hok.
  { apply constructor_slot_ok. simpl. lia. }
  split; [exact Hok|]. split; [reflexivity|].
  apply (panelWidth_get_set_roundtrip (M := Sample.methods)
           ltac:(reflexivity) ltac:(reflexivity)
           Sample.shell 0 6 [0; 0; 0; 0; 0; 0] Hok).
  reflexivity.
Defined.

Lemma evalDesignFieldValue_panel_width_witness :
  (forall (b : Base.t) (elemIndex dvLen : Z) (dvs : list R),
     Base.numDesignVars
       (Base.setDesignVars (Methods := Sample.methods) b elemIndex dvLen dvs)
     = Base.numDesignVars b)
  /\ (forall index : Z,
        (index < 0)%Z \/ (7 < index)%Z ->
        evalDesignFieldValue sample_thickness sample_thickness Sample.shell
          index = 0)
  /\ evalDesignFieldValue sample_thickness sample_thickness Sample.shell 7
     = panelWidth Sample.shell
  /\ ((0 <= panelWidthNum Sample.shell)%Z ->
      (Base.numDesignVars (base Sample.shell) <= 6)%Z ->
      evalDesignFieldValue sample_thickness sample_thickness
        (setDesignVars (H := Sample.methods) Sample.shell 0 6
           [10; 20; 30; 40; 50; 60]).1 7
      = [10; 20; 30; 40; 50; 60]
        !!! Z.to_nat (panelWidthLocalNum Sample.shell)).
Proof.
  split; [reflexivity|].
  apply (evalDesignFieldValue_panel_width (M := Sample.methods)
           sample_thickness sample_thickness ltac:(reflexivity)
           Sample.shell 0 6 [10; 20; 30; 40; 50; 60]).
Defined.

Lemma surrogate_loads_are_positive_witness :
  getAxialGP Sample.shell = Some (Sample.axialGP 0)
  /\ getShearGP Sample.shell = Some (Sample.axialGP 0)
  /\ getCripplingGP Sample.shell = Some (Sample.axialGP 0)
  /\ Base.stiffenerPitch (base Sample.shell) <> 0
  /\ Base.stiffenerHeight (base Sample.shell) <> 0
  /\ 0 < computeCriticalGlobalAxialLoad 3 Sample.shell 1 1 1 0 1 1 0 1
  /\ 0 < computeCriticalLocalAxialLoad 3 Sample.shell 1 1 1 1 1
  /\ (exists N12 : R,
        computeCriticalGlobalShearLoad 0 Sample.shell 1 1 1 1 1 0 1
        = Some N12 /\ 0 < N12)
  /\ (exists N12 : R,
        computeCriticalLocalShearLoad 0 Sample.shell 1 1 1 1 1 = Some N12
        /\ 0 < N12)
  /\ 0 < computeStiffenerCripplingLoad Sample.shell 1 1 1 1 1 1.
Proof.
  split; [reflexivity|]. split; [reflexivity|]. split; [reflexivity|].
  split; [simpl; lra|]. split; [simpl; lra|].
  apply (surrogate_loads_are_positive 3 0 Sample.shell (Sample.axialGP 0)
           (Sample.axialGP 0) (Sample.axialGP 0) 1 1 1 0 1 1 0 1 1);
    first [reflexivity | lra | simpl; lra].
Defined.

Lemma shear_surrogate_avoids_newton_loop_witness :
  getShearGP Sample.shell = Some (Sample.axialGP 0)
  /\ is_Some (computeFailureValues (H := Sample.methods) 3 0 Sample.shell
                Sample.strain)
  /\ is_Some (evalFailureStrainSens (H := Sample.methods) 9 3 0 Sample.shell
                Sample.strain (replicate 9 0))
  /\ is_Some (addFailureDVSens (H := Sample.methods) 9 3 6 0 Sample.shell 1
                Sample.strain [0; 0; 0; 0; 0; 0]).
Proof.
  split; [reflexivity|].
  apply (shear_surrogate_avoids_newton_loop (M := Sample.methods) 9 3 6
           Sample.shell (Sample.axialGP 0)).
  reflexivity.
Defined.

Lemma at_offset_keeps (k j : nat) (f : list R -> list R) :
  (forall d : list R, length (f d) = length d) ->
  keeps_slot j f -> keeps_slot (k + j) (at_offset k f).
Proof.
  intros Hlen Hf buf.
  destruct (decide (k <= length buf)%nat) as [Hk|Hk].
  - rewrite at_offset_above by exact Hk. rewrite Hf.
    apply lookup_total_drop.
  - unfold at_offset. rewrite take_ge, drop_ge by lia.
    assert (f [] = []) as -> by (apply nil_length_inv, Hlen).
    now rewrite app_nil_r.
Qed.

Lemma addFailureDVSens_own_writes_witness :
  (forall c e psi,
     keeps_slot 5
       (at_offset (Base.panelDVStartNum (base Sample.shell))
          (Base.addStiffenerStressDVSens (Methods := Sample.methods)
             (base Sample.shell) c e psi)))
  /\ 5%nat <> Z.to_nat (Base.panelThickLocalNum (base Sample.shell))
  /\ 5%nat <> Z.to_nat (Base.stiffenerThickLocalNum (base Sample.shell))
  /\ exists out : list R,
       addFailureDVSens (H := Sample.methods) 9 3 6 0 Sample.shell 1
         Sample.strain [0; 0; 0; 0; 0; 0] = Some out
       /\ out !!! 5%nat = [0; 0; 0; 0; 0; 0] !!! 5%nat.
Proof.
  assert (forall k j : nat,
            keeps_slot (k + j) (at_offset k (fun d : list R => d)))
    as Hid.
  { intros k j. apply at_offset_keeps; [reflexivity | now intros buf]. }
  assert (forall c e psi,
            keeps_slot 5
              (at_offset (Base.panelDVStartNum (base Sample.shell))
                 (Base.addStiffenerStressDVSens (Methods := Sample.methods)
                    (base Sample.shell) c e psi))) as Hstress.
  { intros c e psi. apply (at_offset_keeps 2 3).
    - intros d. apply length_add_to.
    - intros buf. apply add_to_lookup_ne. lia. }
  split; [exact Hstress|]. split; [simpl; lia|]. split; [simpl; lia|].
  destruct (failure_routines_return_with_shear_surrogate
              (M := Sample.methods) 9 3 6 Sample.shell (Sample.axialGP 0) 1
              Sample.strain (replicate 9 0) [0; 0; 0; 0; 0; 0] eq_refl)
    as (_ & _ & [out Hout]).
  exists out. split; [exact Hout|].
  apply (addFailureDVSens_own_writes (M := Sample.methods) 9 3 6 0
           Sample.shell 1 Sample.strain [0; 0; 0; 0; 0; 0] out 5).
  - intros e s. apply (Hid 2%nat 3%nat).
  - intros e s. apply (Hid 3%nat 2%nat).
  - intros s0 e c buf. reflexivity.
  - intros c e psi. apply (Hid 2%nat 3%nat).
  - exact Hstress.
  - intros _. simpl. lia.
  - intros _. simpl. lia.
  - exact Hout.
Defined.

Lemma nondimShearParams_real_outputs_solve_witness :
  exists lam1 lam2 : R,
    nondimShearParams 4 1 0 = Some (fp.Fin lam1, fp.Fin lam2)
    /\ 0 < lam2
    /\ 0 <= lam1 /\ 0 <= lam2
    /\ lam1 ^ 4 = 1 + 2 * lam2 ^ 2 * 1 + lam2 ^ 4 + 0
    /\ Rabs (lam2 ^ 2 + lam1 ^ 2 + 1 / 3
             - sqrt ((3 + 1) / 9 + 4 / 3 * lam1 ^ 2 * 1
                     + 4 / 3 * lam1 ^ 4)) <= 1e-10.
Proof.
  destruct nondimShearParams_at_xi_1 as (lam1 & lam2 & Hp & _ & Hl2 & _).
  exists lam1, lam2. split; [exact Hp|]. split; [exact Hl2|].
  apply (nondimShearParams_real_outputs_solve 4 1 0 lam1 lam2
           ltac:(lra) Hp).
Defined.

Lemma computeStiffenerCripplingLoadSens_closed_form_gradient_witness :
  getCripplingGP Sample.closed_form_shell = None
  /\ 0.476 - 0.56 * (0.2 - 0.2) <> 0
  /\ Base.stiffenerHeight (base Sample.closed_form_shell) <> 0
  /\ let load :=
       fun D11 D22 xi genPoiss =>
         1 * computeStiffenerCripplingLoad Sample.closed_form_shell D11 D22
               xi 1 genPoiss 1 in
     let '(_, (D11sens, D22sens, sheightsens, xisens, rho_0sens,
               genPoiss_sens, zetasens)) :=
       computeStiffenerCripplingLoadSens Sample.closed_form_shell 1 1 1 1 1
         0.2 1 0 0 0 0 0 0 0 in
     derivable_pt_lim (fun z => load z 1 1 0.2) 1 (D11sens - 0)
     /\ derivable_pt_lim (fun z => load 1 z 1 0.2) 1 (D22sens - 0)
     /\ derivable_pt_lim (fun z => load 1 1 z 0.2) 1 (xisens - 0)
     /\ derivable_pt_lim (fun z => load 1 1 1 z) 0.2 (genPoiss_sens - 0)
     /\ rho_0sens = 0 /\ zetasens = 0.
Proof.
  split; [reflexivity|]. split; [lra|]. split; [simpl; lra|].
  apply (computeStiffenerCripplingLoadSens_closed_form_gradient
           Sample.closed_form_shell 1 1 1 1 1 0.2 1 0 0 0 0 0 0 0);
    first [reflexivity | lra | simpl; lra].
Defined.

Lemma computeAffineAspectRatioSens_gradient_witness :
  let '(rho_0, (D11sens, D22sens, asens, bsens)) :=
    computeAffineAspectRatioSens 1 1 1 1 1 0 0 0 0 in
  rho_0 = computeAffineAspectRatio 1 1 1 1
  /\ derivable_pt_lim (fun z => 1 * computeAffineAspectRatio z 1 1 1) 1
       D11sens
  /\ derivable_pt_lim (fun z => 1 * computeAffineAspectRatio 1 z 1 1) 1
       D22sens
  /\ derivable_pt_lim (fun z => 1 * computeAffineAspectRatio 1 1 z 1) 1
       asens
  /\ derivable_pt_lim (fun z => 1 * computeAffineAspectRatio 1 1 1 z) 1
       bsens.
Proof.
  apply (computeAffineAspectRatioSens_gradient 1 1 1 1 1 0 0 0 0); lra.
Defined.

Lemma computeGeneralizedRigiditySens_gradient_witness :
  let '(xi, (D11sens, D22sens, D12sens, D66sens)) :=
    computeGeneralizedRigiditySens 1 1 1 1 1 0 0 0 0 in
  xi = computeGeneralizedRigidity 1 1 1 1
  /\ derivable_pt_lim (fun z => 1 * computeGeneralizedRigidity z 1 1 1) 1
       (D11sens - 0)
  /\ derivable_pt_lim (fun z => 1 * computeGeneralizedRigidity 1 z 1 1) 1
       (D22sens - 0)
  /\ derivable_pt_lim (fun z => 1 * computeGeneralizedRigidity 1 1 z 1) 1
       (D12sens - 0)
  /\ derivable_pt_lim (fun z => 1 * computeGeneralizedRigidity 1 1 1 z) 1
       (D66sens - 0).
Proof.
  apply (computeGeneralizedRigiditySens_gradient 1 1 1 1 1 0 0 0 0); lra.
Defined.

Lemma computeGeneralizedPoissonsRatioSens_gradient_witness :
  let '(eps, (D12sens, D66sens)) :=
    computeGeneralizedPoissonsRatioSens 1 1 1 0 0 in
  eps = computeGeneralizedPoissonsRatio 1 1
  /\ derivable_pt_lim (fun z => 1 * computeGeneralizedPoissonsRatio z 1) 1
       (D12sens - 0)
  /\ derivable_pt_lim (fun z => 1 * computeGeneralizedPoissonsRatio 1 z) 1
       (D66sens - 0).
Proof.
  apply (computeGeneralizedPoissonsRatioSens_gradient 1 1 1 0 0); lra.
Defined.

Lemma computeTransverseShearParameterSens_gradient_witness :
  let '(zeta, (A66sens, A11sens, bsens, hsens)) :=
    computeTransverseShearParameterSens 1 1 1 1 1 0 0 0 0 in
  zeta = computeTransverseShearParameter 1 1 1 1
  /\ derivable_pt_lim
       (fun z => 1 * computeTransverseShearParameter z 1 1 1) 1
       (A66sens - 0)
  /\ derivable_pt_lim
       (fun z => 1 * computeTransverseShearParameter 1 z 1 1) 1
       (A11sens - 0)
  /\ derivable_pt_lim
       (fun z => 1 * computeTransverseShearParameter 1 1 z 1) 1
       (bsens - 0)
  /\ derivable_pt_lim
       (fun z => 1 * computeTransverseShearParameter 1 1 1 z) 1
       (hsens - 0).
Proof.
  apply (computeTransverseShearParameterSens_gradient 1 1 1 1 1 0 0 0 0);
    lra.
Defined.

Lemma computeStiffenerStiffnessRatioSens_D11_gradient_witness :
  Base.stiffenerThick (base Sample.shell) <> 0
  /\ let '(gamma, (D11sens, _, _, _)) :=
       computeStiffenerStiffnessRatioSens (H := Sample.methods) Sample.shell
         1 1 0 0 0 0 in
     gamma
     = computeStiffenerStiffnessRatio (H := Sample.methods) Sample.shell 1
     /\ derivable_pt_lim
          (fun z =>
             1 * computeStiffenerStiffnessRatio (H := Sample.methods)
                   Sample.shell z) 1
          (D11sens - 0).
Proof.
  split; [simpl; lra|].
  apply (computeStiffenerStiffnessRatioSens_D11_gradient
           (M := Sample.methods) Sample.shell 1 1 0 0 0 0);
    [lra | simpl; lra].
Defined.

Lemma lam2ConstraintDeriv_differentiates_for_xi_1_witness :
  0 <= 1
  /\ 0 < 1.0 + 2.0 * 0 * 1 + 0 * 0 + 0
  /\ exists d : R,
       lam2ConstraintDeriv (fp.Fin 0) 1 0 = fp.Fin d
       /\ derivable_pt_lim
            (fun z => fp_value (lam2Constraint (fp.Fin z) 1 0)) 0 d.
Proof.
  split; [lra|]. split; [lra|].
  destruct (lam2ConstraintDeriv_differentiates_for_xi_1 1 0 0
              ltac:(lra) ltac:(lra)) as (d & Hd & _ & Hexact).
  exists d. split; [exact Hd | now apply Hexact].
Defined.

Lemma nondimShearParamsSens_solves_its_systems_witness :
  exists lam1 lam2 dl1xi dl1gamma dl2xi dl2gamma : R,
    nondimShearParamsSens 4 1 0
    = Some (lam1, lam2, dl1xi, dl1gamma, dl2xi, dl2gamma)
    /\ 0 < lam2
    /\ let exp1 := 1.0 + 2.0 * lam2 * lam2 * 1 + libm.pow lam2 4.0 + 0 in
       let exp2 :=
         (3.0 + 1) / 9.0
         + 4.0 / 3.0 * (lam1 * lam1 * 1 + libm.pow lam1 4.0) in
       let dexp1lam2 := 4.0 * lam2 * 1 + 4.0 * lam2 * lam2 * lam2 in
       let dexp2lam1 :=
         4.0 / 3.0 * (2.0 * lam1 * 1 + 4.0 * lam1 * lam1 * lam1) in
       let B := -0.25 * lam1 / exp1 * dexp1lam2 in
       let C := 2.0 * lam1 - 0.5 * libm.pow exp2 (-0.5) * dexp2lam1 in
       let D := 2.0 * lam2 in
       let E1 := 0.25 * lam1 / exp1 * (2.0 * lam2 * lam2) in
       let F1 := -1.0 / 3.0 + 0.5 * libm.pow exp2 (-0.5) * (1.0 / 9.0) in
       let E2 := 0.25 * lam1 / exp1 * 1.0 in
       let F2 := -1.0 / 3.0 + 0.5 * libm.pow exp2 (-0.5) * 0.0 in
       D - B * C <> 0
       /\ real_shear_params 4 1 0 = Some (lam1, lam2)
       /\ dl1xi + B * dl2xi = E1
       /\ C * dl1xi + D * dl2xi = F1
       /\ dl1gamma + B * dl2gamma = E2
       /\ C * dl1gamma + D * dl2gamma = F2.
Proof.
  destruct real_shear_params_at_xi_1
    as (lam1 & lam2 & Hreal & Hl1 & Hl2 & Hsq & Hs).
  assert (exists a b c d : R,
            nondimShearParamsSens 4 1 0 = Some (lam1, lam2, a, b, c, d))
    as (a & b & c & d & Hsens).
  { unfold nondimShearParamsSens. rewrite Hreal.
    cbn [mbind option_bind]. cbv zeta. eauto 10. }
  pose proof (shear_sens_determinant_at_xi_1 lam1 lam2 Hl1 Hl2 Hsq Hs)
    as Hdet.
  exists lam1, lam2, a, b, c, d.
  split; [exact Hsens|]. split; [exact Hl2|].
  cbv zeta in Hdet |- *.
  split; [apply Rgt_not_eq; exact Hdet|].
  apply (nondimShearParamsSens_solves_its_systems 4 1 0 lam1 lam2 a b c d
           Hsens).
  apply Rgt_not_eq. exact Hdet.
Defined.

Lemma sample_sens_is_gradient (alpha0 : R) (X : list R) :
  (4 <= length X)%nat -> sens_is_gradient (Sample.axialGP alpha0) X.
Proof.
  intros HX.
  apply (axial_sens_is_gradient Sample.soft_relu Sample.soft_abs
           Sample.soft_relu_sens Sample.soft_abs_sens 10
           sample_soft_relu_derivative sample_soft_abs_derivative
           (Sample.axialGP alpha0) eq_refl X);
    [reflexivity | exact HX | apply sample_soft_relu_nonzero].
Qed.

Lemma computeCriticalGlobalShearLoadSens_surrogate_gradient_witness :
  getShearGP Sample.shell = Some (Sample.axialGP 0)
  /\ sens_is_gradient (Sample.axialGP 0)
       (log_inputs (libm.log 1) (libm.log 1) (libm.log (1.0 + 0))
          (libm.log 1))
  /\ let load :=
       fun D11 D22 b xi rho_0 gamma zeta =>
         1 * default 0
               (computeCriticalGlobalShearLoad 0 Sample.shell D11 D22 b xi
                  rho_0 gamma zeta) in
     exists N12 D11sens D22sens bsens xisens rho_0sens gammasens zetasens,
       computeCriticalGlobalShearLoadSens 0 Sample.shell 1 1 1 1 1 1 0 1
         0 0 0 0 0 0 0
       = Some (N12, (D11sens, D22sens, bsens, xisens, rho_0sens, gammasens,
                     zetasens))
       /\ computeCriticalGlobalShearLoad 0 Sample.shell 1 1 1 1 1 0 1
          = Some N12
       /\ derivable_pt_lim (fun z => load z 1 1 1 1 0 1) 1 (D11sens - 0)
       /\ derivable_pt_lim (fun z => load 1 z 1 1 1 0 1) 1 (D22sens - 0)
       /\ derivable_pt_lim (fun z => load 1 1 z 1 1 0 1) 1 (bsens - 0)
       /\ derivable_pt_lim (fun z => load 1 1 1 z 1 0 1) 1 (xisens - 0)
       /\ derivable_pt_lim (fun z => load 1 1 1 1 z 0 1) 1 (rho_0sens - 0)
       /\ derivable_pt_lim (fun z => load 1 1 1 1 1 z 1) 0 (gammasens - 0)
       /\ derivable_pt_lim (fun z => load 1 1 1 1 1 0 z) 1 (zetasens - 0).
Proof.
  assert (sens_is_gradient (Sample.axialGP 0)
            (log_inputs (libm.log 1) (libm.log 1) (libm.log (1.0 + 0))
               (libm.log 1))) as Hgrad.
  { apply sample_sens_is_gradient. cbn. lia. }
  split; [reflexivity|]. split; [exact Hgrad|].
  apply (computeCriticalGlobalShearLoadSens_surrogate_gradient
           0 Sample.shell (Sample.axialGP 0)
           1 1 1 1 1 1 0 1 0 0 0 0 0 0 0 eq_refl Hgrad); lra.
Defined.

Lemma computeStiffenerCripplingLoadSens_surrogate_gradient_witness :
  getCripplingGP Sample.shell = Some (Sample.axialGP 0)
  /\ sens_is_gradient (Sample.axialGP 0)
       (log_inputs (libm.log 1) (libm.log 1) (libm.log 1) (libm.log 1))
  /\ Base.stiffenerHeight (base Sample.shell) <> 0
  /\ let load :=
       fun D11 D22 xi rho_0 genPoiss zeta =>
         1 * computeStiffenerCripplingLoad Sample.shell D11 D22 xi rho_0
               genPoiss zeta in
     let '(_, (D11sens, D22sens, sheightsens, xisens, rho_0sens,
               genPoiss_sens, zetasens)) :=
       computeStiffenerCripplingLoadSens Sample.shell 1 1 1 1 1 1 1
         0 0 0 0 0 0 0 in
     derivable_pt_lim (fun z => load z 1 1 1 1 1) 1 (D11sens - 0)
     /\ derivable_pt_lim (fun z => load 1 z 1 1 1 1) 1 (D22sens - 0)
     /\ derivable_pt_lim (fun z => load 1 1 z 1 1 1) 1 (xisens - 0)
     /\ derivable_pt_lim (fun z => load 1 1 1 z 1 1) 1 (rho_0sens - 0)
     /\ derivable_pt_lim (fun z => load 1 1 1 1 z 1) 1 (genPoiss_sens - 0)
     /\ derivable_pt_lim (fun z => load 1 1 1 1 1 z) 1 (zetasens - 0).
Proof.
  assert (sens_is_gradient (Sample.axialGP 0)
            (log_inputs (libm.log 1) (libm.log 1) (libm.log 1)
               (libm.log 1))) as Hgrad.
  { apply sample_sens_is_gradient. cbn. lia. }
  assert (Base.stiffenerHeight (base Sample.shell) <> 0) as Hh
    by (simpl; lra).
  split; [reflexivity|]. split; [exact Hgrad|]. split; [exact Hh|].
  apply (computeStiffenerCripplingLoadSens_surrogate_gradient
           Sample.shell (Sample.axialGP 0) 1 1 1 1 1 1 1 0 0 0 0 0 0 0
           eq_refl Hgrad); first [exact Hh | lra].
Defined.

End SampleWitnesses.
